(** * Lead enrichment: scraping, relevance analysis, topic matching, cache

    A shallow embedding of the lead-enrichment feature
    (WebsiteScraperService, CompanyAnalysisService,
    LeadEnrichmentController, WebsiteAnalysisCache) and the properties
    its specification states about it.

    Conventions of the embedding.
    - A JavaScript string is a [string]; one [ascii] stands for one UTF-16
      code unit, so the model covers the strings whose code units are below
      256, and [String.length] is JavaScript's [.length].  Upper-casing
      leaves these strings (the capital of the sharp s is SS, that of the
      micro sign lies above 255), so its result is a list of code units.
    - A JavaScript number is a [jsnum]: NaN, the two infinities, or a finite
      value given by the rational it denotes (0 and -0 are one value); a
      number read from text is rounded to the nearest double.  Comparison of
      doubles is exact, so [>=] on the rationals is the comparison the code
      performs.
    - The outside world (web sites, the AI provider) is an [env]: the
      outcome of the n-th request as a function of n and of the request.
      Code that awaits runs in the monad [M], which threads the log of the
      requests made so far and propagates thrown errors. *)

From Stdlib Require Import ZArith QArith Qabs Qround Lia Bool Ascii Sorted.
From stdpp Require Import base option list strings gmap.

Local Open Scope string_scope.
Local Open Scope list_scope.
Local Open Scope Z_scope.

Notation "x <- m ;; k" := (mbind (fun x => k) m)
  (at level 100, m at next level, right associativity, only parsing).

(* ===================================================================== *)
(** ** JavaScript built-ins the sources use *)
(* ===================================================================== *)

Module JS.

(** *** Strings *)

Definition nl : ascii := ascii_of_nat 10.
Definition dquote : ascii := ascii_of_nat 34.

(** [s] between double quotes *)
Definition quoted (s : string) : string :=
  String dquote (s +:+ String dquote EmptyString).

(** [s.length] *)
Definition len (s : string) : nat := String.length s.

(** [s.startsWith(p)] *)
Fixpoint startsWith (p s : string) : bool :=
  match p with
  | EmptyString => true
  | String a p' =>
      match s with
      | EmptyString => false
      | String b s' => if Ascii.eqb a b then startsWith p' s' else false
      end
  end.

(** the first [n] code units of [s] *)
Fixpoint take_str (n : nat) (s : string) : string :=
  match n, s with
  | O, _ => EmptyString
  | S n', EmptyString => EmptyString
  | S n', String c s' => String c (take_str n' s')
  end.

(** [s] without its first [n] code units *)
Fixpoint drop_str (n : nat) (s : string) : string :=
  match n, s with
  | O, _ => s
  | S n', EmptyString => EmptyString
  | S n', String _ s' => drop_str n' s'
  end.

(** [s.substring(a, b)] for non-negative integer arguments: the arguments
    are swapped when [a > b] and clamped to the length. *)
Definition substring (a b : nat) (s : string) : string :=
  let lo := Nat.min a b in
  let hi := Nat.max a b in
  take_str (hi - lo) (drop_str lo s).

(** [parts.join(sep)] *)
Fixpoint join (sep : string) (parts : list string) : string :=
  match parts with
  | [] => EmptyString
  | [p] => p
  | p :: rest => p +:+ sep +:+ join sep rest
  end.

(** White space as [trim], [parseInt] and [parseFloat] strip it
    (the white-space and line-terminator code units below 256). *)
Definition is_ws (c : ascii) : bool :=
  let n := nat_of_ascii c in
  ((9 <=? n) && (n <=? 13) || (n =? 32) || (n =? 160))%nat.

Fixpoint trimStart (s : string) : string :=
  match s with
  | EmptyString => EmptyString
  | String c s' => if is_ws c then trimStart s' else s
  end.

Fixpoint trimEnd (s : string) : string :=
  match s with
  | EmptyString => EmptyString
  | String c s' =>
      match trimEnd s' with
      | EmptyString => if is_ws c then EmptyString else String c EmptyString
      | t => String c t
      end
  end.

(** [s.trim()] *)
Definition trim (s : string) : string := trimEnd (trimStart s).

(** Upper-casing.  The capital of a code unit below 256 may lie above 255
    (that of the micro sign and of y with diaeresis) or be two code units
    (that of the sharp s), so an upper-cased string is held as the list of
    its code units. *)
Definition sharp_s : ascii := ascii_of_nat 223.

(** The code units of [s] *)
Fixpoint units (s : string) : list N :=
  match s with
  | EmptyString => []
  | String c s' => N_of_ascii c :: units s'
  end.

(** [c.toUpperCase()] for one code unit below 256: the letters a-z give
    A-Z, the accented letters from 224 to 254 (the division sign, 247,
    apart) give those from 192 to 222, the sharp s gives SS, the micro sign
    gives U+039C and y with diaeresis U+0178; every other code unit is its
    own capital. *)
Definition upper (c : ascii) : list N :=
  let n := N_of_ascii c in
  if ((97 <=? n) && (n <=? 122))%N then [n - 32]%N
  else if (n =? 223)%N then [83; 83]%N
  else if (n =? 181)%N then [924]%N
  else if (n =? 255)%N then [376]%N
  else if ((224 <=? n) && (n <=? 254) && negb (n =? 247))%N then [n - 32]%N
  else [n].

(** [s.toUpperCase()] *)
Fixpoint toUpperCase (s : string) : list N :=
  match s with
  | EmptyString => []
  | String c s' => upper c ++ toUpperCase s'
  end.

(** [t.startsWith(p)] on code units *)
Fixpoint starts (p t : list N) : bool :=
  match p, t with
  | [], _ => true
  | _ :: _, [] => false
  | a :: p', b :: t' => (a =? b)%N && starts p' t'
  end.

Fixpoint includes_units (needle t : list N) : bool :=
  starts needle t ||
  match t with
  | [] => false
  | _ :: t' => includes_units needle t'
  end.

(** [t.includes(needle)] for an upper-cased [t] *)
Definition includes (needle : string) (t : list N) : bool :=
  includes_units (units needle) t.

(** [s.indexOf(c)] for a single code unit; [None] is -1. *)
Fixpoint indexOf (c : ascii) (s : string) : option nat :=
  match s with
  | EmptyString => None
  | String d s' =>
      if Ascii.eqb c d then Some O else option_map S (indexOf c s')
  end.

(** [s.lastIndexOf(c)] for a single code unit; [None] is -1. *)
Fixpoint lastIndexOf (c : ascii) (s : string) : option nat :=
  match s with
  | EmptyString => None
  | String d s' =>
      match lastIndexOf c s' with
      | Some i => Some (S i)
      | None => if Ascii.eqb c d then Some O else None
      end
  end.

(** Truthiness of a string that may be absent ([undefined] or [null]). *)
Definition truthy_str (s : option string) : bool :=
  match s with
  | Some (String _ _) => true
  | _ => false
  end.

(** [a || b] on strings that may be absent *)
Definition or_str (a b : option string) : option string :=
  if truthy_str a then a else b.

(** *** How a call ends

    It returns, it throws an error (the sources read nothing of an error but
    its [message]), or it never ends: a loop whose counter does not advance.
    No [catch] sees the last. *)
Inductive outcome (A : Type) : Type :=
| Return (a : A)
| Throw (message : string)
| Diverge.
Arguments Return {A} a.
Arguments Throw {A} message.
Arguments Diverge {A}.

#[export] Instance outcome_ret : MRet outcome := fun A a => Return a.
#[export] Instance outcome_bind : MBind outcome := fun A B f o =>
  match o with
  | Return a => f a
  | Throw e => Throw e
  | Diverge => Diverge
  end.

(** [try { body } catch (error) { handler(error.message) }] *)
Definition catch {A : Type} (body : outcome A) (handler : string -> outcome A)
  : outcome A :=
  match body with
  | Throw e => handler e
  | o => o
  end.

(** *** Numbers *)

Inductive jsnum : Type :=
| NaN
| PInf
| NInf
| Fin (q : Q).

Definition zero : jsnum := Fin 0.

(** The integer nearest to [q], the even one of the two when [q] lies half
    way between them. *)
Definition round_half_even (q : Q) : Z :=
  let f := Qfloor q in
  match Qcompare (q - inject_Z f) (1 # 2) with
  | Lt => f
  | Gt => f + 1
  | Eq => if Z.even f then f else f + 1
  end.

(** The integer part of the binary logarithm of a positive [q]. *)
Definition log2_floor (q : Q) : Z :=
  let e := Z.log2 (Qnum q) - Z.log2 (Zpos (Qden q)) in
  if Qle_bool (Qpower 2 e) q then e else e - 1.

(** The double nearest to the real [q], ties to even: 53 bits of mantissa,
    exponents from -1022 on with gradual underflow below, an infinity from
    [2^1024] on after rounding. *)
Definition mkNum (q : Q) : jsnum :=
  if Qeq_bool q 0 then zero
  else
    let a := Qabs q in
    let ulp := Qpower 2 (Z.max (log2_floor a) (-1022) - 52) in
    let v := (inject_Z (round_half_even (a / ulp)) * ulp)%Q in
    if Qle_bool (Qpower 2 1024) v then (if Qle_bool 0 q then PInf else NInf)
    else Fin (Qred (if Qle_bool 0 q then v else - v)).

(** [!!x] on a number: NaN and zero are falsy. *)
Definition truthy_num (x : jsnum) : bool :=
  match x with
  | NaN => false
  | Fin q => negb (Qeq_bool q 0)
  | PInf | NInf => true
  end.

(** [x || 0] *)
Definition or_zero (x : jsnum) : jsnum := if truthy_num x then x else zero.

(** [a >= b] *)
Definition ge (a b : jsnum) : bool :=
  match a, b with
  | NaN, _ | _, NaN => false
  | PInf, _ => true
  | _, NInf => true
  | NInf, _ => false
  | _, PInf => false
  | Fin x, Fin y => Qle_bool y x
  end.

(** [a - b] *)
Definition sub (a b : jsnum) : jsnum :=
  match a, b with
  | NaN, _ | _, NaN => NaN
  | PInf, PInf | NInf, NInf => NaN
  | PInf, _ => PInf
  | NInf, _ => NInf
  | _, PInf => NInf
  | _, NInf => PInf
  | Fin x, Fin y => Fin (Qred (x - y))
  end.

(** [x > 0], the test [Array.prototype.sort] makes on what the comparator
    returns (a NaN counts as 0). *)
Definition positive (x : jsnum) : bool :=
  match x with
  | PInf => true
  | Fin q => negb (Qle_bool q 0)
  | _ => false
  end.

(** [arr.sort(cmp)]: the sort is stable, so with a comparator that orders
    the elements consistently the result is the one of a stable insertion
    sort: an element moves behind another only when [cmp] of the two is
    positive. *)
Section Sort.
Context {A : Type} (cmp : A -> A -> jsnum).

Fixpoint insert_sorted (x : A) (l : list A) : list A :=
  match l with
  | [] => [x]
  | y :: l' => if positive (cmp x y) then y :: insert_sorted x l' else x :: l
  end.

Fixpoint sort (l : list A) : list A :=
  match l with
  | [] => []
  | x :: l' => insert_sorted x (sort l')
  end.

End Sort.

(** *** Reading numbers out of strings *)

Definition digit_of (radix : Z) (c : ascii) : option Z :=
  let n := Z.of_nat (nat_of_ascii c) in
  let d :=
    if (48 <=? n) && (n <=? 57) then n - 48
    else if (97 <=? n) && (n <=? 122) then n - 87
    else if (65 <=? n) && (n <=? 90) then n - 55
    else 99 in
  if d <? radix then Some d else None.

(** The longest run of digits at the head of [s]: its value on top of
    [acc], how many digits were read, and what follows. *)
Fixpoint read_digits (radix : Z) (s : string) (acc : Z) (count : nat)
  : Z * nat * string :=
  match s with
  | EmptyString => (acc, count, s)
  | String c s' =>
      match digit_of radix c with
      | Some d => read_digits radix s' (radix * acc + d) (S count)
      | None => (acc, count, s)
      end
  end.

(** An optional sign: [true] for a minus. *)
Definition read_sign (s : string) : bool * string :=
  match s with
  | String c s' =>
      if Ascii.eqb c "-" then (true, s')
      else if Ascii.eqb c "+" then (false, s')
      else (false, s)
  | EmptyString => (false, s)
  end.

Definition signed (neg : bool) (q : Q) : Q := if neg then (- q)%Q else q.

Definition is_e (c : ascii) : bool := Ascii.eqb c "e" || Ascii.eqb c "E".

(** An exponent part [e[+-]ddd] at the head of [s], if there is one. *)
Definition read_exponent (s : string) : Z * string :=
  match s with
  | String c s' =>
      if is_e c then
        let '(neg, s1) := read_sign s' in
        let '(e, n, rest) := read_digits 10 s1 0 O in
        match n with
        | O => (0, s)
        | _ => (if neg then - e else e, rest)
        end
      else (0, s)
  | EmptyString => (0, s)
  end.

(** The value of [int.frac] times ten to the [e]. *)
Definition decimal (int frac : Z) (nfrac : nat) (e : Z) : Q :=
  ((inject_Z (int * 10 ^ Z.of_nat nfrac + frac)
    / inject_Z (10 ^ Z.of_nat nfrac)) * Qpower (inject_Z 10) e)%Q.

(** [parseFloat(s)] on a string: white space, a sign, then the longest
    prefix that is [Infinity] or a decimal literal. *)
Definition parseFloat_str (s : string) : jsnum :=
  let '(neg, s1) := read_sign (trimStart s) in
  if startsWith "Infinity" s1 then (if neg then NInf else PInf)
  else
    let '(int, ni, s2) := read_digits 10 s1 0 O in
    let '(frac, nf, s3) :=
      match s2 with
      | String c s2' =>
          if Ascii.eqb c "." then read_digits 10 s2' 0 O else (0, O, s2)
      | EmptyString => (0, O, s2)
      end in
    match (ni + nf)%nat with
    | O => NaN
    | _ =>
        let '(e, _) := read_exponent s3 in
        mkNum (signed neg (decimal int frac nf e))
    end.

(** [parseInt(s)] on a string, no radix given: white space, a sign, an
    optional [0x] that selects base 16, then the longest run of digits. *)
Definition parseInt_str (s : string) : jsnum :=
  let '(neg, s1) := read_sign (trimStart s) in
  let '(radix, s2) :=
    if startsWith "0x" s1 || startsWith "0X" s1
    then (16, drop_str 2 s1) else (10, s1) in
  let '(n, count, _) := read_digits radix s2 0 O in
  match count with
  | O => NaN
  | _ => mkNum (signed neg (inject_Z n))
  end.

(** *** Values

    What [JSON.parse] returns and what the lead, company and post objects of
    a request body hold.  An object is the list of its own properties, each
    key once. *)
#[local] Unset Elimination Schemes.
Inductive value : Type :=
| VUndef
| VNull
| VBool (b : bool)
| VNum (x : jsnum)
| VStr (s : string)
| VArr (elems : list value)
| VObj (props : list (string * value)).
#[local] Set Elimination Schemes.

Definition is_empty (s : string) : bool :=
  match s with
  | EmptyString => true
  | String _ _ => false
  end.

(** [!!v] *)
Definition truthy (v : value) : bool :=
  match v with
  | VUndef | VNull => false
  | VBool b => b
  | VNum x => truthy_num x
  | VStr s => negb (is_empty s)
  | VArr _ | VObj _ => true
  end.

(** [a || b] *)
Definition or_val (a b : value) : value := if truthy a then a else b.

Fixpoint assoc (k : string) (props : list (string * value)) : value :=
  match props with
  | [] => VUndef
  | (k', v) :: rest => if String.eqb k k' then v else assoc k rest
  end.

(** Assignment to the property [k] of an object. *)
Fixpoint obj_set (k : string) (v : value) (props : list (string * value))
  : list (string * value) :=
  match props with
  | [] => [(k, v)]
  | (k', v') :: rest =>
      if String.eqb k k' then (k', v) :: rest else (k', v') :: obj_set k v rest
  end.

(** [v.k] for a property name [k] that no prototype defines (all the names
    the sources read from parsed data are such): reading from [null] or
    [undefined] throws a TypeError, an object answers with its own property,
    anything else with [undefined]. *)
Definition get (v : value) (k : string) : outcome value :=
  match v with
  | VUndef => Throw ("Cannot read properties of undefined (reading '" +:+ k +:+ "')")
  | VNull => Throw ("Cannot read properties of null (reading '" +:+ k +:+ "')")
  | VObj props => Return (assoc k props)
  | _ => Return VUndef
  end.

(** *** parseInt and parseFloat on values

    Both convert their argument to a string first.  For a number [x] that
    string is the shortest decimal that reads back as [x], so [parseFloat(x)]
    is [x]; [parseInt] stops at the first character that is no digit, which
    leaves the integer part of [x] when the string is in plain notation and
    the leading digit when it is in exponent notation.  An array converts to
    its elements joined by commas, [null] and [undefined] elements to the
    empty string, so only its first element is read. *)

(** The [n] with [10^(n-1) <= q < 10^n], for a positive [q]. *)
Fixpoint magnitude_up (fuel : nat) (q : Q) (n : Z) : Z :=
  match fuel with
  | O => n
  | S f => if Qle_bool (Qpower 10 n) q then magnitude_up f q (n + 1) else n
  end.

Fixpoint magnitude_down (fuel : nat) (q : Q) (n : Z) : Z :=
  match fuel with
  | O => n
  | S f =>
      if Qle_bool (Qpower 10 (n - 1)) q then n else magnitude_down f q (n - 1)
  end.

Definition magnitude (q : Q) : Z :=
  let n0 := (log2_floor q * 30103) / 100000 in
  magnitude_up 3 q (magnitude_down 3 q (n0 + 1)).

Definition same_num (a b : jsnum) : bool :=
  match a, b with
  | Fin x, Fin y => Qeq_bool x y
  | _, _ => false
  end.

(** The first digit of the decimal [s * 10^(n-k)] of [k] digits that reads
    back as the double [x] and is nearest to it, if there is one: [s] is the
    integer part of [x / 10^(n-k)] or the integer after it. *)
Definition shortest_at (x : Q) (n k : Z) : option Z :=
  let unit := Qpower 10 (n - k) in
  let lo := Qfloor (x / unit) in
  let vlo := (inject_Z lo * unit)%Q in
  let vhi := (inject_Z (lo + 1) * unit)%Q in
  let first (s : Z) := if s =? 10 ^ k then 1 else s / 10 ^ (k - 1) in
  match same_num (mkNum vlo) (Fin x), same_num (mkNum vhi) (Fin x) with
  | true, false => Some (first lo)
  | false, true => Some (first (lo + 1))
  | true, true =>
      match Qcompare (x - vlo) (vhi - x) with
      | Lt => Some (first lo)
      | Gt => Some (first (lo + 1))
      | Eq => Some (first (if Z.even lo then lo else lo + 1))
      end
  | false, false => None
  end.

Fixpoint shortest_from (fuel : nat) (x : Q) (n k : Z) : Z :=
  match fuel with
  | O => 0
  | S f =>
      match shortest_at x n k with
      | Some d => d
      | None => shortest_from f x n (k + 1)
      end
  end.

(** The first digit of [String(x)] for a positive double [x]: that of the
    decimal with the fewest digits, seventeen at most, that reads back as
    [x]. *)
Definition leading_digit (x : Q) : Z := shortest_from 17 x (magnitude x) 1.

(** [String(x)] is in plain notation when the decimal it is made of lies
    from [1e-6] up to [1e21]; rounding being monotone, that is when [x] is
    at least the double of [1e-6] and below [1e21]. *)
Definition plain_notation (q : Q) : bool :=
  ge (Fin (Qabs q)) (mkNum (1 # 1000000)) &&
  negb (Qle_bool (inject_Z (10 ^ 21)) (Qabs q)).

Definition parseInt_num (x : jsnum) : jsnum :=
  match x with
  | Fin q =>
      if Qeq_bool q 0 then zero
      else if plain_notation q then Fin (inject_Z (Z.quot (Qnum q) (Zpos (Qden q))))
      else Fin (inject_Z (Z.sgn (Qnum q) * leading_digit (Qabs q)))
  | _ => NaN
  end.

Fixpoint parseInt (v : value) : jsnum :=
  match v with
  | VNum x => parseInt_num x
  | VStr s => parseInt_str s
  | VArr (first :: _) => parseInt first
  | _ => NaN
  end.

Fixpoint parseFloat (v : value) : jsnum :=
  match v with
  | VNum x => x
  | VStr s => parseFloat_str s
  | VArr (first :: _) => parseFloat first
  | _ => NaN
  end.

(** *** JSON.parse *)

Definition is_json_ws (c : ascii) : bool :=
  let n := nat_of_ascii c in
  ((n =? 32) || (n =? 9) || (n =? 10) || (n =? 13))%nat.

Fixpoint skip_ws (s : string) : string :=
  match s with
  | EmptyString => EmptyString
  | String c s' => if is_json_ws c then skip_ws s' else s
  end.

(** The character an escape [\e] stands for ([\u] apart). *)
Definition unescape (e : ascii) : option ascii :=
  if Ascii.eqb e dquote then Some dquote
  else if Ascii.eqb e "\" then Some "\"%char
  else if Ascii.eqb e "/" then Some "/"%char
  else if Ascii.eqb e "b" then Some (ascii_of_nat 8)
  else if Ascii.eqb e "f" then Some (ascii_of_nat 12)
  else if Ascii.eqb e "n" then Some (ascii_of_nat 10)
  else if Ascii.eqb e "r" then Some (ascii_of_nat 13)
  else if Ascii.eqb e "t" then Some (ascii_of_nat 9)
  else None.

(** The code unit [\uh1h2h3h4]; one from 256 on lies outside the strings of
    the model and is held as a question mark. *)
Definition unicode_escape (h1 h2 h3 h4 : ascii) : option ascii :=
  match digit_of 16 h1, digit_of 16 h2, digit_of 16 h3, digit_of 16 h4 with
  | Some a, Some b, Some c, Some d =>
      let n := ((a * 16 + b) * 16 + c) * 16 + d in
      Some (if n <? 256 then ascii_of_nat (Z.to_nat n) else "?"%char)
  | _, _, _, _ => None
  end.

Definition cons_str (c : ascii) (r : option (string * string))
  : option (string * string) :=
  match r with
  | Some (body, rest) => Some (String c body, rest)
  | None => None
  end.

(** A string literal after its opening quote: its content and what follows
    the closing quote. *)
Fixpoint read_string (s : string) : option (string * string) :=
  match s with
  | EmptyString => None
  | String c s' =>
      if Ascii.eqb c dquote then Some (EmptyString, s')
      else if Ascii.eqb c "\" then
        match s' with
        | EmptyString => None
        | String e s'' =>
            if Ascii.eqb e "u" then
              match s'' with
              | String h1 (String h2 (String h3 (String h4 r))) =>
                  match unicode_escape h1 h2 h3 h4 with
                  | Some ch => cons_str ch (read_string r)
                  | None => None
                  end
              | _ => None
              end
            else
              match unescape e with
              | Some ch => cons_str ch (read_string s'')
              | None => None
              end
        end
      else if (nat_of_ascii c <? 32)%nat then None
      else cons_str c (read_string s')
  end.

(** The fraction of a JSON number: a point and at least one digit, or
    nothing. *)
Definition read_fraction (s : string) : option (Z * nat * string) :=
  match s with
  | String c s' =>
      if Ascii.eqb c "." then
        let '(frac, nf, rest) := read_digits 10 s' 0 O in
        if (nf =? 0)%nat then None else Some (frac, nf, rest)
      else Some (0, O, s)
  | EmptyString => Some (0, O, s)
  end.

(** The exponent of a JSON number: e or E, an optional sign and at least one
    digit, or nothing. *)
Definition read_json_exponent (s : string) : option (Z * string) :=
  match s with
  | String c s' =>
      if is_e c then
        let '(eneg, s1) := read_sign s' in
        let '(e, ne, rest) := read_digits 10 s1 0 O in
        if (ne =? 0)%nat then None
        else Some (if eneg then - e else e, rest)
      else Some (0, s)
  | EmptyString => Some (0, s)
  end.

(** An optional minus. *)
Definition read_minus (s : string) : bool * string :=
  match s with
  | String c s' => if Ascii.eqb c "-" then (true, s') else (false, s)
  | EmptyString => (false, s)
  end.

(** A number literal of the JSON grammar at the head of [s]: a minus, an
    integer part without leading zero, a fraction, an exponent. *)
Definition read_number (s : string) : option (jsnum * string) :=
  let '(neg, s1) := read_minus s in
  let '(int, ni, s2) := read_digits 10 s1 0 O in
  if (ni =? 0)%nat || ((1 <? ni)%nat && startsWith "0" s1) then None
  else
    match read_fraction s2 with
    | None => None
    | Some (frac, nf, s3) =>
        match read_json_exponent s3 with
        | None => None
        | Some (e, rest) =>
            Some (mkNum (signed neg (decimal int frac nf e)), rest)
        end
    end.

Inductive presult (A : Type) : Type :=
| POk (a : A) (rest : string)
| PErr
| PFuel.
Arguments POk {A} a rest.
Arguments PErr {A}.
Arguments PFuel {A}.

(** One JSON value at the head of [s]; [parse_elements] reads the elements
    of an array after its opening bracket, [parse_members] the members of an
    object after its opening brace, on top of what [acc] holds.  A key given
    twice keeps its last value.  Each call uses up one unit of [fuel]; twice
    the length of the text, and two, is always enough
    ([parse_value_enough_fuel]). *)
Fixpoint parse_value (fuel : nat) (s : string) : presult value :=
  match fuel with
  | O => PFuel
  | S f =>
      match s with
      | EmptyString => PErr
      | String c s' =>
          if Ascii.eqb c "[" then
            match skip_ws s' with
            | EmptyString => PErr
            | String d r =>
                if Ascii.eqb d "]" then POk (VArr []) r
                else parse_elements f (String d r) []
            end
          else if Ascii.eqb c "{" then
            match skip_ws s' with
            | EmptyString => PErr
            | String d r =>
                if Ascii.eqb d "}" then POk (VObj []) r
                else parse_members f (String d r) []
            end
          else if Ascii.eqb c dquote then
            match read_string s' with
            | Some (str, r) => POk (VStr str) r
            | None => PErr
            end
          else if startsWith "true" s then POk (VBool true) (drop_str 4 s)
          else if startsWith "false" s then POk (VBool false) (drop_str 5 s)
          else if startsWith "null" s then POk VNull (drop_str 4 s)
          else
            match read_number s with
            | Some (x, r) => POk (VNum x) r
            | None => PErr
            end
      end
  end

with parse_elements (fuel : nat) (s : string) (acc : list value)
  : presult value :=
  match fuel with
  | O => PFuel
  | S f =>
      match parse_value f s with
      | POk v s2 =>
          match skip_ws s2 with
          | EmptyString => PErr
          | String d s3 =>
              if Ascii.eqb d "," then parse_elements f (skip_ws s3) (acc ++ [v])
              else if Ascii.eqb d "]" then POk (VArr (acc ++ [v])) s3
              else PErr
          end
      | PErr => PErr
      | PFuel => PFuel
      end
  end

with parse_members (fuel : nat) (s : string) (acc : list (string * value))
  : presult value :=
  match fuel with
  | O => PFuel
  | S f =>
      match s with
      | EmptyString => PErr
      | String q s2 =>
          if Ascii.eqb q dquote then
            match read_string s2 with
            | None => PErr
            | Some (k, s3) =>
                match skip_ws s3 with
                | EmptyString => PErr
                | String colon s4 =>
                    if Ascii.eqb colon ":" then
                      match parse_value f (skip_ws s4) with
                      | POk v s5 =>
                          match skip_ws s5 with
                          | EmptyString => PErr
                          | String d s6 =>
                              if Ascii.eqb d "," then
                                parse_members f (skip_ws s6) (obj_set k v acc)
                              else if Ascii.eqb d "}" then
                                POk (VObj (obj_set k v acc)) s6
                              else PErr
                          end
                      | PErr => PErr
                      | PFuel => PFuel
                      end
                    else PErr
                end
            end
          else PErr
      end
  end.

(** [JSON.parse(text)]: a value, or a thrown SyntaxError. *)
Definition JSON_parse (text : string) : outcome value :=
  match parse_value (2 * len text + 2) (skip_ws text) with
  | POk v rest =>
      if is_empty (skip_ws rest) then Return v
      else Throw "Unexpected non-whitespace character after JSON"
  | PErr => Throw "Unexpected token in JSON"
  | PFuel => Throw "Unexpected token in JSON"
  end.

End JS.

Import JS.

(* ===================================================================== *)
(** ** The outside world and the monad of awaiting code *)
(* ===================================================================== *)

(** What the cheerio queries of [scrapeWebsite] find in a fetched document. *)
Record page : Type := {
  title_text : string;              (* $('title').text() *)
  og_title : option string;         (* meta[property=og:title] content *)
  h1_text : string;                 (* $('h1').first().text() *)
  meta_description : option string; (* meta[name=description] content *)
  og_description : option string;   (* meta[property=og:description] content *)
  body_text : string;               (* $('body').text() *)
  heading_texts : list string       (* text of each h1, h2, h3, in order *)
}.

(** The prompts, by the template and the values put into it. *)
Inductive prompt : Type :=
| AnalysisPrompt (topic name industry location size description content : string)
| TopicRelationPrompt (websiteUrl topic content : string)
| FilterPostsPrompt (topic : string) (chunk : list (value * value)).

Record request : Type := {
  rq_provider : string;
  rq_flexible : bool;     (* sent by callAIFlexible rather than callAI *)
  rq_prompt : prompt
}.

(** How a request to the outside ends: with an answer, or with a failure
    (network error, timeout, status of 400 or more, oversize or malformed
    body) that the caller sees as a thrown error. *)
Inductive reply (A : Type) : Type :=
| Answer (a : A)
| Failure (message : string).
Arguments Answer {A} a.
Arguments Failure {A} message.

Definition settle {A : Type} (r : reply A) : outcome A :=
  match r with
  | Answer a => Return a
  | Failure e => Throw e
  end.

Record env : Type := {
  apiKey : option string;   (* OPENAI_API_KEY || ANTHROPIC_API_KEY *)
  provider : string;        (* AI_PROVIDER || 'openai' *)
  http_get : nat -> string -> reply page;
  ai_post : nat -> request -> reply string;
  now : nat -> string       (* new Date().toISOString() *)
}.

(** The requests made so far, oldest first. *)
Record log : Type := {
  gets : list string;
  posts : list request
}.

Definition no_requests : log := {| gets := []; posts := [] |}.

Definition M (A : Type) : Type := log -> outcome A * log.

#[export] Instance M_ret : MRet M := fun A a l => (Return a, l).
#[export] Instance M_bind : MBind M := fun A B f m l =>
  match m l with
  | (Return a, l') => f a l'
  | (Throw e, l') => (Throw e, l')
  | (Diverge, l') => (Diverge, l')
  end.

Definition throw {A : Type} (message : string) : M A :=
  fun l => (Throw message, l).

Definition diverge {A : Type} : M A := fun l => (Diverge, l).

Definition lift {A : Type} (o : outcome A) : M A := fun l => (o, l).

(** [try { body } catch (error) { handler(error.message) }] *)
Definition try_catch {A : Type} (body : M A) (handler : string -> M A) : M A :=
  fun l =>
    match body l with
    | (Throw e, l') => handler e l'
    | r => r
    end.

(** [Promise.allSettled(tasks)]: every task runs, and how each ended is
    kept.  The tasks of one window are run one after the other, in order. *)
Fixpoint allSettled {A : Type} (tasks : list (M A)) : M (list (outcome A)) :=
  match tasks with
  | [] => mret []
  | t :: rest =>
      fun l =>
        match t l with
        | (Diverge, l') => (Diverge, l')
        | (o, l') => (rs <- allSettled rest ;; mret (o :: rs)) l'
        end
  end.

(** The first error among settled tasks, if any; else their values. *)
Fixpoint first_rejection {A : Type} (os : list (outcome A)) : outcome (list A) :=
  match os with
  | [] => Return []
  | Return a :: rest => rs <- first_rejection rest ;; Return (a :: rs)
  | Throw e :: _ => Throw e
  | Diverge :: _ => Diverge
  end.

(** [Promise.all(tasks)]: every task runs; the values in the order of the
    tasks, or the first rejection. *)
Definition promise_all {A : Type} (tasks : list (M A)) : M (list A) :=
  os <- allSettled tasks ;; lift (first_rejection os).

Section World.
Variable w : env.

(** [axios.get(url, ...)] and the document cheerio loads from it. *)
Definition axios_get (url : string) : M page :=
  fun l =>
    (settle (http_get w (length (gets l)) url),
     {| gets := gets l ++ [url]; posts := posts l |}).

(** [axios.post] to the provider and the text of its answer. *)
Definition axios_post (rq : request) : M string :=
  fun l =>
    (settle (ai_post w (length (posts l)) rq),
     {| gets := gets l; posts := posts l ++ [rq] |}).

Definition toISOString_now : M string :=
  fun l => (Return (now w (length (gets l))), l).

End World.

(* ===================================================================== *)
(** ** WebsiteScraperService *)
(* ===================================================================== *)

(** What [scrapeWebsite] returns on success. *)
Record scraped : Type := {
  sc_url : string;
  sc_title : string;
  sc_description : string;
  sc_headings : string;
  sc_content : string;
  sc_scrapedAt : string
}.

(** [s.replace(/\s+/g, ' ')] *)
Fixpoint collapse_ws (s : string) : string :=
  match s with
  | EmptyString => EmptyString
  | String c s' =>
      if is_ws c then
        match s' with
        | String d _ =>
            if is_ws d then collapse_ws s' else String " " (collapse_ws s')
        | EmptyString => String " " EmptyString
        end
      else String c (collapse_ws s')
  end.

Definition or_empty (s : option string) : string :=
  match s with
  | Some t => t
  | None => EmptyString
  end.

(** The loop over [$('h1, h2, h3')]: the first ten non-empty texts. *)
Definition collect_headings (texts : list string) : list string :=
  take 10 (List.filter (fun t => negb (is_empty t)) (map trim texts)).

Section Scraper.
Variable w : env.

Definition scrapeWebsite (url : string) : M (option scraped) :=
  if is_empty url || negb (startsWith "http" url) then mret None
  else
    try_catch
      (doc <- axios_get w url ;;
       let title :=
         or_empty (or_str (or_str (Some (trim (title_text doc))) (og_title doc))
                          (Some (trim (h1_text doc)))) in
       let description :=
         or_empty (or_str (meta_description doc) (og_description doc)) in
       let bodyText := substring 0 5000 (trim (collapse_ws (body_text doc))) in
       let headings := collect_headings (heading_texts doc) in
       stamp <- toISOString_now w ;;
       mret (Some {| sc_url := url;
                     sc_title := title;
                     sc_description := description;
                     sc_headings := join " | " headings;
                     sc_content := bodyText;
                     sc_scrapedAt := stamp |}))
      (fun _ => mret None).

(** [arr.slice(i, j)] *)
Definition slice {A : Type} (i j : nat) (l : list A) : list A :=
  take (j - i) (drop i l).

(** The values of the fulfilled tasks that are truthy. *)
Definition fulfilled_values {A : Type} (os : list (outcome (option A))) : list A :=
  omap (fun o => match o with Return (Some a) => Some a | _ => None end) os.

(** The loop [for (let i = 0; i < urls.length; i += concurrency)] of
    [scrapeMultiple], entered at index [i] with the results so far. *)
Fixpoint scrape_from (fuel : nat) (urls : list string) (concurrency i : nat)
    (results : list scraped) : M (list scraped) :=
  if (length urls <=? i)%nat then mret results
  else
    match fuel with
    | O => diverge
    | S fuel' =>
        let batch := slice i (i + concurrency) urls in
        batchResults <- allSettled (map scrapeWebsite batch) ;;
        scrape_from fuel' urls concurrency (i + concurrency)
          (results ++ fulfilled_values batchResults)
    end.

Definition scrapeMultiple (urls : list string) (concurrency : nat)
  : M (list scraped) :=
  scrape_from (length urls) urls concurrency 0 [].

End Scraper.

Definition sep2 : string := String nl (String nl EmptyString).

(** [extractTextForAnalysis(scrapedData)]; [None] is a falsy argument. *)
Definition extractTextForAnalysis (scrapedData : option scraped) : string :=
  match scrapedData with
  | None => EmptyString
  | Some d =>
      let parts :=
        [ "Title: " +:+ sc_title d;
          "Description: " +:+ sc_description d;
          "Key Sections: " +:+ sc_headings d;
          "Content: " +:+ substring 0 2000 (sc_content d) ] in
      join sep2 (List.filter (fun p => (10 <? len p)%nat) parts)
  end.

(* ===================================================================== *)
(** ** CompanyAnalysisService *)
(* ===================================================================== *)

(** The analysis object of the graded mode.  [isRelevant] is [true],
    [false] or [null]; the two objects returned on failure have no
    [keyMatches] and no [concerns]. *)
Record verdict : Type := {
  isRelevant : option bool;
  confidence : jsnum;
  score : jsnum;
  reasoning : value;
  keyMatches : value;
  concerns : value
}.

(** A lead or company object: the fields the services and the controller
    read or write, typed as the data model types them.  [None] is a field
    that is [undefined] or [null].  A lead whose [websiteContent] is truthy
    and no string is outside the model: on it [buildAnalysisPrompt] throws,
    at [substring], before the [try] of the graded analysis. *)
Record lead : Type := {
  name : option string;
  companyName : option string;
  industry : option string;
  location : option string;
  estimated_num_employees : option string;
  short_description : option string;
  website : option string;
  website_url : option string;
  domain : option string;
  websiteContent : option string;
  websiteScraped : option bool;
  scrapedAt : option string;
  aiAnalysis : option verdict;
  relevanceScore : option jsnum
}.

(** A social post: [id] and the three fields its text is looked for in. *)
Record post : Type := {
  post_id : value;
  post_caption : value;
  post_text : value;
  post_content : value
}.

(** [s || fallback] for a field that may be absent *)
Definition or_default (s : option string) (fallback : string) : string :=
  match or_str s None with
  | Some t => t
  | None => fallback
  end.

Definition buildAnalysisPrompt (company : lead) (content : string)
    (topic : string) : prompt :=
  AnalysisPrompt topic
    (or_default (name company) "Unknown")
    (or_default (industry company) "Unknown")
    (or_default (location company) "Unknown")
    (or_default (estimated_num_employees company) "Unknown")
    (or_default (short_description company) "N/A")
    (if is_empty content then "No website content available"
     else substring 0 3000 content).

(** [v === true] *)
Definition is_true (v : value) : bool :=
  match v with
  | VBool true => true
  | _ => false
  end.

Definition parse_failure : verdict :=
  {| isRelevant := None;
     confidence := zero;
     reasoning := VStr "Failed to parse AI response";
     score := zero;
     keyMatches := VUndef;
     concerns := VUndef |}.

Definition parseAnalysisResponse (response : string) : outcome verdict :=
  catch
    (parsed <- JSON_parse response ;;
     p_isRelevant <- get parsed "isRelevant" ;;
     p_confidence <- get parsed "confidence" ;;
     p_score <- get parsed "score" ;;
     p_reasoning <- get parsed "reasoning" ;;
     p_keyMatches <- get parsed "keyMatches" ;;
     p_concerns <- get parsed "concerns" ;;
     Return {| isRelevant := Some (is_true p_isRelevant);
               confidence := or_zero (parseInt p_confidence);
               score := or_zero (parseFloat p_score);
               reasoning := or_val p_reasoning (VStr EmptyString);
               keyMatches := or_val p_keyMatches (VArr []);
               concerns := or_val p_concerns (VArr []) |})
    (fun _ => Return parse_failure).

Definition not_configured : verdict :=
  {| isRelevant := None;
     confidence := zero;
     reasoning := VStr "AI analysis not configured";
     score := zero;
     keyMatches := VUndef;
     concerns := VUndef |}.

Definition analysis_failed (message : string) : verdict :=
  {| isRelevant := None;
     confidence := zero;
     reasoning := VStr ("Analysis failed: " +:+ message);
     score := zero;
     keyMatches := VUndef;
     concerns := VUndef |}.

(** [a.index - b.index] and the like, on array indices *)
Definition index_diff (a b : nat) : jsnum :=
  Fin (inject_Z (Z.of_nat a - Z.of_nat b)).

(** [undefined] as a number is NaN *)
Definition to_number (x : option jsnum) : jsnum :=
  match x with
  | Some n => n
  | None => NaN
  end.

(** One result of [processCompany]. *)
Record match_result : Type := {
  mr_company : lead;
  mr_index : nat;
  isRelated : option bool
}.

(** [Set.prototype.has] compares with SameValueZero: primitives by value,
    objects and arrays by identity, and a parsed array or object is a new
    one, identical to nothing that was there before. *)
Definition same_value_zero (a b : value) : bool :=
  match a, b with
  | VUndef, VUndef | VNull, VNull => true
  | VBool x, VBool y => Bool.eqb x y
  | VStr x, VStr y => String.eqb x y
  | VNum NaN, VNum NaN | VNum PInf, VNum PInf | VNum NInf, VNum NInf => true
  | VNum (Fin x), VNum (Fin y) => Qeq_bool x y
  | _, _ => false
  end.

Definition set_has (ids : list value) (id : value) : bool :=
  existsb (same_value_zero id) ids.

Definition set_add (ids : list value) (id : value) : list value :=
  if set_has ids id then ids else ids ++ [id].

Section Analysis.
Variable w : env.

Definition callAI (p : prompt) : M string :=
  if String.eqb (provider w) "openai" then
    axios_post w {| rq_provider := "openai"; rq_flexible := false; rq_prompt := p |}
  else if String.eqb (provider w) "anthropic" then
    axios_post w {| rq_provider := "anthropic"; rq_flexible := false; rq_prompt := p |}
  else throw "Unsupported AI provider".

Definition callAIFlexible (p : prompt) : M string :=
  if String.eqb (provider w) "openai" then
    axios_post w {| rq_provider := "openai"; rq_flexible := true; rq_prompt := p |}
  else if String.eqb (provider w) "anthropic" then
    axios_post w {| rq_provider := "anthropic"; rq_flexible := true; rq_prompt := p |}
  else throw "Unsupported AI provider".

Definition analyzeCompanyRelevance (company : lead) (content : string)
    (topic : string) : M verdict :=
  if negb (truthy_str (apiKey w)) then mret not_configured
  else
    let p := buildAnalysisPrompt company content topic in
    try_catch
      (response <- callAI p ;; lift (parseAnalysisResponse response))
      (fun message => mret (analysis_failed message)).

(** The loop of [analyzeCompanies]: one analysis after the other. *)
Fixpoint analyze_each (companies : list lead) (topic : string) : M (list lead) :=
  match companies with
  | [] => mret []
  | company :: rest =>
      analysis <- analyzeCompanyRelevance company
                    (or_default (websiteContent company) EmptyString) topic ;;
      let result :=
        {| name := name company;
           companyName := companyName company;
           industry := industry company;
           location := location company;
           estimated_num_employees := estimated_num_employees company;
           short_description := short_description company;
           website := website company;
           website_url := website_url company;
           domain := domain company;
           websiteContent := websiteContent company;
           websiteScraped := websiteScraped company;
           scrapedAt := scrapedAt company;
           aiAnalysis := Some analysis;
           relevanceScore := Some (score analysis) |} in
      results <- analyze_each rest topic ;;
      mret (result :: results)
  end.

Definition analyzeCompanies (companies : list lead) (topic : string)
  : M (list lead) :=
  results <- analyze_each companies topic ;;
  mret (sort (fun a b => sub (to_number (relevanceScore b))
                             (to_number (relevanceScore a))) results).

Definition checkCompanyTopicRelation (websiteUrl websiteContent topic : string)
  : M bool :=
  if is_empty websiteContent || is_empty (trim websiteContent) then mret false
  else
    let maxLength := 3000%nat in
    let content :=
      if (maxLength <? len websiteContent)%nat
      then substring 0 maxLength websiteContent +:+ "..."
      else websiteContent in
    try_catch
      (response <- callAIFlexible (TopicRelationPrompt websiteUrl topic content) ;;
       let answer := toUpperCase (trim response) in
       mret (includes "YES" answer))
      (fun _ => mret false).

Definition processCompany (topic : string) (company : lead) (index : nat)
  : M match_result :=
  let websiteUrl :=
    or_str (or_str (website company) (website_url company)) (domain company) in
  if negb (truthy_str websiteUrl) then
    mret {| mr_company := company; mr_index := index; isRelated := None |}
  else
    let fullUrl :=
      if negb (startsWith "http://" (or_empty websiteUrl)) &&
         negb (startsWith "https://" (or_empty websiteUrl))
      then "https://" +:+ or_empty websiteUrl
      else or_empty websiteUrl in
    try_catch
      (page <- scrapeWebsite w fullUrl ;;
       match page with
       | None =>
           mret {| mr_company := company; mr_index := index; isRelated := None |}
       | Some _ =>
           let content := extractTextForAnalysis page in
           related <- checkCompanyTopicRelation fullUrl content topic ;;
           mret {| mr_company := company; mr_index := index;
                   isRelated := Some related |}
       end)
      (fun _ =>
         mret {| mr_company := company; mr_index := index; isRelated := None |}).

(** The loop [for (let i = 0; i < companies.length; i += maxConcurrent)]
    of [filterCompaniesByTopicParallel], entered at index [i]. *)
Fixpoint process_from (fuel : nat) (topic : string) (companies : list lead)
    (maxConcurrent i : nat) (results : list match_result)
  : M (list match_result) :=
  if (length companies <=? i)%nat then mret results
  else
    match fuel with
    | O => diverge
    | S fuel' =>
        let batch := slice i (i + maxConcurrent) companies in
        batchResults <-
          promise_all (imap (fun batchIndex company =>
                               processCompany topic company (i + batchIndex))
                            batch) ;;
        process_from fuel' topic companies maxConcurrent (i + maxConcurrent)
          (results ++ batchResults)
    end.

Definition filterCompaniesByTopicParallel (companies : list lead)
    (topic : string) (maxConcurrent : nat) : M (list lead) :=
  match companies with
  | [] => mret []
  | _ =>
      results <- process_from (length companies) topic companies maxConcurrent 0 [] ;;
      mret (map mr_company
              (List.filter (fun r => match isRelated r with
                                     | Some true => true
                                     | _ => false
                                     end)
                 (sort (fun a b => index_diff (mr_index a) (mr_index b)) results)))
  end.

(** [post.caption || post.text || post.content || ''] *)
Definition post_body (p : post) : value :=
  or_val (or_val (or_val (post_caption p) (post_text p)) (post_content p))
         (VStr EmptyString).

(** The body of the [try] in the loop of [filterPostsByTopic]: the ids found
    in one answer are added to the set. *)
Definition collect_ids (response : string) (relevantPostIds : list value)
  : outcome (list value) :=
  match indexOf "[" response, lastIndexOf "]" response with
  | Some startIndex, Some endIndex =>
      let jsonString := substring startIndex (endIndex + 1) response in
      ids <- JSON_parse jsonString ;;
      match ids with
      | VArr elems => Return (fold_left set_add elems relevantPostIds)
      | _ => Return relevantPostIds
      end
  | _, _ => Return relevantPostIds
  end.

(** The loop [for (let i = 0; i < posts.length; i += chunkSize)] of
    [filterPostsByTopic], entered at index [i]. *)
Fixpoint filter_from (fuel : nat) (topic : string) (items : list post)
    (chunkSize i : nat) (relevantPostIds : list value) : M (list value) :=
  if (length items <=? i)%nat then mret relevantPostIds
  else
    match fuel with
    | O => diverge
    | S fuel' =>
        let chunk := slice i (i + chunkSize) items in
        let simplifiedChunk := map (fun p => (post_id p, post_body p)) chunk in
        found <-
          try_catch
            (response <- callAIFlexible (FilterPostsPrompt topic simplifiedChunk) ;;
             lift (collect_ids response relevantPostIds))
            (fun _ => mret relevantPostIds) ;;
        filter_from fuel' topic items chunkSize (i + chunkSize) found
    end.

(** [filterPostsByTopic(posts, topic, chunkSize)]; [None] is a [posts]
    that is [null] or [undefined]. *)
Definition filterPostsByTopic (items : option (list post)) (topic : string)
    (chunkSize : nat) : M (list post) :=
  match items with
  | None => mret []
  | Some l =>
      if negb (truthy_str (apiKey w)) || (length l =? 0)%nat then mret l
      else
        relevantPostIds <- filter_from (length l) topic l chunkSize 0 [] ;;
        mret (List.filter (fun p => set_has relevantPostIds (post_id p)) l)
  end.

End Analysis.

(* ===================================================================== *)
(** ** LeadEnrichmentController *)
(* ===================================================================== *)

(** The body of a request to [POST /enrich].  [b_leads] is [None] when
    [leads] is missing or is no array; a [value] field is [VUndef] when the
    body does not have it. *)
Record enrich_body : Type := {
  b_leads : option (list lead);
  b_topic : option string;
  b_icp_description : option string;
  b_min_relevance_score : value;
  b_enable_website_scraping : value;
  b_enable_ai_analysis : value
}.

Record metadata : Type := {
  total_input : nat;
  total_processed : nat;
  total_enriched : nat;
  website_scraping_enabled : value;
  ai_analysis_enabled : value;
  md_min_relevance_score : jsnum;
  md_topic : string
}.

Inductive response : Type :=
| Status400 (error message : string)
| Success (data : list lead) (md : metadata)
| Status500 (error message : string).

(** The default of a destructured field: [{ field = d } = req.body] *)
Definition with_default (d v : value) : value :=
  match v with
  | VUndef => d
  | _ => v
  end.

(** [s.url === websiteUrl] *)
Definition url_is (websiteUrl : option string) (s : scraped) : bool :=
  match websiteUrl with
  | Some u => String.eqb (sc_url s) u
  | None => false
  end.

(** [{ ...lead, websiteContent, websiteScraped, scrapedAt }] *)
Definition with_scrape (l : lead) (found : option scraped) : lead :=
  {| name := name l;
     companyName := companyName l;
     industry := industry l;
     location := location l;
     estimated_num_employees := estimated_num_employees l;
     short_description := short_description l;
     website := website l;
     website_url := website_url l;
     domain := domain l;
     websiteContent :=
       match found with
       | Some _ => Some (extractTextForAnalysis found)
       | None => None
       end;
     websiteScraped := Some (match found with Some _ => true | None => false end);
     scrapedAt :=
       match found with
       | Some sc => or_str (Some (sc_scrapedAt sc)) None
       | None => None
       end;
     aiAnalysis := aiAnalysis l;
     relevanceScore := relevanceScore l |}.

(** One element of [batches] in the body of [POST /batch-enrich]: the
    parameters [enrichLeadsInternal] destructures, and [id].  [bt_leads] is
    [None] when [leads] cannot be spread: [undefined], [null], or another
    value that is not iterable. *)
Record batch_params : Type := {
  bt_id : value;
  bt_leads : option (list lead);
  bt_topic : option string;
  bt_min_relevance_score : value;
  bt_enable_website_scraping : value;
  bt_enable_ai_analysis : value
}.

(** What [enrichLeadsInternal] returns: [data] and the two counts of
    [metadata]. *)
Record internal_result : Type := {
  ir_data : list lead;
  ir_total_input : nat;
  ir_total_enriched : nat
}.

(** One element of the [results] of [batchEnrich]. *)
Inductive batch_result : Type :=
| BatchDone (batch_id : value) (result : internal_result)
| BatchFailed (batch_id : value) (error : string).

Record batch_summary : Type := {
  total_batches : nat;
  successful : nat;
  failed : nat
}.

Inductive batch_response : Type :=
| BatchStatus400 (error message : string)
| BatchSuccess (data : list batch_result) (summary : batch_summary)
| BatchStatus500 (error message : string).




(** [{ ...lead, websiteContent }], as [enrichLeadsInternal] builds it *)
Definition with_content (l : lead) (found : option scraped) : lead :=
  {| name := name l;
     companyName := companyName l;
     industry := industry l;
     location := location l;
     estimated_num_employees := estimated_num_employees l;
     short_description := short_description l;
     website := website l;
     website_url := website_url l;
     domain := domain l;
     websiteContent :=
       match found with
       | Some _ => Some (extractTextForAnalysis found)
       | None => None
       end;
     websiteScraped := websiteScraped l;
     scrapedAt := scrapedAt l;
     aiAnalysis := aiAnalysis l;
     relevanceScore := relevanceScore l |}.

(** [r.success] *)
Definition batch_ok (r : batch_result) : bool :=
  match r with
  | BatchDone _ _ => true
  | BatchFailed _ _ => false
  end.

Section Controller.
Variable w : env.

(** [lead.website || lead.domain || lead.website_url] *)
Definition lead_url (l : lead) : option string :=
  or_str (or_str (website l) (domain l)) (website_url l).

(** Step 1 of [enrichLeads]: website scraping, if enabled. *)
Definition scrape_step (enable_website_scraping : value)
    (enrichedLeads : list lead) : M (list lead) :=
  if truthy enable_website_scraping then
    let urls :=
      omap (fun l => if truthy_str (lead_url l) then lead_url l else None)
           enrichedLeads in
    if (0 <? length urls)%nat then
      scrapedData <- scrapeMultiple w urls 5 ;;
      mret (map (fun l =>
                   let websiteUrl := lead_url l in
                   with_scrape l (List.find (url_is websiteUrl) scrapedData))
                enrichedLeads)
    else mret enrichedLeads
  else mret enrichedLeads.

(** Step 2: AI analysis, if enabled. *)
Definition analysis_step (enable_ai_analysis : value) (targetTopic : string)
    (enrichedLeads : list lead) : M (list lead) :=
  if truthy enable_ai_analysis
  then analyzeCompanies w enrichedLeads targetTopic
  else mret enrichedLeads.

(** Step 3: filter by minimum relevance score. *)
Definition filter_step (enable_ai_analysis min_relevance_score : value)
    (enrichedLeads : list lead) : list lead :=
  List.filter
    (fun l => negb (truthy enable_ai_analysis) ||
              ge (or_zero (to_number (relevanceScore l)))
                 (parseFloat min_relevance_score))
    enrichedLeads.

(** Step 4: sort by relevance score, highest first. *)
Definition sort_step (filteredLeads : list lead) : list lead :=
  sort (fun a b => sub (or_zero (to_number (relevanceScore b)))
                       (or_zero (to_number (relevanceScore a))))
       filteredLeads.

Definition enrichLeads (body : enrich_body) : M response :=
  let min_relevance_score :=
    with_default (VNum (Fin 5)) (b_min_relevance_score body) in
  let enable_website_scraping :=
    with_default (VBool true) (b_enable_website_scraping body) in
  let enable_ai_analysis :=
    with_default (VBool true) (b_enable_ai_analysis body) in
  try_catch
    (match b_leads body with
     | None | Some [] =>
         mret (Status400 "Invalid request"
                 "leads array is required and must not be empty")
     | Some leads =>
         if negb (truthy_str (b_topic body)) &&
            negb (truthy_str (b_icp_description body))
         then
           mret (Status400 "Missing required field"
                   ("Either " +:+ quoted "topic" +:+ " or " +:+
                    quoted "icp_description" +:+ " is required for enrichment"))
         else
           let targetTopic :=
             or_empty (or_str (b_topic body) (b_icp_description body)) in
           let maxLeadsToProcess := Nat.min (length leads) 50 in
           let firstLeads := slice 0 maxLeadsToProcess leads in
           scrapedLeads <- scrape_step enable_website_scraping firstLeads ;;
           analyzedLeads <-
             analysis_step enable_ai_analysis targetTopic scrapedLeads ;;
           let filteredLeads :=
             sort_step (filter_step enable_ai_analysis min_relevance_score
                          analyzedLeads) in
           mret (Success filteredLeads
                   {| total_input := length leads;
                      total_processed := maxLeadsToProcess;
                      total_enriched := length filteredLeads;
                      website_scraping_enabled := enable_website_scraping;
                      ai_analysis_enabled := enable_ai_analysis;
                      md_min_relevance_score := parseFloat min_relevance_score;
                      md_topic := targetTopic |})
     end)
    (fun message => mret (Status500 "Enrichment failed" message)).


(** [lead.website || lead.domain], the URL [enrichLeadsInternal] reads *)
Definition internal_url (l : lead) : option string :=
  or_str (website l) (domain l).

(** [enrichLeadsInternal(params)].  Spreading a [leads] that is not
    iterable throws a TypeError, whose text is the engine's. *)
Definition enrichLeadsInternal (params : batch_params) : M internal_result :=
  let min_relevance_score :=
    with_default (VNum (Fin 5)) (bt_min_relevance_score params) in
  let enable_website_scraping :=
    with_default (VBool true) (bt_enable_website_scraping params) in
  let enable_ai_analysis :=
    with_default (VBool true) (bt_enable_ai_analysis params) in
  match bt_leads params with
  | None => throw "leads is not iterable"
  | Some leads =>
      scrapedLeads <-
        (if truthy enable_website_scraping then
           let urls :=
             omap (fun l => if truthy_str (internal_url l)
                            then internal_url l else None) leads in
           if (0 <? length urls)%nat then
             scrapedData <- scrapeMultiple w urls 3 ;;
             mret (map (fun l =>
                          with_content l
                            (List.find (url_is (internal_url l)) scrapedData))
                       leads)
           else mret leads
         else mret leads) ;;
      analyzedLeads <-
        (if truthy enable_ai_analysis && truthy_str (bt_topic params)
         then analyzeCompanies w scrapedLeads (or_empty (bt_topic params))
         else mret scrapedLeads) ;;
      let filteredLeads :=
        filter_step enable_ai_analysis min_relevance_score analyzedLeads in
      mret {| ir_data := filteredLeads;
              ir_total_input := length leads;
              ir_total_enriched := length filteredLeads |}
  end.

(** [batch.id || results.length + 1] *)
Definition batch_id_of (b : batch_params) (results : list batch_result) : value :=
  or_val (bt_id b) (VNum (Fin (inject_Z (Z.of_nat (length results) + 1)))).

(** The loop [for (const batch of batches)] of [batchEnrich].  [bound]
    tells whether [this] is the controller; where it is [undefined],
    reading [this.enrichLeadsInternal] throws a TypeError, inside the
    [try]. *)
Fixpoint enrich_batches (bound : bool) (batches : list batch_params)
    (results : list batch_result) : M (list batch_result) :=
  match batches with
  | [] => mret results
  | b :: rest =>
      r <- try_catch
             (enrichResult <-
                (if bound then enrichLeadsInternal b
                 else throw
                   "Cannot read properties of undefined (reading 'enrichLeadsInternal')") ;;
              mret (BatchDone (batch_id_of b results) enrichResult))
             (fun message => mret (BatchFailed (batch_id_of b results) message)) ;;
      enrich_batches bound rest (results ++ [r])
  end.

(** [batchEnrich(req, res)]; [None] is a [batches] that is missing or is no
    array. *)
Definition batchEnrich (bound : bool) (batches : option (list batch_params))
  : M batch_response :=
  try_catch
    (match batches with
     | None => mret (BatchStatus400 "Invalid request" "batches array is required")
     | Some bs =>
         results <- enrich_batches bound bs [] ;;
         let successCount := length (List.filter batch_ok results) in
         mret (BatchSuccess results
                 {| total_batches := length bs;
                    successful := successCount;
                    failed := length bs - successCount |})
     end)
    (fun message => mret (BatchStatus500 "Batch enrichment failed" message)).

(** The handler as the router registers it,
    [router.post('/batch-enrich', ..., LeadEnrichmentController.batchEnrich)]:
    the method is handed over without its object, so that [this] is
    [undefined] when the request comes. *)
Definition batch_enrich_route (batches : option (list batch_params)) : M batch_response :=
  batchEnrich false batches.

End Controller.

(* ===================================================================== *)
(** ** WebsiteAnalysisCache *)
(* ===================================================================== *)

Module Cache.

(** Modelled from the spec: the definition of the table
    [website_analysis_cache] is not among the sources.  Its rows are keyed by
    (domain, topic), the conflict target of the upsert, and [created_at] is
    filled with the time of the insert, the age the freshness window of the
    spec is measured from.  Times are in microseconds. *)
Record row : Type := {
  analysis_data : value;
  relevance_score : jsnum;
  hit_count : Z;
  created_at : Z;
  updated_at : Z;
  last_accessed_at : Z
}.

Definition days (n : Z) : Z := n * 86400 * 1000000.

(** [INSERT ... ON CONFLICT (domain, topic) DO UPDATE SET ... RETURNING *]
    run at time [current_timestamp]. *)
Definition upsert (current_timestamp : Z) (domain topic : string)
    (analysisData : value) (relevanceScore : jsnum)
    (table : gmap (string * string) row) : row * gmap (string * string) row :=
  let r :=
    match table !! (domain, topic) with
    | None =>
        {| analysis_data := analysisData;
           relevance_score := relevanceScore;
           hit_count := 1;
           created_at := current_timestamp;
           updated_at := current_timestamp;
           last_accessed_at := current_timestamp |}
    | Some old =>
        {| analysis_data := analysisData;
           relevance_score := relevanceScore;
           hit_count := hit_count old + 1;
           created_at := created_at old;
           updated_at := current_timestamp;
           last_accessed_at := current_timestamp |}
    end in
  (r, <[(domain, topic) := r]> table).

(** [findByDomain(domain, topic)] run at time [current_timestamp]: the
    selected row, or [None] for [null], and the table after the update of
    the access statistics. *)
Definition findByDomain (current_timestamp : Z) (domain topic : string)
    (table : gmap (string * string) row)
  : option row * gmap (string * string) row :=
  match table !! (domain, topic) with
  | Some r =>
      if current_timestamp - days 7 <? created_at r then
        (Some r,
         <[(domain, topic) :=
             {| analysis_data := analysis_data r;
                relevance_score := relevance_score r;
                hit_count := hit_count r + 1;
                created_at := created_at r;
                updated_at := updated_at r;
                last_accessed_at := current_timestamp |}]> table)
      else (None, table)
  | None => (None, table)
  end.

(** [pruneOldEntries(daysOld)] run at time [current_timestamp]: the number
    of rows deleted and the table without them. *)
Definition pruneOldEntries (current_timestamp : Z) (daysOld : Z)
    (table : gmap (string * string) row) : nat * gmap (string * string) row :=
  let kept :=
    filter (fun kr => ¬ (created_at (snd kr) < current_timestamp - days daysOld))
           table in
  ((size table - size kept)%nat, kept).

End Cache.

(* ===================================================================== *)
(** ** Definitions used to state the properties *)
(* ===================================================================== *)

(** The extractor as the specification words it: a labelled section is left
    out when its value has at most ten characters. *)
Definition extract_dropping_short_values (d : scraped) : string :=
  join sep2
    (map (fun lv => fst lv +:+ snd lv)
       (List.filter (fun lv => (10 <? len (snd lv))%nat)
          [ ("Title: ", sc_title d);
            ("Description: ", sc_description d);
            ("Key Sections: ", sc_headings d);
            ("Content: ", substring 0 2000 (sc_content d)) ])).

(** A scrape with a four-letter title, no description and no headings. *)
Definition acme_scrape : scraped :=
  {| sc_url := "https://acme.com";
     sc_title := "Acme";
     sc_description := EmptyString;
     sc_headings := EmptyString;
     sc_content := "Cloud hosting for teams";
     sc_scrapedAt := "2024-05-01T10:00:00.000Z" |}.




(** [parsed.k] where reading it does not throw. *)
Definition field_of (parsed : value) (k : string) : value :=
  match get parsed k with
  | Return x => x
  | _ => VUndef
  end.


(** The verdict that stands for "no signal". *)
Definition unknown_verdict (v : verdict) : Prop :=
  isRelevant v = None /\ score v = zero /\
  exists diagnostic, reasoning v = VStr diagnostic /\ diagnostic <> EmptyString.

(** The three ways the graded analysis gets no usable answer: no API key,
    a call that throws, an answer that [JSON.parse] rejects. *)
Inductive oracle_unavailable (w : env) (p : prompt) (l : log) : Prop :=
| no_credential :
    truthy_str (apiKey w) = false -> oracle_unavailable w p l
| call_failed (e : string) (l' : log) :
    callAI w p l = (Throw e, l') -> oracle_unavailable w p l
| not_json (r : string) (l' : log) :
    callAI w p l = (Return r, l') ->
    (forall parsed, JSON_parse r <> Return parsed) ->
    oracle_unavailable w p l.

(** A world whose sites all serve the same page and whose AI provider
    answers every call with [answer]. *)
Definition landing_page : page :=
  {| title_text := "Acme Cloud";
     og_title := None;
     h1_text := "Acme";
     meta_description := Some "Managed Kubernetes on AWS";
     og_description := None;
     body_text := "AWS  Kubernetes  DevOps";
     heading_texts := ["Products"; "Pricing"] |}.

Definition world_answering (key : option string) (answer : reply string) : env :=
  {| apiKey := key;
     provider := "openai";
     http_get := fun _ _ => Answer landing_page;
     ai_post := fun _ _ => answer;
     now := fun _ => "2024-05-01T10:00:00.000Z" |}.

Definition bare_lead (n : string) (site : option string) : lead :=
  {| name := Some n; companyName := None; industry := None; location := None;
     estimated_num_employees := None; short_description := None;
     website := site; website_url := None; domain := None;
     websiteContent := None; websiteScraped := None; scrapedAt := None;
     aiAnalysis := None; relevanceScore := None |}.

(** The response holds "yes" in some letter case: y or Y, then e or E, then
    s, S or the sharp s, which is a small letter whose capital is SS. *)
Definition says_yes (response : string) : Prop :=
  exists (pre : string) (a b c : ascii) (post : string),
    response = pre +:+ String a (String b (String c post)) /\
    (a = "y" \/ a = "Y")%char /\
    (b = "e" \/ b = "E")%char /\
    (c = "s" \/ c = "S" \/ c = sharp_s)%char.

Definition letter_y (c : ascii) : bool := Ascii.eqb c "y" || Ascii.eqb c "Y".
Definition letter_e (c : ascii) : bool := Ascii.eqb c "e" || Ascii.eqb c "E".
Definition letter_s (c : ascii) : bool :=
  Ascii.eqb c "s" || Ascii.eqb c "S" || Ascii.eqb c sharp_s.

(** [s] begins with one code unit of each class of [classes], in turn. *)
Fixpoint starts_like (classes : list (ascii -> bool)) (s : string) : bool :=
  match classes with
  | [] => true
  | p :: rest =>
      match s with
      | EmptyString => false
      | String c s' => p c && starts_like rest s'
      end
  end.

(** Somewhere in [s] there is one code unit of each class, in a row. *)
Fixpoint has_like (classes : list (ascii -> bool)) (s : string) : bool :=
  starts_like classes s ||
  match s with
  | EmptyString => false
  | String _ s' => has_like classes s'
  end.

(** [says_yes], decided *)
Definition has_yes (response : string) : bool :=
  has_like [letter_y; letter_e; letter_s] response.

(** The answer "yeß": y, e and the sharp s. *)
Definition yes_with_sharp_s : string :=
  String "y" (String "e" (String sharp_s EmptyString)).

(** The test [!websiteContent || !websiteContent.trim()] *)
Definition is_blank (content : string) : bool :=
  is_empty content || is_empty (trim content).

(** The prompt [checkCompanyTopicRelation] sends: the content is cut to 3000
    characters and marked with an ellipsis when it is longer. *)
Definition topic_prompt (websiteUrl content topic : string) : prompt :=
  TopicRelationPrompt websiteUrl topic
    (if (3000 <? len content)%nat
     then substring 0 3000 content +:+ "..."
     else content).

(** [company.website || company.website_url || company.domain] *)
Definition resolved_url (c : lead) : option string :=
  or_str (or_str (website c) (website_url c)) (domain c).

(** The URL [processCompany] hands to the scraper. *)
Definition full_url (c : lead) : string :=
  if negb (startsWith "http://" (or_empty (resolved_url c))) &&
     negb (startsWith "https://" (or_empty (resolved_url c)))
  then "https://" +:+ or_empty (resolved_url c)
  else or_empty (resolved_url c).

(** C5 as the specification words it: given [url], the Fetcher requests
    [https://url]. *)
Definition fetcher_prepends_https (w : env) (url : string) : Prop :=
  exists o l',
    scrapeWebsite w url no_requests = (o, l') /\
    gets l' = ["https://" +:+ url].

(** The units of work run one after the other, the first with index [i]:
    what the windows of a loop amount to. *)
Fixpoint run_each {A B : Type} (f : nat -> A -> M B) (items : list A) (i : nat)
  : M (list B) :=
  match items with
  | [] => mret []
  | a :: rest =>
      b <- f i a ;;
      bs <- run_each f rest (S i) ;;
      mret (b :: bs)
  end.

(** [processCompany] on each company in turn. *)
Definition run_companies (w : env) (topic : string) (companies : list lead)
  : M (list match_result) :=
  run_each (fun i c => processCompany w topic c i) companies 0.

(** [r.isRelated === true] *)
Definition is_yes (r : match_result) : bool :=
  match isRelated r with
  | Some true => true
  | _ => false
  end.

Definition text_post (id : Z) (text : string) : post :=
  {| post_id := VNum (Fin (inject_Z id));
     post_caption := VUndef;
     post_text := VStr text;
     post_content := VUndef |}.

Definition three_posts : list post :=
  [ text_post 1 "Excited to be at GDC in San Francisco this week!";
    text_post 2 "Just posted our Q3 earnings, great results!";
    text_post 3 "Packing my bags for the London sales meeting!" ].

(** The request with all but its first [n] leads left out. *)
Definition keep_first (n : nat) (body : enrich_body) : enrich_body :=
  {| b_leads := option_map (take n) (b_leads body);
     b_topic := b_topic body;
     b_icp_description := b_icp_description body;
     b_min_relevance_score := b_min_relevance_score body;
     b_enable_website_scraping := b_enable_website_scraping body;
     b_enable_ai_analysis := b_enable_ai_analysis body |}.

(** The response with [total_input] set to [n]. *)
Definition with_total_input (n : nat) (r : outcome response * log)
  : outcome response * log :=
  match r with
  | (Return (Success d m), l) =>
      (Return (Success d
         {| total_input := n;
            total_processed := total_processed m;
            total_enriched := total_enriched m;
            website_scraping_enabled := website_scraping_enabled m;
            ai_analysis_enabled := ai_analysis_enabled m;
            md_min_relevance_score := md_min_relevance_score m;
            md_topic := md_topic m |}), l)
  | _ => r
  end.

(** The lead has a relevance score, and it is a number. *)
Definition scored (l : lead) : Prop :=
  exists s, relevanceScore l = Some s /\ s <> NaN.

Definition plain_body (leads : list lead) (minimum : value) : enrich_body :=
  {| b_leads := Some leads;
     b_topic := Some "cloud infrastructure";
     b_icp_description := None;
     b_min_relevance_score := minimum;
     b_enable_website_scraping := VUndef;
     b_enable_ai_analysis := VUndef |}.

(** The answer [{"isRelevant": true, "confidence": 85, "score": 8.5}]. *)
Definition good_fit_response : string :=
  "{" +:+ quoted "isRelevant" +:+ ": true, " +:+ quoted "confidence" +:+
  ": 85, " +:+ quoted "score" +:+ ": 8.5}".

(** A row written eight days before the upsert of the failing run. *)
Definition stale_row : Cache.row :=
  {| Cache.analysis_data := VStr "first analysis";
     Cache.relevance_score := Fin (inject_Z 3);
     Cache.hit_count := 1;
     Cache.created_at := 0;
     Cache.updated_at := 0;
     Cache.last_accessed_at := 0 |}.

Definition stale_table : gmap (string * string) Cache.row :=
  {[ ("acme.com", "cloud infrastructure") := stale_row ]}.

(** [{ ...company, aiAnalysis: analysis, relevanceScore: analysis.score }] *)
Definition with_analysis (c : lead) (v : verdict) : lead :=
  {| name := name c;
     companyName := companyName c;
     industry := industry c;
     location := location c;
     estimated_num_employees := estimated_num_employees c;
     short_description := short_description c;
     website := website c;
     website_url := website_url c;
     domain := domain c;
     websiteContent := websiteContent c;
     websiteScraped := websiteScraped c;
     scrapedAt := scrapedAt c;
     aiAnalysis := Some v;
     relevanceScore := Some (score v) |}.

(** From the first to the last, [key] does not grow. *)
Definition descending {A : Type} (key : A -> jsnum) (l : list A) : Prop :=
  StronglySorted (fun a b => ge (key a) (key b) = true) l.

(** [lead.relevanceScore || 0], the key [enrichLeads] filters and sorts by *)
Definition score_or_zero (l : lead) : jsnum :=
  or_zero (to_number (relevanceScore l)).

(** The provider is one of the two the service knows. *)
Definition supported (w : env) : bool :=
  String.eqb (provider w) "openai" || String.eqb (provider w) "anthropic".


(** [company.website || company.website_url || company.domain] is truthy *)
Definition has_url (c : lead) : bool := truthy_str (resolved_url c).

(** The content of a binary-check prompt *)
Definition prompt_content (p : prompt) : string :=
  match p with
  | TopicRelationPrompt _ _ content => content
  | AnalysisPrompt _ _ _ _ _ _ content => content
  | FilterPostsPrompt _ _ => EmptyString
  end.

(** The request [callAIFlexible] makes for the prompt [p]. *)
Definition flexible_request (w : env) (p : prompt) : request :=
  {| rq_provider := provider w; rq_flexible := true; rq_prompt := p |}.

(** What the oracle answers to [p], asked when the requests made so far are
    [l]: nothing when the request fails, and nothing when the provider is
    not a known one, which is then not asked. *)
Definition oracle_says (w : env) (p : prompt) (l : log) : option string :=
  if supported w then
    match ai_post w (length (posts l)) (flexible_request w p) with
    | Answer response => Some response
    | Failure _ => None
    end
  else None.

(** The requests made once the oracle was asked [p]. *)
Definition asked (w : env) (p : prompt) (l : log) : log :=
  if supported w
  then {| gets := gets l; posts := posts l ++ [flexible_request w p] |}
  else l.

(** The verdict of the binary mode. *)
Inductive TopicMatch : Type := Yes | No | Unknown.

(** [isRelated] for a verdict *)
Definition related (v : TopicMatch) : option bool :=
  match v with
  | Yes => Some true
  | No => Some false
  | Unknown => None
  end.

(** The verdict on one company as the specification of the matcher words
    it, with the requests made after it: the URL is resolved, with
    [https://] put before it where it has no scheme, and fetched by the
    Fetcher; the text extracted from the page goes to the oracle, whose
    answer is a Yes when, upper-cased, it holds "YES", and a No otherwise or
    when the oracle fails.  Without URL, and when the fetch gives nothing,
    the verdict is Unknown. *)
Definition topic_match (w : env) (topic : string) (c : lead) (l : log)
  : TopicMatch * log :=
  if has_url c then
    match scrapeWebsite w (full_url c) l with
    | (Return (Some fetched), l1) =>
        let p := topic_prompt (full_url c)
                   (extractTextForAnalysis (Some fetched)) topic in
        (match oracle_says w p l1 with
         | Some response => if has_yes response then Yes else No
         | None => No
         end,
         asked w p l1)
    | (_, l1) => (Unknown, l1)
    end
  else (Unknown, l).

(** The verdicts on the companies, one after the other. *)
Fixpoint topic_matches (w : env) (topic : string) (cs : list lead) (l : log)
  : list (lead * TopicMatch) * log :=
  match cs with
  | [] => ([], l)
  | c :: rest =>
      let '(v, l1) := topic_match w topic c l in
      let '(vs, l') := topic_matches w topic rest l1 in
      ((c, v) :: vs, l')
  end.

Definition is_Yes (cv : lead * TopicMatch) : bool :=
  match snd cv with
  | Yes => true
  | _ => false
  end.

(** The companies whose verdict is Yes. *)
Definition matched (vs : list (lead * TopicMatch)) : list lead :=
  map fst (List.filter is_Yes vs).

(** Every request to the AI provider fails. *)
Definition oracle_down (w : env) : Prop :=
  forall n rq, exists e, ai_post w n rq = Failure e.

(** The number of chunks of [chunkSize] posts that [n] posts make. *)
Definition chunks (n chunkSize : nat) : nat := (n + chunkSize - 1) / chunkSize.

(** The switches and the threshold of a request to [POST /enrich], with
    their defaults. *)
Definition scraping_enabled (body : enrich_body) : bool :=
  truthy (with_default (VBool true) (b_enable_website_scraping body)).


Definition threshold (body : enrich_body) : jsnum :=
  parseFloat (with_default (VNum (Fin 5)) (b_min_relevance_score body)).

(** The request passes the two checks of [enrichLeads]. *)
Definition well_formed (body : enrich_body) : bool :=
  match b_leads body with
  | None | Some [] => false
  | Some _ => truthy_str (b_topic body) || truthy_str (b_icp_description body)
  end.

(** The lead has a URL, and it does not begin with "http". *)
Definition bare_domain (o : lead) : bool :=
  truthy_str (lead_url o) && negb (startsWith "http" (or_empty (lead_url o))).

(** The lead is marked as one whose site gave nothing. *)
Definition not_scraped (o : lead) : Prop :=
  websiteScraped o = Some false /\ websiteContent o = None /\ scrapedAt o = None.

(** No answer can be had from the AI provider: there is no API key, the
    provider is not a known one, or every request to it fails. *)
Definition oracle_out_of_reach (w : env) : Prop :=
  truthy_str (apiKey w) = false \/ supported w = false \/ oracle_down w.


(** [r.batch_id] *)
Definition batch_id (r : batch_result) : value :=
  match r with
  | BatchDone id _ => id
  | BatchFailed id _ => id
  end.

(** The id of the result of the batch at index [i]: [batch.id || i + 1] *)
Definition nth_batch_id (b : batch_params) (i : nat) : value :=
  or_val (bt_id b) (VNum (Fin (inject_Z (Z.of_nat i + 1)))).

(** How the entry of batch [b] in the results of [batchEnrich] looks: a
    batch whose leads cannot be spread is reported as failed, and a batch
    reported as done had leads, whose number it reports. *)
Definition batch_entry (b : batch_params) (r : batch_result) : Prop :=
  (bt_leads b = None -> batch_ok r = false) /\
  (forall id res,
     r = BatchDone id res ->
     exists leads,
       bt_leads b = Some leads /\
       ir_total_input res = length leads /\
       ir_total_enriched res = length (ir_data res)).


(** The row after a lookup at time [t] that found it fresh, and after one
    that did not. *)
Definition touched (t : Z) (r : Cache.row) : Cache.row :=
  if t - Cache.days 7 <? Cache.created_at r then
    {| Cache.analysis_data := Cache.analysis_data r;
       Cache.relevance_score := Cache.relevance_score r;
       Cache.hit_count := Cache.hit_count r + 1;
       Cache.created_at := Cache.created_at r;
       Cache.updated_at := Cache.updated_at r;
       Cache.last_accessed_at := t |}
  else r.

(** The time the row of a key was first written, [t] if it has none yet. *)
Definition first_written (table : gmap (string * string) Cache.row)
    (domain topic : string) (t : Z) : Z :=
  match table !! (domain, topic) with
  | Some old => Cache.created_at old
  | None => t
  end.

(** A world like [world_answering], with an API key and the provider
    named. *)
Definition world_of_provider (name : string) (answer : reply string) : env :=
  {| apiKey := Some "sk-test";
     provider := name;
     http_get := fun _ _ => Answer landing_page;
     ai_post := fun _ _ => answer;
     now := fun _ => "2024-05-01T10:00:00.000Z" |}.

(* ===================================================================== *)
(** ** Properties *)
(* ===================================================================== *)

(** *** Strings *)

Lemma len_append (a b : string) : len (a +:+ b) = (len a + len b)%nat.
Proof.
  unfold len. induction a as [|c a IH]; simpl; [reflexivity|].
  now rewrite IH.
Qed.

Lemma len_take_str (n : nat) (s : string) :
  len (take_str n s) = Nat.min n (len s).
Proof.
  unfold len. revert s. induction n as [|n IH]; intros [|c s]; simpl; auto.
Qed.

Lemma startsWith_take_str (n : nat) (s : string) :
  startsWith (take_str n s) s = true.
Proof.
  revert s. induction n as [|n IH]; intros [|c s]; simpl; auto.
  now rewrite Ascii.eqb_refl.
Qed.

Lemma substring_from_0 (n : nat) (s : string) :
  substring 0 n s = take_str n s.
Proof.
  unfold substring. simpl. now rewrite Nat.sub_0_r.
Qed.

(** *** JSON.parse never runs out of fuel *)

Ltac lens := unfold len in *; cbn [String.length] in *.

Lemma len_skip_ws (s : string) : (len (skip_ws s) <= len s)%nat.
Proof.
  induction s as [|c s IH]; [reflexivity|].
  cbn [skip_ws]. destruct (is_json_ws c); lens; lia.
Qed.

Lemma len_drop_str (n : nat) (s : string) : (len (drop_str n s) <= len s)%nat.
Proof.
  revert s. induction n as [|n IH]; intros [|c s]; cbn [drop_str];
    lens; try lia.
  specialize (IH s). lia.
Qed.

Lemma read_digits_len (radix : Z) (s : string) (acc : Z) (count : nat)
    (v : Z) (n : nat) (rest : string) :
  read_digits radix s acc count = (v, n, rest) ->
  (len rest + n = len s + count)%nat.
Proof.
  revert acc count. induction s as [|c s IH]; intros acc count H.
  - cbn in H. injection H as <- <- <-. reflexivity.
  - cbn [read_digits] in H. destruct (digit_of radix c).
    + apply IH in H. lens. lia.
    + injection H as <- <- <-. reflexivity.
Qed.

Lemma read_sign_len (s : string) : (len (snd (read_sign s)) <= len s)%nat.
Proof.
  destruct s as [|c s]; [reflexivity|]. unfold read_sign.
  destruct (Ascii.eqb c "-"); [cbn [snd]; lens; lia|].
  destruct (Ascii.eqb c "+"); cbn [snd]; lens; lia.
Qed.

Lemma cons_str_Some (c : ascii) (r : option (string * string)) (k rest : string) :
  cons_str c r = Some (k, rest) ->
  exists k', r = Some (k', rest).
Proof.
  destruct r as [[k' rest']|]; cbn; [|discriminate].
  intros [= <- <-]. eauto.
Qed.

Lemma read_string_len (s k rest : string) :
  read_string s = Some (k, rest) -> (len rest < len s)%nat.
Proof.
  remember (len s) as n eqn:Hn. revert s k rest Hn.
  induction n as [n IH] using lt_wf_ind. intros s k rest -> H.
  destruct s as [|c s]; [discriminate|].
  cbn [read_string] in H.
  destruct (Ascii.eqb c dquote); [injection H as <- <-; lens; lia|].
  destruct (Ascii.eqb c "\").
  - destruct s as [|e s]; [discriminate|].
    destruct (Ascii.eqb e "u").
    + destruct s as [|h1 [|h2 [|h3 [|h4 r]]]]; try discriminate.
      destruct (unicode_escape h1 h2 h3 h4); [|discriminate].
      apply cons_str_Some in H as (k' & H).
      eapply (IH (len r)) in H; [| |reflexivity]; lens; lia.
    + destruct (unescape e); [|discriminate].
      apply cons_str_Some in H as (k' & H).
      eapply (IH (len s)) in H; [| |reflexivity]; lens; lia.
  - destruct (nat_of_ascii c <? 32)%nat; [discriminate|].
    apply cons_str_Some in H as (k' & H).
    eapply (IH (len s)) in H; [| |reflexivity]; lens; lia.
Qed.

Lemma read_fraction_len (s : string) (frac : Z) (nf : nat) (rest : string) :
  read_fraction s = Some (frac, nf, rest) -> (len rest <= len s)%nat.
Proof.
  unfold read_fraction. destruct s as [|c s']; [now intros [= _ _ <-]|].
  destruct (Ascii.eqb c "."); [|now intros [= _ _ <-]].
  destruct (read_digits 10 s' 0 0) as [[fr n] r] eqn:Hfr.
  apply read_digits_len in Hfr.
  destruct (n =? 0)%nat; [discriminate|]. intros [= _ _ <-]. lens. lia.
Qed.

Lemma read_json_exponent_len (s : string) (e : Z) (rest : string) :
  read_json_exponent s = Some (e, rest) -> (len rest <= len s)%nat.
Proof.
  unfold read_json_exponent. destruct s as [|c s']; [now intros [= _ <-]|].
  destruct (is_e c); [|now intros [= _ <-]].
  pose proof (read_sign_len s') as Hs.
  destruct (read_sign s') as [eneg s1]. cbn [snd] in Hs.
  destruct (read_digits 10 s1 0 0) as [[ev ne] r] eqn:He.
  apply read_digits_len in He.
  destruct (ne =? 0)%nat; [discriminate|]. intros [= _ <-]. lens. lia.
Qed.

Lemma read_number_len (s : string) (x : jsnum) (rest : string) :
  read_number s = Some (x, rest) -> (len rest < len s)%nat.
Proof.
  unfold read_number.
  assert (Hhead : (len (snd (read_minus s)) <= len s)%nat).
  { unfold read_minus. destruct s as [|c s']; [reflexivity|].
    destruct (Ascii.eqb c "-"); cbn [snd]; lens; lia. }
  destruct (read_minus s) as [neg s1]. cbn [snd] in Hhead.
  destruct (read_digits 10 s1 0 0) as [[int ni] s2] eqn:Hint.
  apply read_digits_len in Hint.
  destruct ((ni =? 0)%nat || _) eqn:Hok; [discriminate|].
  apply orb_false_iff in Hok as [Hni _]. apply Nat.eqb_neq in Hni.
  destruct (read_fraction s2) as [[[frac nf] s3]|] eqn:Hf; [|discriminate].
  apply read_fraction_len in Hf.
  destruct (read_json_exponent s3) as [[e r]|] eqn:He; [|discriminate].
  apply read_json_exponent_len in He. intros [= _ <-]. lia.
Qed.

Lemma parse_progress (fuel : nat) :
  (forall s v rest,
     parse_value fuel s = POk v rest -> (len rest < len s)%nat) /\
  (forall s acc v rest,
     parse_elements fuel s acc = POk v rest -> (len rest < len s)%nat) /\
  (forall s acc v rest,
     parse_members fuel s acc = POk v rest -> (len rest < len s)%nat).
Proof.
  induction fuel as [|f (IHv & IHe & IHm)];
    [repeat split; intros; discriminate|].
  split; [|split].
  - intros s v rest H. cbn [parse_value] in H.
    destruct s as [|c s']; [discriminate|].
    destruct (Ascii.eqb c "[").
    { pose proof (len_skip_ws s') as Hw.
      destruct (skip_ws s') as [|d r]; [discriminate|].
      destruct (Ascii.eqb d "]").
      - injection H as _ <-. lens. lia.
      - apply IHe in H. lens. lia. }
    destruct (Ascii.eqb c "{").
    { pose proof (len_skip_ws s') as Hw.
      destruct (skip_ws s') as [|d r]; [discriminate|].
      destruct (Ascii.eqb d "}").
      - injection H as _ <-. lens. lia.
      - apply IHm in H. lens. lia. }
    destruct (Ascii.eqb c dquote).
    { destruct (read_string s') as [[str r]|] eqn:Hs; [|discriminate].
      apply read_string_len in Hs. injection H as _ <-. lens. lia. }
    destruct (startsWith "true" (String c s')).
    { injection H as _ <-.
      match goal with |- (len ?X < _)%nat => change X with (drop_str 3 s') end.
      pose proof (len_drop_str 3 s') as Hd. revert Hd.
      generalize (drop_str 3 s'). intros t Hd. lens. lia. }
    destruct (startsWith "false" (String c s')).
    { injection H as _ <-.
      match goal with |- (len ?X < _)%nat => change X with (drop_str 4 s') end.
      pose proof (len_drop_str 4 s') as Hd. revert Hd.
      generalize (drop_str 4 s'). intros t Hd. lens. lia. }
    destruct (startsWith "null" (String c s')).
    { injection H as _ <-.
      match goal with |- (len ?X < _)%nat => change X with (drop_str 3 s') end.
      pose proof (len_drop_str 3 s') as Hd. revert Hd.
      generalize (drop_str 3 s'). intros t Hd. lens. lia. }
    destruct (read_number (String c s')) as [[x r]|] eqn:Hn; [|discriminate].
    apply read_number_len in Hn. now injection H as _ <-.
  - intros s acc v rest H. cbn [parse_elements] in H.
    destruct (parse_value f s) as [v1 s2| |] eqn:Hv; try discriminate.
    apply IHv in Hv. pose proof (len_skip_ws s2) as Hw.
    destruct (skip_ws s2) as [|d s3]; [discriminate|].
    destruct (Ascii.eqb d ",").
    + apply IHe in H. pose proof (len_skip_ws s3). lens. lia.
    + destruct (Ascii.eqb d "]"); [|discriminate].
      injection H as _ <-. lens. lia.
  - intros s acc v rest H. cbn [parse_members] in H.
    destruct s as [|q s2]; [discriminate|].
    destruct (Ascii.eqb q dquote); [|discriminate].
    destruct (read_string s2) as [[k s3]|] eqn:Hk; [|discriminate].
    apply read_string_len in Hk. pose proof (len_skip_ws s3) as Hw3.
    destruct (skip_ws s3) as [|colon s4]; [discriminate|].
    destruct (Ascii.eqb colon ":"); [|discriminate].
    pose proof (len_skip_ws s4) as Hw4.
    destruct (parse_value f (skip_ws s4)) as [v1 s5| |] eqn:Hv;
      try discriminate.
    apply IHv in Hv. pose proof (len_skip_ws s5) as Hw5.
    destruct (skip_ws s5) as [|d s6]; [discriminate|].
    destruct (Ascii.eqb d ",").
    + apply IHm in H. pose proof (len_skip_ws s6). lens. lia.
    + destruct (Ascii.eqb d "}"); [|discriminate].
      injection H as _ <-. lens. lia.
Qed.

Lemma parse_enough_fuel (fuel : nat) :
  (forall s, (2 * len s + 1 <= fuel)%nat -> parse_value fuel s <> PFuel) /\
  (forall s acc,
     (2 * len s + 2 <= fuel)%nat -> parse_elements fuel s acc <> PFuel) /\
  (forall s acc,
     (2 * len s + 1 <= fuel)%nat -> parse_members fuel s acc <> PFuel).
Proof.
  induction fuel as [|f (IHv & IHe & IHm)];
    [repeat split; intros; lia|].
  split; [|split].
  - intros s Hf. cbn [parse_value].
    destruct s as [|c s']; [discriminate|].
    destruct (Ascii.eqb c "[").
    { pose proof (len_skip_ws s') as Hw.
      destruct (skip_ws s') as [|d r]; [discriminate|].
      destruct (Ascii.eqb d "]"); [discriminate|].
      apply IHe. lens. lia. }
    destruct (Ascii.eqb c "{").
    { pose proof (len_skip_ws s') as Hw.
      destruct (skip_ws s') as [|d r]; [discriminate|].
      destruct (Ascii.eqb d "}"); [discriminate|].
      apply IHm. lens. lia. }
    destruct (Ascii.eqb c dquote).
    { destruct (read_string s') as [[str r]|]; discriminate. }
    destruct (startsWith "true" (String c s')); [discriminate|].
    destruct (startsWith "false" (String c s')); [discriminate|].
    destruct (startsWith "null" (String c s')); [discriminate|].
    destruct (read_number (String c s')) as [[x r]|]; discriminate.
  - intros s acc Hf. cbn [parse_elements].
    pose proof (IHv s ltac:(lia)) as Hv.
    destruct (parse_value f s) as [v1 s2| |] eqn:Hp;
      [|discriminate|contradiction].
    apply (proj1 (parse_progress f)) in Hp.
    pose proof (len_skip_ws s2) as Hw.
    destruct (skip_ws s2) as [|d s3]; [discriminate|].
    destruct (Ascii.eqb d ",").
    + apply IHe. pose proof (len_skip_ws s3). lens. lia.
    + destruct (Ascii.eqb d "]"); discriminate.
  - intros s acc Hf. cbn [parse_members].
    destruct s as [|q s2]; [discriminate|].
    destruct (Ascii.eqb q dquote); [|discriminate].
    destruct (read_string s2) as [[k s3]|] eqn:Hk; [|discriminate].
    apply read_string_len in Hk. pose proof (len_skip_ws s3) as Hw3.
    destruct (skip_ws s3) as [|colon s4]; [discriminate|].
    destruct (Ascii.eqb colon ":"); [|discriminate].
    pose proof (len_skip_ws s4) as Hw4.
    pose proof (IHv (skip_ws s4) ltac:(lens; lia)) as Hv.
    destruct (parse_value f (skip_ws s4)) as [v1 s5| |] eqn:Hp;
      [|discriminate|contradiction].
    apply (proj1 (parse_progress f)) in Hp.
    pose proof (len_skip_ws s5) as Hw5.
    destruct (skip_ws s5) as [|d s6]; [discriminate|].
    destruct (Ascii.eqb d ",").
    + apply IHm. pose proof (len_skip_ws s6). lens. lia.
    + destruct (Ascii.eqb d "}"); discriminate.
Qed.

(** The fuel [JSON_parse] gives is enough: an error it reports is an error
    of the text. *)
Lemma parse_value_enough_fuel (text : string) :
  parse_value (2 * len text + 2) (skip_ws text) <> PFuel.
Proof.
  apply (proj1 (parse_enough_fuel _)).
  pose proof (len_skip_ws text). lia.
Qed.

(** *** C4: the content extractor *)

(** C4, as stated, fails: the extractor does not drop the sections whose
    value has at most ten characters.  For a scrape with the title "Acme"
    and an empty description the code keeps both sections. *)
Lemma extract_keeps_short_values :
  extractTextForAnalysis (Some acme_scrape)
    <> extract_dropping_short_values acme_scrape
  /\ extractTextForAnalysis (Some acme_scrape)
     = join sep2 [ "Title: Acme"; "Description: "; "Key Sections: ";
                   "Content: Cloud hosting for teams" ].
Proof.
  split; [|reflexivity].
  vm_compute. discriminate.
Qed.

(** C4, amended: the extractor joins the four labelled sections with a
    blank line between them, the content cut to its first 2000 characters,
    and leaves out a section when the whole line, label included, has at
    most ten characters: the title section when the title has at most three
    characters, the content section when the content has at most one;
    the description and the key sections are always there. *)
Theorem extractTextForAnalysis_sections (d : scraped) :
  extractTextForAnalysis (Some d) =
    join sep2
      ((if (3 <? len (sc_title d))%nat then ["Title: " +:+ sc_title d] else []) ++
       [ "Description: " +:+ sc_description d;
         "Key Sections: " +:+ sc_headings d ] ++
       (if (1 <? len (substring 0 2000 (sc_content d)))%nat
        then ["Content: " +:+ substring 0 2000 (sc_content d)] else []))
  /\ len (substring 0 2000 (sc_content d)) = Nat.min 2000 (len (sc_content d))
  /\ startsWith (substring 0 2000 (sc_content d)) (sc_content d) = true.
Proof.
  split; [|split].
  - unfold extractTextForAnalysis.
    cbn [List.filter].
    rewrite !len_append.
    change (len "Title: ") with 7%nat.
    change (len "Description: ") with 13%nat.
    change (len "Key Sections: ") with 14%nat.
    change (len "Content: ") with 9%nat.
    replace (10 <? 7 + len (sc_title d))%nat
      with (3 <? len (sc_title d))%nat
      by (destruct (Nat.ltb_spec 3 (len (sc_title d)));
          destruct (Nat.ltb_spec 10 (7 + len (sc_title d))); lia).
    replace (10 <? 13 + len (sc_description d))%nat with true
      by (symmetry; apply Nat.ltb_lt; lia).
    replace (10 <? 14 + len (sc_headings d))%nat with true
      by (symmetry; apply Nat.ltb_lt; lia).
    replace (10 <? 9 + len (substring 0 2000 (sc_content d)))%nat
      with (1 <? len (substring 0 2000 (sc_content d)))%nat
      by (destruct (Nat.ltb_spec 1 (len (substring 0 2000 (sc_content d))));
          destruct (Nat.ltb_spec 10 (9 + len (substring 0 2000 (sc_content d))));
          lia).
    destruct (3 <? len (sc_title d))%nat;
      destruct (1 <? len (substring 0 2000 (sc_content d)))%nat; reflexivity.
  - rewrite substring_from_0. apply len_take_str.
  - rewrite substring_from_0. apply startsWith_take_str.
Qed.

(** *** Numbers *)

Lemma or_zero_not_NaN (x : jsnum) : or_zero x <> NaN.
Proof.
  unfold or_zero. destruct x; simpl; try discriminate.
  destruct (Qeq_bool q 0); discriminate.
Qed.



(** *** C3 and C2: the graded analysis *)

Lemma parseAnalysisResponse_parsed (response : string) (parsed : value) :
  JSON_parse response = Return parsed ->
  parseAnalysisResponse response =
    match parsed with
    | VUndef | VNull => Return parse_failure
    | _ =>
        Return {| isRelevant := Some (is_true (field_of parsed "isRelevant"));
                  confidence := or_zero (parseInt (field_of parsed "confidence"));
                  score := or_zero (parseFloat (field_of parsed "score"));
                  reasoning := or_val (field_of parsed "reasoning") (VStr EmptyString);
                  keyMatches := or_val (field_of parsed "keyMatches") (VArr []);
                  concerns := or_val (field_of parsed "concerns") (VArr []) |}
    end.
Proof.
  intros H. unfold parseAnalysisResponse. rewrite H.
  destruct parsed; reflexivity.
Qed.

Lemma parseAnalysisResponse_unparsable (response : string) :
  (forall parsed, JSON_parse response <> Return parsed) ->
  parseAnalysisResponse response = Return parse_failure.
Proof.
  intros H. unfold parseAnalysisResponse.
  destruct (JSON_parse response) as [parsed|e|] eqn:E.
  - now destruct (H parsed).
  - reflexivity.
  - exfalso. unfold JSON_parse in E.
    destruct (parse_value _ _) as [v rest| |]; try discriminate.
    destruct (is_empty _); discriminate.
Qed.

Lemma parseAnalysisResponse_returns (response : string) :
  exists v, parseAnalysisResponse response = Return v.
Proof.
  destruct (JSON_parse response) as [parsed|e|] eqn:E.
  - rewrite (parseAnalysisResponse_parsed _ _ E).
    destruct parsed; eauto.
  - exists parse_failure. apply parseAnalysisResponse_unparsable.
    intros parsed. rewrite E. discriminate.
  - exists parse_failure. apply parseAnalysisResponse_unparsable.
    intros parsed. rewrite E. discriminate.
Qed.




Ltac unfold_M :=
  unfold mbind, M_bind, mret, M_ret, try_catch, lift, throw, diverge in *.

Lemma callAI_settles (w : env) (p : prompt) (l : log) :
  (exists r l', callAI w p l = (Return r, l')) \/
  (exists e l', callAI w p l = (Throw e, l')).
Proof.
  unfold callAI.
  destruct (String.eqb (provider w) "openai");
    [|destruct (String.eqb (provider w) "anthropic")];
    unfold axios_post, throw;
    try (destruct (ai_post w _ _); simpl; eauto); eauto.
Qed.

Lemma callAIFlexible_settles (w : env) (p : prompt) (l : log) :
  (exists r l', callAIFlexible w p l = (Return r, l') /\ gets l' = gets l) \/
  (exists e l', callAIFlexible w p l = (Throw e, l') /\ gets l' = gets l).
Proof.
  unfold callAIFlexible.
  destruct (String.eqb (provider w) "openai");
    [|destruct (String.eqb (provider w) "anthropic")];
    unfold axios_post, throw;
    try (destruct (ai_post w _ _); simpl; eauto 6); eauto 6.
Qed.

Lemma unknown_parse_failure : unknown_verdict parse_failure.
Proof. repeat split. eexists; split; [reflexivity|discriminate]. Qed.

Lemma unknown_not_configured : unknown_verdict not_configured.
Proof. repeat split. eexists; split; [reflexivity|discriminate]. Qed.

Lemma unknown_analysis_failed (e : string) : unknown_verdict (analysis_failed e).
Proof. repeat split. eexists; split; [reflexivity|discriminate]. Qed.

Lemma parseAnalysisResponse_score (response : string) (v : verdict) :
  parseAnalysisResponse response = Return v -> score v <> NaN.
Proof.
  intros H.
  destruct (JSON_parse response) as [parsed|e|] eqn:E.
  - rewrite (parseAnalysisResponse_parsed _ _ E) in H.
    destruct parsed; injection H as <-; simpl;
      first [discriminate | apply or_zero_not_NaN].
  - rewrite parseAnalysisResponse_unparsable in H
      by (intros parsed; rewrite E; discriminate).
    injection H as <-. discriminate.
  - rewrite parseAnalysisResponse_unparsable in H
      by (intros parsed; rewrite E; discriminate).
    injection H as <-. discriminate.
Qed.

(** The graded analysis always returns, and its score is a number. *)
Lemma analyzeCompanyRelevance_returns (w : env) (company : lead)
    (content topic : string) (l : log) :
  exists v l',
    analyzeCompanyRelevance w company content topic l = (Return v, l') /\
    score v <> NaN.
Proof.
  unfold analyzeCompanyRelevance.
  destruct (truthy_str (apiKey w)); simpl.
  - unfold_M.
    destruct (callAI_settles w (buildAnalysisPrompt company content topic) l)
      as [(r & l' & ->)|(e & l' & ->)].
    + destruct (parseAnalysisResponse_returns r) as (v & Hv).
      rewrite Hv. exists v, l'. split; [reflexivity|].
      eapply parseAnalysisResponse_score; eauto.
    + eexists _, _. split; [reflexivity|]. discriminate.
  - eexists _, _. split; [reflexivity|]. discriminate.
Qed.

(** C2: the graded analysis never throws, and without a usable answer from
    the oracle (no API key, a call that throws, an answer that is not
    parsable JSON) what it returns is the unknown verdict: [isRelevant] is
    null, [score] is 0 and [reasoning] is a diagnostic string.  The same
    holds of [parseAnalysisResponse] on its own. *)
Theorem graded_analysis_soft_failure :
  (forall response : string,
     exists v,
       parseAnalysisResponse response = Return v /\
       ((forall parsed, JSON_parse response <> Return parsed) ->
        unknown_verdict v)) /\
  (forall (w : env) (company : lead) (content topic : string) (l : log),
     exists v l',
       analyzeCompanyRelevance w company content topic l = (Return v, l') /\
       (oracle_unavailable w (buildAnalysisPrompt company content topic) l ->
        unknown_verdict v)).
Proof.
  split.
  - intros response.
    destruct (parseAnalysisResponse_returns response) as (v & Hv).
    exists v. split; [exact Hv|]. intros Hno.
    rewrite (parseAnalysisResponse_unparsable _ Hno) in Hv.
    injection Hv as <-. apply unknown_parse_failure.
  - intros w company content topic l.
    destruct (analyzeCompanyRelevance_returns w company content topic l)
      as (v & l' & Hrun & _).
    exists v, l'. split; [exact Hrun|].
    intros Hdown. revert Hrun. unfold analyzeCompanyRelevance.
    destruct Hdown as [Hkey|e l1 Hcall|r l1 Hcall Hjson].
    + rewrite Hkey. simpl. unfold_M. intros [= <- _].
      apply unknown_not_configured.
    + destruct (truthy_str (apiKey w)); simpl; unfold_M.
      * rewrite Hcall. intros [= <- _]. apply unknown_analysis_failed.
      * intros [= <- _]. apply unknown_not_configured.
    + destruct (truthy_str (apiKey w)); simpl; unfold_M.
      * rewrite Hcall, (parseAnalysisResponse_unparsable _ Hjson).
        intros [= <- _]. apply unknown_parse_failure.
      * intros [= <- _]. apply unknown_not_configured.
Qed.

Lemma graded_analysis_soft_failure_witness :
  (exists v, parseAnalysisResponse "I cannot answer that" = Return v /\
             unknown_verdict v) /\
  (exists v l',
     analyzeCompanyRelevance
       (world_answering (Some "sk-test") (Failure "timeout of 10000ms exceeded"))
       (bare_lead "Acme" None) "Title: Acme Cloud" "cloud infrastructure"
       no_requests = (Return v, l') /\
     unknown_verdict v).
Proof.
  destruct graded_analysis_soft_failure as [Hparse Hrun].
  split.
  - destruct (Hparse "I cannot answer that") as (v & Hv & Hunk).
    exists v. split; [exact Hv|]. apply Hunk.
    intros parsed. vm_compute. discriminate.
  - destruct (Hrun (world_answering (Some "sk-test")
                      (Failure "timeout of 10000ms exceeded"))
                   (bare_lead "Acme" None) "Title: Acme Cloud"
                   "cloud infrastructure" no_requests)
      as (v & l' & Hv & Hunk).
    exists v, l'. split; [exact Hv|]. apply Hunk.
    eapply call_failed. vm_compute. reflexivity.
Defined.

(** *** C6: the binary topic check *)

Ltac each_ascii c :=
  destruct c as [[] [] [] [] [] [] [] []].

Lemma trimEnd_cons (c : ascii) (s : string) :
  (trimEnd (String c s) = EmptyString /\ trimEnd s = EmptyString /\ is_ws c = true)
  \/ trimEnd (String c s) = String c (trimEnd s).
Proof.
  simpl. destruct (trimEnd s); [|now right].
  destruct (is_ws c); [left|right]; auto.
Qed.

(** Upper-casing, one code unit at a time: which code units give a Y, an E
    or an S at the head of what follows. *)
Lemma starts_upper_Y (c : ascii) (p t : list N) :
  starts (89 :: p)%N (upper c ++ t) = letter_y c && starts p t.
Proof. each_ascii c; reflexivity. Qed.

Lemma starts_upper_E (c : ascii) (p t : list N) :
  starts (69 :: p)%N (upper c ++ t) = letter_e c && starts p t.
Proof. each_ascii c; reflexivity. Qed.

Lemma starts_upper_S (c : ascii) (t : list N) :
  starts [83]%N (upper c ++ t) = letter_s c.
Proof. each_ascii c; reflexivity. Qed.

Lemma includes_upper_cons (c : ascii) (t : list N) :
  includes "YES" (upper c ++ t)
  = starts (units "YES") (upper c ++ t) || includes "YES" t.
Proof. each_ascii c; reflexivity. Qed.

Lemma starts_YES (s : string) :
  starts (units "YES") (toUpperCase s)
  = starts_like [letter_y; letter_e; letter_s] s.
Proof.
  change (units "YES") with [89; 69; 83]%N.
  destruct s as [|a s]; [reflexivity|].
  cbn [toUpperCase starts_like]. rewrite starts_upper_Y. f_equal.
  destruct s as [|b s]; [reflexivity|].
  cbn [toUpperCase starts_like]. rewrite starts_upper_E. f_equal.
  destruct s as [|c s]; [reflexivity|].
  cbn [toUpperCase starts_like]. rewrite starts_upper_S.
  now rewrite andb_true_r.
Qed.

(** Upper-casing and then looking for "YES" is looking for y, e and s, S or
    the sharp s. *)
Lemma includes_YES (s : string) :
  includes "YES" (toUpperCase s) = has_yes s.
Proof.
  unfold has_yes. induction s as [|c s IH]; [reflexivity|].
  cbn [toUpperCase]. rewrite includes_upper_cons, IH.
  change (upper c ++ toUpperCase s) with (toUpperCase (String c s)).
  now rewrite starts_YES.
Qed.

Lemma letter_not_ws (c : ascii) :
  is_ws c = true ->
  letter_y c = false /\ letter_e c = false /\ letter_s c = false.
Proof. each_ascii c; cbn; intros H; try discriminate H; auto. Qed.

Lemma has_yes_trimStart (s : string) : has_yes (trimStart s) = has_yes s.
Proof.
  unfold has_yes. induction s as [|c s IH]; [reflexivity|].
  cbn [trimStart]. destruct (is_ws c) eqn:Hc; [|reflexivity].
  rewrite IH. cbn [has_like starts_like].
  destruct (letter_not_ws c Hc) as (-> & _). reflexivity.
Qed.

Lemma starts_like_trimEnd (classes : list (ascii -> bool)) (s : string) :
  Forall (fun p => forall c, is_ws c = true -> p c = false) classes ->
  starts_like classes (trimEnd s) = starts_like classes s.
Proof.
  intros Hall. revert s.
  induction Hall as [|p rest Hp _ IH]; intros s; [reflexivity|].
  destruct s as [|c s]; [reflexivity|].
  destruct (trimEnd_cons c s) as [(E & _ & Hc)|E]; rewrite E.
  - cbn [starts_like]. now rewrite (Hp c Hc).
  - cbn [starts_like]. now rewrite IH.
Qed.

Lemma no_ws_letters :
  Forall (fun p : ascii -> bool => forall c, is_ws c = true -> p c = false)
         [letter_y; letter_e; letter_s].
Proof.
  repeat constructor; intros c Hc;
    destruct (letter_not_ws c Hc) as (Hy & He & Hs); assumption.
Qed.

Lemma has_yes_trimEnd (s : string) : has_yes (trimEnd s) = has_yes s.
Proof.
  unfold has_yes. induction s as [|c s IH]; [reflexivity|].
  pose proof (starts_like_trimEnd _ (String c s) no_ws_letters) as Hhead.
  destruct (trimEnd_cons c s) as [(E & Es & _)|E]; rewrite E in *.
  - rewrite Es in IH. cbn [has_like] in *. rewrite <- IH, <- Hhead.
    now destruct (starts_like _ EmptyString).
  - cbn [has_like]. now rewrite IH, Hhead.
Qed.

Lemma has_yes_trim (s : string) : has_yes (trim s) = has_yes s.
Proof. unfold trim. now rewrite has_yes_trimEnd, has_yes_trimStart. Qed.

Lemma letter_y_spec (a : ascii) :
  letter_y a = true <-> (a = "y" \/ a = "Y")%char.
Proof.
  unfold letter_y. rewrite orb_true_iff, !Ascii.eqb_eq. tauto.
Qed.

Lemma letter_e_spec (a : ascii) :
  letter_e a = true <-> (a = "e" \/ a = "E")%char.
Proof.
  unfold letter_e. rewrite orb_true_iff, !Ascii.eqb_eq. tauto.
Qed.

Lemma letter_s_spec (a : ascii) :
  letter_s a = true <-> (a = "s" \/ a = "S" \/ a = sharp_s)%char.
Proof.
  unfold letter_s. rewrite !orb_true_iff, !Ascii.eqb_eq. tauto.
Qed.

Lemma starts_like_yes (s : string) :
  starts_like [letter_y; letter_e; letter_s] s = true <->
  exists a b c post,
    s = String a (String b (String c post)) /\
    (a = "y" \/ a = "Y")%char /\ (b = "e" \/ b = "E")%char /\
    (c = "s" \/ c = "S" \/ c = sharp_s)%char.
Proof.
  split.
  - destruct s as [|a [|b [|c post]]]; cbn [starts_like];
      rewrite ?andb_false_r; try discriminate.
    rewrite andb_true_r, !andb_true_iff.
    rewrite letter_y_spec, letter_e_spec, letter_s_spec.
    intros (Ha & Hb & Hc). exists a, b, c, post. auto.
  - intros (a & b & c & post & -> & Ha & Hb & Hc).
    cbn [starts_like].
    apply letter_y_spec in Ha. apply letter_e_spec in Hb.
    apply letter_s_spec in Hc. now rewrite Ha, Hb, Hc.
Qed.

Lemma has_yes_spec (s : string) : has_yes s = true <-> says_yes s.
Proof.
  unfold has_yes. split.
  - induction s as [|x s IH].
    + cbn. discriminate.
    + cbn [has_like]. intros H. apply orb_true_iff in H as [H|H].
      * apply starts_like_yes in H as (a & b & c & post & E & Hy).
        exists EmptyString, a, b, c, post. now split.
      * destruct (IH H) as (pre & a & b & c & post & -> & Hy).
        exists (String x pre), a, b, c, post. now split.
  - intros (pre & a & b & c & post & -> & Hy).
    induction pre as [|x pre IH].
    + change (EmptyString +:+ String a (String b (String c post)))
        with (String a (String b (String c post))).
      cbn [has_like]. apply orb_true_iff. left.
      apply starts_like_yes. exists a, b, c, post. now split.
    + change (String x pre +:+ String a (String b (String c post)))
        with (String x (pre +:+ String a (String b (String c post)))).
      cbn [has_like]. rewrite IH. apply orb_true_r.
Qed.

(** What the test of [checkCompanyTopicRelation] on a response amounts
    to. *)
Lemma response_test (response : string) :
  includes "YES" (toUpperCase (trim response)) = has_yes response.
Proof. now rewrite includes_YES, has_yes_trim. Qed.

(** What [checkCompanyTopicRelation] does, case by case. *)
Lemma checkCompanyTopicRelation_cases (w : env) (url content topic : string)
    (l : log) :
  exists b l',
    checkCompanyTopicRelation w url content topic l = (Return b, l') /\
    gets l' = gets l /\
    ((is_blank content = true /\ b = false /\ l' = l) \/
     (is_blank content = false /\
      ((exists response,
          callAIFlexible w (topic_prompt url content topic) l
            = (Return response, l') /\
          b = has_yes response) \/
       (exists e,
          callAIFlexible w (topic_prompt url content topic) l = (Throw e, l') /\
          b = false)))).
Proof.
  unfold checkCompanyTopicRelation. fold (is_blank content).
  destruct (is_blank content).
  - exists false, l. unfold_M. split; [reflexivity|]. split; [reflexivity|].
    left. auto.
  - fold (topic_prompt url content topic). unfold_M.
    destruct (callAIFlexible_settles w (topic_prompt url content topic) l)
      as [(r & l' & Hcall & Hg)|(e & l' & Hcall & Hg)]; rewrite Hcall.
    + eexists _, l'. split; [reflexivity|]. split; [exact Hg|].
      right. split; [reflexivity|]. left. exists r.
      split; [reflexivity|apply response_test].
    + exists false, l'. split; [reflexivity|]. split; [exact Hg|].
      right. split; [reflexivity|]. right. eauto.
Qed.

(** C6: the binary topic check never throws and asks the oracle exactly
    when the content is not blank.  It returns true exactly when the oracle
    was asked, answered, and the answer holds "yes" in some letter case (the
    sharp s, whose capital is SS, counting as a case of s): upper-cased, it
    holds "YES".  Any other answer and an oracle error give false. *)
Theorem checkCompanyTopicRelation_decides (w : env)
    (url content topic : string) (l : log) :
  exists b,
    checkCompanyTopicRelation w url content topic l
    = (Return b,
       if is_blank content then l
       else snd (callAIFlexible w (topic_prompt url content topic) l)) /\
    (b = true <->
     is_blank content = false /\
     exists response,
       fst (callAIFlexible w (topic_prompt url content topic) l)
       = Return response /\
       says_yes response) /\
    (forall e,
       fst (callAIFlexible w (topic_prompt url content topic) l) = Throw e ->
       b = false).
Proof.
  destruct (checkCompanyTopicRelation_cases w url content topic l)
    as (b & l' & Hrun & _ & Hcases).
  exists b.
  destruct Hcases as [(Hb & -> & ->)|(Hb & [(r & Hcall & ->)|(e & Hcall & ->)])];
    rewrite Hb, ?Hcall; cbn [fst snd].
  - split; [exact Hrun|]. split; [|reflexivity].
    split; [discriminate|]. intros [H _]. discriminate.
  - split; [exact Hrun|]. split; [|discriminate].
    rewrite has_yes_spec. split.
    + intros Hy. split; [reflexivity|]. exists r. now split.
    + intros (_ & r' & [= <-] & Hy). exact Hy.
  - split; [exact Hrun|]. split; [|reflexivity].
    split; [discriminate|]. intros (_ & r & Hr & _). discriminate.
Qed.

(** *** C5 and C9: the Fetcher and one unit of work of the matcher *)

Lemma append_cons (a : ascii) (p q : string) :
  String a p +:+ q = String a (p +:+ q).
Proof. reflexivity. Qed.

Lemma startsWith_app (p q s : string) :
  startsWith (p +:+ q) s = true -> startsWith p s = true.
Proof.
  revert s. induction p as [|a p IH]; intros s; [reflexivity|].
  rewrite append_cons.
  destruct s as [|b s]; cbn [startsWith]; [discriminate|].
  destruct (Ascii.eqb a b); [apply IH|discriminate].
Qed.

Lemma scrapeWebsite_invalid (w : env) (url : string) (l : log) :
  startsWith "http" url = false -> scrapeWebsite w url l = (Return None, l).
Proof.
  intros H. unfold scrapeWebsite. rewrite H.
  now rewrite orb_true_r.
Qed.

Lemma scrapeWebsite_fetches (w : env) (url : string) (l : log) :
  startsWith "http" url = true ->
  exists o,
    scrapeWebsite w url l
    = (Return o, {| gets := (gets l ++ [url])%list; posts := posts l |}).
Proof.
  intros H. unfold scrapeWebsite. rewrite H.
  destruct url as [|c url]; [discriminate|].
  cbn [is_empty orb negb]. unfold_M. unfold axios_get, toISOString_now.
  destruct (http_get w (length (gets l)) (String c url)); simpl; eauto.
Qed.

Lemma full_url_http (c : lead) :
  truthy_str (resolved_url c) = true -> startsWith "http" (full_url c) = true.
Proof.
  intros _. unfold full_url.
  destruct (startsWith "http://" (or_empty (resolved_url c))) eqn:E1.
  - apply (startsWith_app "http" "://"), E1.
  - destruct (startsWith "https://" (or_empty (resolved_url c))) eqn:E2.
    + apply (startsWith_app "http" "s://"), E2.
    + reflexivity.
Qed.

(** What [processCompany] does, case by case. *)
Lemma processCompany_cases (w : env) (topic : string) (c : lead) (i : nat)
    (l : log) :
  exists r l',
    processCompany w topic c i l = (Return r, l') /\
    mr_company r = c /\ mr_index r = i /\
    ((truthy_str (resolved_url c) = false /\ isRelated r = None /\ l' = l) \/
     (truthy_str (resolved_url c) = true /\
      scrapeWebsite w (full_url c) l
      = (Return None, {| gets := (gets l ++ [full_url c])%list; posts := posts l |}) /\
      isRelated r = None /\ gets l' = (gets l ++ [full_url c])%list) \/
     (truthy_str (resolved_url c) = true /\
      exists sc b,
        scrapeWebsite w (full_url c) l
        = (Return (Some sc),
           {| gets := (gets l ++ [full_url c])%list; posts := posts l |}) /\
        checkCompanyTopicRelation w (full_url c)
          (extractTextForAnalysis (Some sc)) topic
          {| gets := (gets l ++ [full_url c])%list; posts := posts l |}
        = (Return b, l') /\
        isRelated r = Some b /\ gets l' = (gets l ++ [full_url c])%list)).
Proof.
  unfold processCompany. fold (resolved_url c).
  destruct (truthy_str (resolved_url c)) eqn:Hurl; cbn [negb].
  - fold (full_url c).
    destruct (scrapeWebsite_fetches w (full_url c) l (full_url_http c Hurl))
      as (o & Hs).
    unfold_M. rewrite Hs. destruct o as [sc|].
    + destruct (checkCompanyTopicRelation_cases w (full_url c)
                  (extractTextForAnalysis (Some sc)) topic
                  {| gets := (gets l ++ [full_url c])%list; posts := posts l |})
        as (b & l' & Hc & Hg & _).
      unfold_M. rewrite Hc.
      eexists _, l'. split; [reflexivity|]. split; [reflexivity|].
      split; [reflexivity|]. right. right. split; [reflexivity|].
      exists sc, b. repeat split; auto.
    + eexists _, _. split; [reflexivity|]. split; [reflexivity|].
      split; [reflexivity|]. right. left. repeat split; auto.
  - eexists _, l. unfold_M. split; [reflexivity|]. split; [reflexivity|].
    split; [reflexivity|]. left. auto.
Qed.

(** C5, as stated, fails: given the bare domain "acme.com", on sites that
    would all answer, the Fetcher returns null and requests nothing. *)
Lemma scrapeWebsite_rejects_bare_domain :
  scrapeWebsite (world_answering None (Answer "YES")) "acme.com" no_requests
    = (Return None, no_requests)
  /\ ~ fetcher_prepends_https (world_answering None (Answer "YES")) "acme.com".
Proof.
  split; [reflexivity|].
  intros (o & l' & Hrun & Hgets).
  vm_compute in Hrun. injection Hrun as _ <-. discriminate.
Qed.

(** C5, amended: the Fetcher treats a string that does not begin with
    "http" as invalid: it returns null and requests nothing.  It is the
    parallel topic matcher that prepends "https://": for a company whose
    resolved URL is such a string, [processCompany] has the Fetcher request
    "https://" followed by that string. *)
Theorem bare_domain_is_invalid_for_fetcher (w : env) (url : string) (l : log)
    (topic : string) (company : lead) (index : nat) :
  startsWith "http" url = false ->
  scrapeWebsite w url l = (Return None, l) /\
  (is_empty url = false -> resolved_url company = Some url ->
   exists r l',
     processCompany w topic company index l = (Return r, l') /\
     gets l' = (gets l ++ ["https://" +:+ url])%list).
Proof.
  intros Hbare. split; [now apply scrapeWebsite_invalid|].
  intros Hne Hres.
  assert (Hfull : full_url company = "https://" +:+ url).
  { unfold full_url. rewrite Hres. cbn [or_empty].
    destruct (startsWith "http://" url) eqn:E1.
    { apply (startsWith_app "http" "://") in E1. congruence. }
    destruct (startsWith "https://" url) eqn:E2.
    { apply (startsWith_app "http" "s://") in E2. congruence. }
    reflexivity. }
  assert (Htruthy : truthy_str (resolved_url company) = true).
  { rewrite Hres. destruct url; [discriminate|reflexivity]. }
  destruct (processCompany_cases w topic company index l)
    as (r & l' & Hrun & _ & _ & Hcases).
  exists r, l'. split; [exact Hrun|]. rewrite <- Hfull.
  destruct Hcases as [(Hf & _)|[(_ & _ & _ & Hg)|(_ & sc & b & _ & _ & _ & Hg)]];
    [congruence|exact Hg|exact Hg].
Qed.

Lemma bare_domain_is_invalid_for_fetcher_witness :
  scrapeWebsite (world_answering (Some "sk-test") (Answer "YES")) "acme.com"
    no_requests = (Return None, no_requests) /\
  exists r l',
    processCompany (world_answering (Some "sk-test") (Answer "YES"))
      "cloud infrastructure" (bare_lead "Acme" (Some "acme.com")) 0 no_requests
    = (Return r, l') /\
    gets l' = ["https://acme.com"].
Proof.
  destruct (bare_domain_is_invalid_for_fetcher
              (world_answering (Some "sk-test") (Answer "YES")) "acme.com"
              no_requests "cloud infrastructure"
              (bare_lead "Acme" (Some "acme.com")) 0 eq_refl) as [Hs Hp].
  split; [exact Hs|]. apply Hp; reflexivity.
Defined.

(** C9, as stated, fails: for the same company and site, an AI provider
    that fails and one that answers "NO" lead to the same result, with
    [isRelated] false. *)
Lemma oracle_error_looks_like_no :
  fst (processCompany
         (world_answering (Some "sk-test")
            (Failure "Request failed with status code 500"))
         "cloud infrastructure" (bare_lead "Acme" (Some "https://acme.com"))
         0 no_requests)
  = fst (processCompany
           (world_answering (Some "sk-test") (Answer "NO"))
           "cloud infrastructure" (bare_lead "Acme" (Some "https://acme.com"))
           0 no_requests)
  /\ fst (processCompany
            (world_answering (Some "sk-test")
               (Failure "Request failed with status code 500"))
            "cloud infrastructure" (bare_lead "Acme" (Some "https://acme.com"))
            0 no_requests)
     = Return {| mr_company := bare_lead "Acme" (Some "https://acme.com");
                 mr_index := 0;
                 isRelated := Some false |}.
Proof. split; vm_compute; reflexivity. Qed.

(** C9, amended: an Unknown that comes from a missing URL or from a failed
    fetch is [isRelated = null], a value other than the [false] of an
    explicit No; an oracle error, however, gives [false], the very value of
    an answer without "YES". *)
Theorem unknown_and_no (w : env) (topic : string) (c : lead) (i : nat)
    (l : log) :
  exists r l',
    processCompany w topic c i l = (Return r, l') /\
    (truthy_str (resolved_url c) = false -> isRelated r = None) /\
    (forall l1,
       truthy_str (resolved_url c) = true ->
       scrapeWebsite w (full_url c) l = (Return None, l1) ->
       isRelated r = None) /\
    (forall sc l1 e l2,
       truthy_str (resolved_url c) = true ->
       scrapeWebsite w (full_url c) l = (Return (Some sc), l1) ->
       callAIFlexible w
         (topic_prompt (full_url c) (extractTextForAnalysis (Some sc)) topic) l1
       = (Throw e, l2) ->
       isRelated r = Some false) /\
    (forall sc l1 response l2,
       truthy_str (resolved_url c) = true ->
       scrapeWebsite w (full_url c) l = (Return (Some sc), l1) ->
       callAIFlexible w
         (topic_prompt (full_url c) (extractTextForAnalysis (Some sc)) topic) l1
       = (Return response, l2) ->
       ~ says_yes response ->
       isRelated r = Some false).
Proof.
  destruct (processCompany_cases w topic c i l)
    as (r & l' & Hrun & _ & _ & Hcases).
  exists r, l'. split; [exact Hrun|].
  destruct Hcases
    as [(Hf & Hr & _)|[(Ht & Hs & Hr & _)|(Ht & sc & b & Hs & Hc & Hr & _)]].
  - repeat split; intros; congruence.
  - repeat split; intros; congruence.
  - destruct (checkCompanyTopicRelation_cases w (full_url c)
                (extractTextForAnalysis (Some sc)) topic
                {| gets := (gets l ++ [full_url c])%list; posts := posts l |})
      as (b' & l'' & Hc' & _ & Hk).
    rewrite Hc in Hc'. injection Hc' as <- <-.
    split; [congruence|]. split; [intros; congruence|]. split.
    + intros sc' l1 e l2 _ Hs' Hcall.
      rewrite Hs in Hs'. injection Hs' as <- <-.
      destruct Hk as [(_ & -> & _)|(_ & [(r' & Hcall' & _)|(e' & _ & ->)])];
        [exact Hr| |exact Hr].
      rewrite Hcall in Hcall'. discriminate.
    + intros sc' l1 response l2 _ Hs' Hcall Hno.
      rewrite Hs in Hs'. injection Hs' as <- <-.
      destruct Hk as [(_ & -> & _)|(_ & [(r' & Hcall' & ->)|(e' & _ & ->)])];
        [exact Hr| |exact Hr].
      rewrite Hcall in Hcall'. injection Hcall' as <- _.
      rewrite Hr. f_equal.
      destruct (has_yes response) eqn:E; [|reflexivity].
      apply has_yes_spec in E. contradiction.
Qed.

(** *** C7: the parallel topic matcher *)

Lemma first_rejection_Return {A : Type} (bs : list A) :
  first_rejection (map Return bs) = Return bs.
Proof.
  induction bs as [|b bs IH]; [reflexivity|].
  cbn [map first_rejection]. now rewrite IH.
Qed.

Section Windows.
Context {A B : Type} (f : nat -> A -> M B).
Hypothesis f_returns : forall i a l, exists b l', f i a l = (Return b, l').

Lemma run_each_returns (items : list A) (i : nat) (l : log) :
  exists bs l',
    run_each f items i l = (Return bs, l') /\ length bs = length items.
Proof.
  revert i l. induction items as [|a rest IH]; intros i l.
  - exists [], l. now split.
  - destruct (f_returns i a l) as (b & l1 & Hb).
    destruct (IH (S i) l1) as (bs & l' & Hbs & Hlen).
    exists (b :: bs), l'. cbn [run_each]. unfold_M.
    rewrite Hb, Hbs. split; [reflexivity|]. simpl. now rewrite Hlen.
Qed.

Lemma run_each_app (xs ys : list A) (i : nat) (l l1 l' : log)
    (bs1 bs2 : list B) :
  run_each f xs i l = (Return bs1, l1) ->
  run_each f ys (i + length xs) l1 = (Return bs2, l') ->
  run_each f (xs ++ ys) i l = (Return (bs1 ++ bs2), l').
Proof.
  revert i l bs1. induction xs as [|a xs IH]; intros i l bs1 H1 H2.
  - cbn in H1. unfold_M. injection H1 as <- <-.
    simpl in H2. rewrite Nat.add_0_r in H2. exact H2.
  - cbn [run_each] in H1. cbn [app run_each]. unfold_M.
    destruct (f_returns i a l) as (b & l0 & Hb). rewrite Hb in *.
    destruct (run_each f xs (S i) l0) as [[bs| |] l2] eqn:E; try discriminate.
    injection H1 as <- <-.
    rewrite (IH (S i) l0 bs E) by
      (simpl in H2; now rewrite Nat.add_succ_r in H2).
    reflexivity.
Qed.

(** One window: [Promise.all] over the tasks of a batch gives what running
    them in turn gives. *)
Lemma promise_all_window (batch : list A) (i : nat) (l : log) :
  promise_all (imap (fun k a => f (i + k) a) batch) l = run_each f batch i l.
Proof.
  assert (H : forall batch i l bs l',
             run_each f batch i l = (Return bs, l') ->
             allSettled (imap (fun k a => f (i + k) a) batch) l
             = (Return (map Return bs), l')).
  { clear batch i l. induction batch as [|a rest IH]; intros i l bs l' Hrun.
    - cbn in Hrun. unfold_M. injection Hrun as <- <-. reflexivity.
    - cbn [run_each] in Hrun. rewrite imap_cons. cbn [allSettled].
      rewrite Nat.add_0_r. unfold_M.
      destruct (f_returns i a l) as (b & l0 & Hb). rewrite Hb in *.
      destruct (run_each f rest (S i) l0) as [[bs0| |] l2] eqn:E;
        try discriminate.
      injection Hrun as <- <-.
      rewrite (imap_ext _ (fun k a => f (S i + k) a))
        by (intros k x _; simpl; f_equal; lia).
      rewrite (IH (S i) l0 bs0 l2 E). reflexivity. }
  destruct (run_each_returns batch i l) as (bs & l' & Hrun & _).
  unfold promise_all. unfold_M.
  rewrite (H _ _ _ _ _ Hrun), Hrun. now rewrite first_rejection_Return.
Qed.

End Windows.

Lemma processCompany_returns (w : env) (topic : string) (i : nat) (c : lead)
    (l : log) :
  exists r l', processCompany w topic c i l = (Return r, l').
Proof.
  destruct (processCompany_cases w topic c i l) as (r & l' & H & _).
  eauto.
Qed.

Lemma slice_take_drop {A : Type} (i n : nat) (l : list A) :
  slice i (i + n) l = take n (drop i l).
Proof. unfold slice. f_equal. lia. Qed.

(** The loop of windows gives what running the units in turn gives. *)
Lemma process_from_run (w : env) (topic : string) (companies : list lead)
    (maxConcurrent : nat) :
  (0 < maxConcurrent)%nat ->
  forall fuel i results l,
    (length companies - i <= fuel)%nat ->
    exists rs l',
      run_each (fun i c => processCompany w topic c i) (drop i companies) i l
      = (Return rs, l') /\
      process_from w fuel topic companies maxConcurrent i results l
      = (Return (results ++ rs)%list, l').
Proof.
  intros Hmc. induction fuel as [|fuel IH]; intros i results l Hfuel.
  - exists [], l. rewrite drop_ge by lia. split; [reflexivity|].
    cbn [process_from].
    replace (length companies <=? i)%nat with true
      by (symmetry; apply Nat.leb_le; lia).
    now rewrite app_nil_r.
  - cbn [process_from].
    destruct (length companies <=? i)%nat eqn:Hle.
    + apply Nat.leb_le in Hle. exists [], l. rewrite drop_ge by lia.
      split; [reflexivity|]. now rewrite app_nil_r.
    + apply Nat.leb_gt in Hle.
      rewrite slice_take_drop. unfold_M.
      rewrite (promise_all_window _ (processCompany_returns w topic)).
      destruct (run_each_returns _ (processCompany_returns w topic)
                  (take maxConcurrent (drop i companies)) i l)
        as (bs & l1 & Hbs & Hlen).
      rewrite Hbs.
      destruct (IH (i + maxConcurrent)%nat (results ++ bs)%list l1)
        as (rs & l' & Hrs & Hloop); [lia|].
      exists (bs ++ rs)%list, l'. split.
      * rewrite <- (take_drop maxConcurrent (drop i companies)).
        rewrite drop_drop.
        eapply run_each_app; [apply processCompany_returns|exact Hbs|].
        rewrite length_take, length_drop.
        destruct (Nat.le_gt_cases maxConcurrent (length companies - i))
          as [Hfull|Hshort].
        -- now rewrite Nat.min_l by lia.
        -- rewrite drop_ge in * by lia.
           cbn in Hrs. unfold_M. injection Hrs as <- <-. reflexivity.
      * rewrite Hloop. now rewrite app_assoc.
Qed.

Lemma positive_index_diff (a b : nat) :
  positive (index_diff a b) = (b <? a)%nat.
Proof.
  unfold positive, index_diff, Qle_bool, inject_Z; simpl.
  rewrite Z.mul_1_r.
  destruct (Nat.ltb_spec b a); [apply negb_true_iff, Z.leb_gt|
                                apply negb_false_iff, Z.leb_le]; lia.
Qed.

(** Results that are in the order of their indices stay as they are. *)
Lemma sort_by_index_id (rs : list match_result) (i : nat) :
  map mr_index rs = seq i (length rs) ->
  sort (fun a b => index_diff (mr_index a) (mr_index b)) rs = rs.
Proof.
  revert i. induction rs as [|r rs IH]; intros i H; [reflexivity|].
  cbn [map length seq] in H. injection H as Hr Hrs.
  cbn [sort]. rewrite (IH (S i) Hrs).
  destruct rs as [|r2 rs]; [reflexivity|].
  cbn [map length seq] in Hrs. injection Hrs as Hr2 _.
  cbn [insert_sorted]. rewrite positive_index_diff, Hr, Hr2.
  now replace (S i <? i)%nat with false by (symmetry; apply Nat.ltb_ge; lia).
Qed.

Lemma run_each_processCompany (w : env) (topic : string) (cs : list lead)
    (i : nat) (l l' : log) (rs : list match_result) :
  run_each (fun i c => processCompany w topic c i) cs i l = (Return rs, l') ->
  map mr_company rs = cs /\
  map mr_index rs = seq i (length cs) /\
  Forall (fun r => truthy_str (resolved_url (mr_company r)) = false ->
                   isRelated r = None) rs.
Proof.
  revert i l rs. induction cs as [|c cs IH]; intros i l rs H.
  - cbn in H. unfold_M. injection H as <- <-. repeat split; constructor.
  - cbn [run_each] in H. unfold_M.
    destruct (processCompany_cases w topic c i l)
      as (r & l1 & Hr & Hc & Hi & Hcases).
    rewrite Hr in H.
    destruct (run_each _ cs (S i) l1) as [[rs0| |] l2] eqn:E; try discriminate.
    injection H as <- <-.
    destruct (IH _ _ _ E) as (Hcs & His & Hall).
    cbn [map length seq]. rewrite Hcs, His, Hc, Hi.
    repeat split. constructor; [|exact Hall].
    rewrite Hc. intros Hno.
    destruct Hcases as [(_ & Hn & _)|[(Ht & _)|(Ht & _)]];
      [exact Hn|congruence|congruence].
Qed.

Lemma sublist_map_filter {A B : Type} (g : A -> B) (p : A -> bool) (l : list A) :
  sublist (map g (List.filter p l)) (map g l).
Proof.
  induction l as [|a l IH]; [constructor|].
  cbn [List.filter map]. destruct (p a); cbn [map]; now constructor.
Qed.

(** *** C10: filtering posts by topic *)

Lemma JSON_parse_settles (text : string) : JSON_parse text <> Diverge.
Proof.
  unfold JSON_parse.
  destruct (parse_value _ _) as [v rest| |]; try discriminate.
  destruct (is_empty _); discriminate.
Qed.

Lemma collect_ids_settles (response : string) (ids : list value) :
  collect_ids response ids <> Diverge.
Proof.
  unfold collect_ids.
  destruct (indexOf _ _) as [a|]; [|discriminate].
  destruct (lastIndexOf _ _) as [b|]; [|discriminate].
  pose proof (JSON_parse_settles (substring a (b + 1) response)) as H.
  destruct (JSON_parse _) as [v|e|]; cbn; try discriminate; [|contradiction].
  destruct v; discriminate.
Qed.

Lemma filter_from_returns (w : env) (topic : string) (items : list post)
    (chunkSize : nat) :
  (0 < chunkSize)%nat ->
  forall fuel i ids l,
    (length items - i <= fuel)%nat ->
    exists ids' l',
      filter_from w fuel topic items chunkSize i ids l = (Return ids', l').
Proof.
  intros Hc. induction fuel as [|fuel IH]; intros i ids l Hfuel.
  - cbn [filter_from].
    replace (length items <=? i)%nat with true
      by (symmetry; apply Nat.leb_le; lia).
    eexists _, _. reflexivity.
  - cbn [filter_from].
    destruct (length items <=? i)%nat eqn:Hle; [eexists _, _; reflexivity|].
    apply Nat.leb_gt in Hle. unfold_M.
    match goal with
    | |- context [callAIFlexible w ?p l] =>
        destruct (callAIFlexible_settles w p l)
          as [(r & l1 & Hcall & _)|(e & l1 & Hcall & _)]; rewrite Hcall
    end.
    + pose proof (collect_ids_settles r ids) as Hs.
      destruct (collect_ids r ids) as [found|e|]; [| |contradiction];
        apply IH; lia.
    + apply IH; lia.
Qed.

Lemma sublist_filter_bool {A : Type} (p : A -> bool) (l : list A) :
  sublist (List.filter p l) l.
Proof.
  induction l as [|a l IH]; [constructor|].
  cbn [List.filter]. destruct (p a); now constructor.
Qed.

(** Without an API key, or for an empty list, every post is returned and the
    oracle is not asked, whatever the chunk size. *)
Lemma filterPostsByTopic_unfiltered (w : env) (items : list post)
    (topic : string) (chunkSize : nat) (l : log) :
  truthy_str (apiKey w) = false \/ items = [] ->
  filterPostsByTopic w (Some items) topic chunkSize l = (Return items, l).
Proof.
  intros [H| ->]; unfold filterPostsByTopic.
  - now rewrite H.
  - cbn. now rewrite orb_true_r.
Qed.

(** C10: with a chunk size of at least one, [filterPostsByTopic] returns,
    and what it returns is a subsequence of the posts it was given: the same
    posts, in the order of the input.  Without an API key, or for an empty
    list, it is the whole input, and the oracle is not asked. *)
Theorem filterPostsByTopic_sublist (w : env) (items : list post)
    (topic : string) (chunkSize : nat) (l : log) :
  (0 < chunkSize)%nat ->
  exists out l',
    filterPostsByTopic w (Some items) topic chunkSize l = (Return out, l') /\
    sublist out items /\
    (truthy_str (apiKey w) = false \/ items = [] -> out = items /\ l' = l).
Proof.
  intros Hc.
  destruct (truthy_str (apiKey w)) eqn:Hkey;
    [destruct items as [|p0 items']|].
  - exists [], l. rewrite filterPostsByTopic_unfiltered by now right.
    split; [reflexivity|]. split; [constructor|]. auto.
  - destruct (filter_from_returns w topic (p0 :: items') chunkSize Hc
                (length (p0 :: items')) 0 [] l) as (ids & l' & Hloop); [lia|].
    eexists _, l'. unfold filterPostsByTopic. rewrite Hkey. cbn [negb orb].
    change (length (p0 :: items') =? 0)%nat with false.
    cbv iota. unfold_M. rewrite Hloop.
    split; [reflexivity|]. split; [apply sublist_filter_bool|].
    intros [H|H]; discriminate.
  - exists items, l. rewrite filterPostsByTopic_unfiltered by now left.
    split; [reflexivity|]. split; [reflexivity|]. auto.
Qed.

Lemma filterPostsByTopic_sublist_witness :
  exists l',
    filterPostsByTopic (world_answering (Some "sk-test") (Answer "[1, 3]"))
      (Some three_posts) "business trips" 20 no_requests
    = (Return [ text_post 1 "Excited to be at GDC in San Francisco this week!";
                text_post 3 "Packing my bags for the London sales meeting!" ],
       l') /\
    filterPostsByTopic (world_answering None (Answer "[1, 3]"))
      (Some three_posts) "business trips" 20 no_requests
    = (Return three_posts, no_requests).
Proof.
  destruct (filterPostsByTopic_sublist
              (world_answering (Some "sk-test") (Answer "[1, 3]"))
              three_posts "business trips" 20 no_requests ltac:(lia))
    as (out & l' & Hrun & _ & _).
  destruct (filterPostsByTopic_sublist
              (world_answering None (Answer "[1, 3]"))
              three_posts "business trips" 20 no_requests ltac:(lia))
    as (out0 & l0 & Hrun0 & _ & Hall).
  destruct (Hall (or_introl eq_refl)) as [-> ->].
  exists l'. split; [|exact Hrun0].
  rewrite Hrun. vm_compute in Hrun. injection Hrun as <- _. reflexivity.
Defined.

(** *** C1: the enrichment pipeline *)

Lemma sort_Permutation {A : Type} (cmp : A -> A -> jsnum) (l : list A) :
  Permutation (sort cmp l) l.
Proof.
  assert (Hins : forall x l, Permutation (insert_sorted cmp x l) (x :: l)).
  { clear l. intros x l. induction l as [|y l IH]; [reflexivity|].
    cbn [insert_sorted]. destruct (positive (cmp x y)); [|reflexivity].
    rewrite IH. apply perm_swap. }
  induction l as [|x l IH]; [reflexivity|].
  cbn [sort]. rewrite Hins. now constructor.
Qed.

Lemma ge_or_zero (s m : jsnum) :
  s <> NaN -> ge (or_zero s) m = true -> ge s m = true.
Proof.
  intros Hs. unfold or_zero.
  destruct s as [| | |q]; cbn [truthy_num]; try tauto.
  destruct (Qeq_bool q 0) eqn:Hq; cbn [negb]; [|tauto].
  apply Qeq_bool_iff in Hq.
  destruct m as [| | |y]; cbn [ge zero]; try tauto.
  rewrite !Qle_bool_iff. intros H. now rewrite Hq.
Qed.

Lemma analyze_each_scored (w : env) (topic : string) (cs : list lead)
    (l : log) :
  exists rs l',
    analyze_each w cs topic l = (Return rs, l') /\
    length rs = length cs /\ Forall scored rs.
Proof.
  revert l. induction cs as [|c cs IH]; intros l.
  - exists [], l. repeat split; constructor.
  - cbn [analyze_each]. unfold_M.
    destruct (analyzeCompanyRelevance_returns w c
                (or_default (websiteContent c) EmptyString) topic l)
      as (v & l1 & Hv & Hscore).
    rewrite Hv.
    destruct (IH l1) as (rs & l' & Hrs & Hlen & Hall). rewrite Hrs.
    eexists _, l'. split; [reflexivity|]. split; [simpl; now rewrite Hlen|].
    constructor; [|exact Hall].
    exists (score v). now split.
Qed.

Lemma analyzeCompanies_scored (w : env) (topic : string) (cs : list lead)
    (l : log) :
  exists rs l',
    analyzeCompanies w cs topic l = (Return rs, l') /\
    length rs = length cs /\ Forall scored rs.
Proof.
  destruct (analyze_each_scored w topic cs l) as (rs & l' & Hrs & Hlen & Hall).
  unfold analyzeCompanies. unfold_M. rewrite Hrs.
  eexists _, l'. split; [reflexivity|].
  split.
  - now rewrite (Permutation_length (sort_Permutation _ rs)).
  - now rewrite (sort_Permutation _ rs).
Qed.

Lemma analysis_step_scored (w : env) (enable : value) (topic : string)
    (cs : list lead) (l : log) :
  exists rs l',
    analysis_step w enable topic cs l = (Return rs, l') /\
    length rs = length cs /\
    (truthy enable = true -> Forall scored rs).
Proof.
  unfold analysis_step. destruct (truthy enable).
  - destruct (analyzeCompanies_scored w topic cs l)
      as (rs & l' & Hrs & Hlen & Hall).
    exists rs, l'. auto.
  - exists cs, l. repeat split. discriminate.
Qed.

Lemma scrape_step_length (w : env) (enable : value) (ls : list lead)
    (l l' : log) (out : list lead) :
  scrape_step w enable ls l = (Return out, l') -> length out = length ls.
Proof.
  unfold scrape_step.
  destruct (truthy enable); [|unfold_M; now intros [= <- _]].
  destruct (0 <? _)%nat; [|unfold_M; now intros [= <- _]].
  unfold_M. destruct (scrapeMultiple _ _ _ _) as [[data|e|] l1];
    try discriminate.
  intros [= <- _]. now rewrite length_map.
Qed.

Lemma filter_step_spec (enable minimum : value) (ls : list lead) :
  (length (filter_step enable minimum ls) <= length ls)%nat /\
  (truthy enable = true ->
   Forall scored ls ->
   Forall (fun d => exists s, relevanceScore d = Some s /\
                              ge s (parseFloat minimum) = true)
          (filter_step enable minimum ls)).
Proof.
  split; [apply List.filter_length_le|].
  intros Hen Hall. unfold filter_step. rewrite Hen. cbn [negb orb].
  induction Hall as [|d ls (s & Hs & Hnum) _ IH]; [constructor|].
  cbn [List.filter]. rewrite Hs. cbn [to_number].
  destruct (ge (or_zero s) (parseFloat minimum)) eqn:Hge; [|exact IH].
  constructor; [|exact IH].
  exists s. split; [exact Hs|]. now apply ge_or_zero.
Qed.

Lemma first_leads_of_first (n : nat) (leads : list lead) :
  slice 0 (Nat.min (length (take n leads)) n) (take n leads)
  = slice 0 (Nat.min (length leads) n) leads.
Proof.
  unfold slice. rewrite !drop_0, !Nat.sub_0_r, length_take, take_take.
  f_equal. lia.
Qed.

(** Leads beyond the fiftieth have no part in a run: without them the
    requests made and the response are the same, [total_input] apart. *)
Lemma enrichLeads_first_50 (w : env) (body : enrich_body) (leads : list lead)
    (l : log) :
  b_leads body = Some leads ->
  enrichLeads w (keep_first 50 body) l
  = with_total_input (length (take 50 leads)) (enrichLeads w body l).
Proof.
  intros Hleads. unfold enrichLeads, keep_first.
  cbn [b_leads b_topic b_icp_description b_min_relevance_score
       b_enable_website_scraping b_enable_ai_analysis].
  rewrite Hleads. cbn [option_map].
  destruct leads as [|x xs]; [reflexivity|].
  change (take 50 (x :: xs)) with (x :: take 49 xs). cbv beta iota.
  change (x :: take 49 xs) with (take 50 (x :: xs)).
  destruct (negb _ && negb _); [reflexivity|].
  rewrite first_leads_of_first.
  replace (Nat.min (length (take 50 (x :: xs))) 50)
    with (Nat.min (length (x :: xs)) 50) by (rewrite length_take; lia).
  unfold_M.
  destruct (scrape_step _ _ _ _) as [[a|e|] l1]; try reflexivity.
  destruct (analysis_step _ _ _ _ _) as [[b|e|] l2]; reflexivity.
Qed.

(** C1: when a request succeeds, only the first 50 leads were processed
    (the data and the requests made are those of the request cut to its
    first 50 leads), the list returned is no longer than min(len, 50), and,
    if the AI analysis is enabled, each lead returned has a relevance score
    that is at least [min_relevance_score], 5 by default. *)
Theorem enrichLeads_cap_and_threshold (w : env) (body : enrich_body)
    (l l' : log) (data : list lead) (md : metadata) :
  enrichLeads w body l = (Return (Success data md), l') ->
  exists leads,
    b_leads body = Some leads /\
    total_processed md = Nat.min (length leads) 50 /\
    (length data <= Nat.min (length leads) 50)%nat /\
    (exists md',
       enrichLeads w (keep_first 50 body) l = (Return (Success data md'), l')) /\
    (truthy (with_default (VBool true) (b_enable_ai_analysis body)) = true ->
     Forall (fun d =>
               exists s,
                 relevanceScore d = Some s /\
                 ge s (parseFloat (with_default (VNum (Fin 5))
                                     (b_min_relevance_score body))) = true)
            data).
Proof.
  intros Hrun. pose proof Hrun as H. unfold enrichLeads in H.
  destruct (b_leads body) as [leads|] eqn:Hleads;
    [|unfold_M; discriminate].
  exists leads. split; [reflexivity|].
  pose proof (enrichLeads_first_50 w body leads l Hleads) as Hcut.
  rewrite Hrun in Hcut. cbn [with_total_input] in Hcut.
  destruct leads as [|x xs]; [unfold_M; discriminate|].
  destruct (negb _ && negb _); [unfold_M; discriminate|].
  unfold_M.
  destruct (scrape_step _ _ _ _) as [[a|e|] l1] eqn:E1; try discriminate.
  destruct (analysis_step_scored w
              (with_default (VBool true) (b_enable_ai_analysis body))
              (or_empty (or_str (b_topic body) (b_icp_description body))) a l1)
    as (b & l2 & E2 & Hlen & Hscored).
  rewrite E2 in H. injection H as Hdata Hmd Hl'. subst data md l'.
  apply scrape_step_length in E1.
  destruct (filter_step_spec
              (with_default (VBool true) (b_enable_ai_analysis body))
              (with_default (VNum (Fin 5)) (b_min_relevance_score body)) b)
    as [Hle Hge].
  split; [reflexivity|]. split; [|split].
  - unfold sort_step.
    rewrite (Permutation_length (sort_Permutation _ _)).
    unfold slice in E1. rewrite drop_0, Nat.sub_0_r, length_take in E1. lia.
  - eexists. exact Hcut.
  - intros Hen. unfold sort_step.
    rewrite (sort_Permutation _ _). apply Hge; auto.
Qed.

Lemma enrichLeads_cap_and_threshold_witness :
  exists data md l',
    enrichLeads (world_answering (Some "sk-test") (Answer good_fit_response))
      (plain_body [ bare_lead "Acme" (Some "https://acme.com");
                    bare_lead "Bakery" None ] VUndef)
      no_requests = (Return (Success data md), l') /\
    (length data <= 50)%nat /\
    Forall (fun d => exists s, relevanceScore d = Some s /\
                               ge s (Fin (inject_Z 5)) = true) data.
Proof.
  assert (exists data md l',
            enrichLeads
              (world_answering (Some "sk-test") (Answer good_fit_response))
              (plain_body [ bare_lead "Acme" (Some "https://acme.com");
                            bare_lead "Bakery" None ] VUndef)
              no_requests = (Return (Success data md), l'))
    as (data & md & l' & Hrun) by (vm_compute; eauto).
  destruct (enrichLeads_cap_and_threshold _ _ _ _ _ _ Hrun)
    as (leads & Hleads & _ & Hlen & _ & Hge).
  exists data, md, l'. split; [exact Hrun|]. split; [lia|].
  exact (Hge eq_refl).
Defined.

(** *** C8: the cache *)

Section CacheLaws.
Import Cache.
Variables (domain topic : string) (table : gmap (string * string) row).

(** On a key that has no row, a lookup less than seven days after the
    upsert returns what was written. *)
Lemma upsert_then_lookup_new_key (t1 t2 : Z) (v : value) (s : jsnum) :
  table !! (domain, topic) = None ->
  t2 - days 7 < t1 ->
  exists r,
    fst (findByDomain t2 domain topic (snd (upsert t1 domain topic v s table)))
    = Some r /\
    analysis_data r = v /\ relevance_score r = s.
Proof.
  intros Hnew Hfresh. unfold upsert, findByDomain. rewrite Hnew.
  cbn [snd]. rewrite lookup_insert_eq. cbn [created_at].
  replace (t2 - days 7 <? t1) with true by (symmetry; apply Z.ltb_lt; lia).
  eexists. split; [reflexivity|]. split; reflexivity.
Qed.

(** The freshness of a row is counted from its [created_at], which an
    upsert on an existing row leaves as it was. *)
Lemma upsert_keeps_created_at (t1 : Z) (v : value) (s : jsnum) (old : row) :
  table !! (domain, topic) = Some old ->
  created_at (fst (upsert t1 domain topic v s table)) = created_at old /\
  analysis_data (fst (upsert t1 domain topic v s table)) = v /\
  hit_count (fst (upsert t1 domain topic v s table)) = hit_count old + 1 /\
  snd (upsert t1 domain topic v s table) !! (domain, topic)
  = Some (fst (upsert t1 domain topic v s table)).
Proof.
  intros Hold. unfold upsert. rewrite Hold. cbn [fst snd].
  rewrite lookup_insert_eq. repeat split.
Qed.

(** Seven days after [created_at] a lookup misses, and the row stays. *)
Lemma lookup_after_window (now : Z) (r : row) :
  table !! (domain, topic) = Some r ->
  created_at r + days 7 <= now ->
  findByDomain now domain topic table = (None, table).
Proof.
  intros Hr Hold. unfold findByDomain. rewrite Hr.
  now replace (now - days 7 <? created_at r) with false
    by (symmetry; apply Z.ltb_ge; lia).
Qed.

End CacheLaws.

(** C8 at the failing input: a row created at time 0 is still in the table
    eight days later; an upsert then writes the new analysis into it, and a
    lookup one second after that upsert misses, with the row, new analysis
    and old [created_at], still in the table. *)
Theorem upsert_on_stale_row_is_not_served :
  let written :=
    Cache.upsert (Cache.days 8) "acme.com" "cloud infrastructure"
      (VStr "second analysis") (Fin (inject_Z 8)) stale_table in
  Cache.analysis_data (fst written) = VStr "second analysis" /\
  Cache.created_at (fst written) = 0 /\
  snd written !! ("acme.com", "cloud infrastructure") = Some (fst written) /\
  Cache.findByDomain (Cache.days 8 + 1000000) "acme.com" "cloud infrastructure"
    (snd written) = (None, snd written).
Proof.
  intros written.
  assert (Hold : stale_table !! ("acme.com", "cloud infrastructure")
                 = Some stale_row) by apply lookup_singleton_eq.
  destruct (upsert_keeps_created_at "acme.com" "cloud infrastructure"
              stale_table (Cache.days 8) (VStr "second analysis")
              (Fin (inject_Z 8)) stale_row Hold) as (Hc & Hv & _ & Hrow).
  fold written in Hc, Hv, Hrow.
  split; [exact Hv|]. split; [exact Hc|]. split; [exact Hrow|].
  eapply lookup_after_window; [exact Hrow|].
  rewrite Hc. unfold Cache.days. simpl. lia.
Qed.

(* ===================================================================== *)
(** ** Further properties of the code *)
(* ===================================================================== *)

(** *** Sorting by score *)

Lemma ge_trans (x y z : jsnum) :
  ge x y = true -> ge y z = true -> ge x z = true.
Proof.
  destruct x as [| | |a], y as [| | |b], z as [| | |c]; cbn [ge];
    try discriminate; try reflexivity.
  rewrite !Qle_bool_iff. intros H1 H2. now apply (Qle_trans _ b).
Qed.

Lemma positive_sub_true (x y : jsnum) :
  positive (sub y x) = true -> ge y x = true.
Proof.
  destruct x as [| | |a], y as [| | |b]; cbn [sub positive ge];
    try discriminate; try reflexivity.
  intros H. apply negb_true_iff in H. apply Qle_bool_iff.
  destruct (Qlt_le_dec 0 (b - a)) as [Hlt|Hle].
  - apply Qlt_le_weak, Qlt_minus_iff. exact Hlt.
  - assert (Hq : Qle_bool (Qred (b - a)) 0 = true).
    { apply Qle_bool_iff. now rewrite Qred_correct. }
    congruence.
Qed.

Lemma positive_sub_false (x y : jsnum) :
  x <> NaN -> y <> NaN -> positive (sub y x) = false -> ge x y = true.
Proof.
  destruct x as [| | |a], y as [| | |b]; cbn [sub positive ge];
    try discriminate; try reflexivity; try tauto.
  intros _ _ H. apply negb_false_iff, Qle_bool_iff in H.
  rewrite Qred_correct in H. apply Qle_bool_iff.
  apply Qle_minus_iff. apply Qle_minus_iff in H.
  assert (E : (0 + - (b - a) == a + - b)%Q) by ring.
  now rewrite <- E.
Qed.

Lemma sort_Permutation_insert {A : Type} (cmp : A -> A -> jsnum) (x : A)
    (l : list A) :
  Permutation (insert_sorted cmp x l) (x :: l).
Proof.
  induction l as [|y l IH]; [reflexivity|].
  cbn [insert_sorted]. destruct (positive (cmp x y)); [|reflexivity].
  rewrite IH. apply perm_swap.
Qed.

Section Descending.
Context {A : Type} (key : A -> jsnum).

Lemma insert_sorted_descending (x : A) (l : list A) :
  key x <> NaN -> Forall (fun a => key a <> NaN) l ->
  descending key l ->
  descending key (insert_sorted (fun a b => sub (key b) (key a)) x l).
Proof.
  intros Hx Hl Hs. unfold descending in *.
  induction Hs as [|y l Hs IH Hy]; cbn [insert_sorted].
  - repeat constructor.
  - apply Forall_cons in Hl as [Hny Hl].
    destruct (positive (sub (key y) (key x))) eqn:Hp.
    + constructor; [now apply IH|].
      rewrite (sort_Permutation_insert (fun a b => sub (key b) (key a)) x l).
      constructor; [now apply positive_sub_true|exact Hy].
    + constructor; [now constructor|].
      pose proof (positive_sub_false _ _ Hx Hny Hp) as Hxy.
      constructor; [exact Hxy|].
      eapply Forall_impl; [exact Hy|].
      intros z Hz. cbn beta in Hz. now apply (ge_trans _ (key y)).
Qed.

(** [arr.sort((a, b) => key(b) - key(a))] orders by [key], highest first,
    when no key is NaN. *)
Lemma sort_descending (l : list A) :
  Forall (fun a => key a <> NaN) l ->
  descending key (sort (fun a b => sub (key b) (key a)) l).
Proof.
  induction 1 as [|x l Hx Hl IH]; [constructor|].
  cbn [sort]. apply insert_sorted_descending; [exact Hx| |exact IH].
  now rewrite (sort_Permutation _ l).
Qed.

End Descending.

(** *** The oracle calls of the graded analysis *)

Lemma callAI_unsupported (w : env) (p : prompt) (l : log) :
  supported w = false -> callAI w p l = (Throw "Unsupported AI provider", l).
Proof.
  unfold supported, callAI. intros H.
  apply orb_false_iff in H as [-> ->]. reflexivity.
Qed.

Lemma callAIFlexible_unsupported (w : env) (p : prompt) (l : log) :
  supported w = false ->
  callAIFlexible w p l = (Throw "Unsupported AI provider", l).
Proof.
  unfold supported, callAIFlexible. intros H.
  apply orb_false_iff in H as [-> ->]. reflexivity.
Qed.

Lemma callAI_effect (w : env) (p : prompt) (l l' : log) (o : outcome string) :
  callAI w p l = (o, l') ->
  gets l' = gets l /\ (length (posts l') <= S (length (posts l)))%nat.
Proof.
  unfold callAI.
  destruct (String.eqb (provider w) "openai");
    [|destruct (String.eqb (provider w) "anthropic")];
    unfold axios_post, throw; intros [= _ <-]; cbn [gets posts];
    rewrite ?length_app; cbn [length]; split; auto; lia.
Qed.

Lemma callAIFlexible_effect (w : env) (p : prompt) (l l' : log)
    (o : outcome string) :
  callAIFlexible w p l = (o, l') ->
  gets l' = gets l /\ (length (posts l') <= S (length (posts l)))%nat.
Proof.
  unfold callAIFlexible.
  destruct (String.eqb (provider w) "openai");
    [|destruct (String.eqb (provider w) "anthropic")];
    unfold axios_post, throw; intros [= _ <-]; cbn [gets posts];
    rewrite ?length_app; cbn [length]; split; auto; lia.
Qed.

Lemma analyzeCompanyRelevance_effects (w : env) (company : lead)
    (content topic : string) (l : log) :
  exists v l',
    analyzeCompanyRelevance w company content topic l = (Return v, l') /\
    score v <> NaN /\
    gets l' = gets l /\
    (length (posts l') <= S (length (posts l)))%nat /\
    (truthy_str (apiKey w) = false -> v = not_configured /\ l' = l) /\
    (truthy_str (apiKey w) = true -> supported w = false ->
     v = analysis_failed "Unsupported AI provider" /\ l' = l).
Proof.
  destruct (analyzeCompanyRelevance_returns w company content topic l)
    as (v & l' & Hrun & Hscore).
  exists v, l'. split; [exact Hrun|]. split; [exact Hscore|].
  revert Hrun. unfold analyzeCompanyRelevance.
  destruct (truthy_str (apiKey w)); cbn [negb].
  - unfold_M.
    destruct (callAI w (buildAnalysisPrompt company content topic) l)
      as [[r|e|] l1] eqn:Hcall.
    + destruct (callAI_effect _ _ _ _ _ Hcall) as [Hg Hp].
      destruct (parseAnalysisResponse r) as [v0|e|]; intros [= <- <-];
        (split; [exact Hg|]); (split; [exact Hp|]);
        (split; [discriminate|]); intros _ Hu;
        rewrite (callAI_unsupported _ _ _ Hu) in Hcall; discriminate.
    + destruct (callAI_effect _ _ _ _ _ Hcall) as [Hg Hp].
      intros [= <- <-]. split; [exact Hg|]. split; [exact Hp|].
      split; [discriminate|]. intros _ Hu.
      rewrite (callAI_unsupported _ _ _ Hu) in Hcall.
      injection Hcall as <- <-. auto.
    + destruct (callAI_settles w (buildAnalysisPrompt company content topic) l)
        as [(r & l2 & H)|(e & l2 & H)]; rewrite H in Hcall; discriminate.
  - unfold_M. intros [= <- <-]. split; [reflexivity|]. split; [lia|].
    split; [auto|discriminate].
Qed.

Lemma analyze_each_effects (w : env) (topic : string) (cs : list lead)
    (l : log) :
  exists vs l',
    analyze_each w cs topic l = (Return (zip_with with_analysis cs vs), l') /\
    length vs = length cs /\
    Forall (fun v => score v <> NaN) vs /\
    gets l' = gets l /\
    (length (posts l') <= length (posts l) + length cs)%nat /\
    (truthy_str (apiKey w) = false ->
     Forall (fun v => v = not_configured) vs /\ l' = l) /\
    (truthy_str (apiKey w) = true -> supported w = false ->
     Forall (fun v => v = analysis_failed "Unsupported AI provider") vs /\
     l' = l).
Proof.
  revert l. induction cs as [|c cs IH]; intros l.
  - exists [], l. cbn. unfold_M.
    split; [reflexivity|]. split; [reflexivity|]. split; [constructor|].
    split; [reflexivity|]. split; [lia|]. split; intros; split; auto.
  - destruct (analyzeCompanyRelevance_effects w c
                (or_default (websiteContent c) EmptyString) topic l)
      as (v & l1 & Hv & Hs & Hg & Hp & Hkey & Hprov).
    destruct (IH l1) as (vs & l' & Hvs & Hlen & Hall & Hg' & Hp' & Hkey' & Hprov').
    exists (v :: vs), l'. cbn [analyze_each]. unfold_M. rewrite Hv, Hvs.
    split; [reflexivity|]. split; [cbn; now rewrite Hlen|].
    split; [now constructor|]. split; [congruence|].
    split; [cbn [length]; lia|]. split.
    + intros Hk. destruct (Hkey Hk) as [-> ->].
      destruct (Hkey' Hk) as [Hf ->]. split; [now constructor|reflexivity].
    + intros Hk Hu. destruct (Hprov Hk Hu) as [-> ->].
      destruct (Hprov' Hk Hu) as [Hf ->]. split; [now constructor|reflexivity].
Qed.

Lemma scores_are_numbers (cs : list lead) (vs : list verdict) :
  Forall (fun v => score v <> NaN) vs ->
  Forall (fun a => to_number (relevanceScore a) <> NaN)
         (zip_with with_analysis cs vs).
Proof.
  intros H. revert cs. induction H as [|v vs Hv _ IH]; intros [|c cs];
    cbn [zip_with]; constructor; auto.
Qed.

Lemma analyze_each_in_turn (w : env) (topic : string) (cs : list lead) :
  forall (i : nat) (l l' : log) (vs : list verdict),
    length vs = length cs ->
    analyze_each w cs topic l = (Return (zip_with with_analysis cs vs), l') ->
    run_each (fun _ c => analyzeCompanyRelevance w c
                           (or_default (websiteContent c) EmptyString) topic)
      cs i l = (Return vs, l').
Proof.
  induction cs as [|c cs IH]; intros i l l' [|v vs] Hlen; try discriminate.
  - cbn. unfold_M. now intros [= <-].
  - cbn [analyze_each run_each zip_with]. unfold_M.
    destruct (analyzeCompanyRelevance_returns w c
                (or_default (websiteContent c) EmptyString) topic l)
      as (v0 & l1 & Hv & _).
    rewrite Hv.
    destruct (analyze_each w cs topic l1) as [[rs| |] l2] eqn:Hrest;
      try discriminate.
    intros H. injection H as Hv0 _ Hrs Hl. subst v0 rs l'.
    rewrite (IH (S i) l1 l2 vs) by (cbn in Hlen; auto; lia). reflexivity.
Qed.

(** X1: [analyzeCompanies] never throws; with the verdicts that
    [analyzeCompanyRelevance] gives on the companies taken one after the
    other, each on its own [websiteContent], it returns each company once,
    with its verdict as [aiAnalysis] and the score of that verdict as
    [relevanceScore], ordered by score from the highest to the lowest; it
    fetches nothing and asks the oracle at most once per company. *)
Theorem analyzeCompanies_ranks (w : env) (companies : list lead)
    (topic : string) (l : log) :
  exists results verdicts l',
    analyzeCompanies w companies topic l = (Return results, l') /\
    run_each (fun _ c => analyzeCompanyRelevance w c
                           (or_default (websiteContent c) EmptyString) topic)
      companies 0 l = (Return verdicts, l') /\
    length verdicts = length companies /\
    Permutation results (zip_with with_analysis companies verdicts) /\
    descending (fun a => to_number (relevanceScore a)) results /\
    gets l' = gets l /\
    (length (posts l') <= length (posts l) + length companies)%nat.
Proof.
  destruct (analyze_each_effects w topic companies l)
    as (vs & l' & Hrun & Hlen & Hall & Hg & Hp & _).
  eexists _, vs, l'. unfold analyzeCompanies. unfold_M. rewrite Hrun.
  split; [reflexivity|].
  split; [now apply analyze_each_in_turn|]. split; [exact Hlen|].
  split; [apply sort_Permutation|].
  split; [|auto].
  apply (sort_descending (fun a => to_number (relevanceScore a))).
  now apply scores_are_numbers.
Qed.

(** *** The scraper *)

Lemma scrapeWebsite_effects (w : env) (url : string) (l : log) :
  exists o,
    scrapeWebsite w url l
    = (Return o,
       {| gets := gets l ++ (if startsWith "http" url then [url] else []);
          posts := posts l |}) /\
    (forall sc, o = Some sc ->
       sc_url sc = url /\ startsWith "http" url = true /\
       (len (sc_content sc) <= 5000)%nat /\
       exists hs, sc_headings sc = join " | " hs /\
                  (length hs <= 10)%nat /\
                  Forall (fun h => h <> EmptyString) hs) /\
    (forall e, http_get w (length (gets l)) url = Failure e -> o = None) /\
    (forall doc, startsWith "http" url = true ->
       http_get w (length (gets l)) url = Answer doc -> o <> None).
Proof.
  destruct (startsWith "http" url) eqn:Hh.
  - unfold scrapeWebsite. rewrite Hh.
    destruct url as [|c url]; [discriminate|].
    cbn [is_empty orb negb]. unfold_M. unfold axios_get, toISOString_now.
    destruct (http_get w (length (gets l)) (String c url)) as [doc|e];
      cbn [settle].
    + eexists. split; [reflexivity|].
      split; [|split; [discriminate|discriminate]].
      intros sc [= <-]. cbn [sc_url sc_content sc_headings].
      split; [reflexivity|]. split; [reflexivity|]. split.
      * rewrite substring_from_0, len_take_str. lia.
      * exists (collect_headings (heading_texts doc)).
        split; [reflexivity|]. unfold collect_headings. split.
        -- rewrite length_take. lia.
        -- apply Forall_take. apply Forall_forall. intros h Hin.
           apply list_elem_of_In, List.filter_In in Hin as [_ Hne].
           destruct h; [discriminate|discriminate].
    + exists None. split; [reflexivity|]. split; [discriminate|].
      split; [reflexivity|discriminate].
  - exists None. rewrite (scrapeWebsite_invalid w url l Hh).
    split; [destruct l; cbn; now rewrite app_nil_r|].
    split; [discriminate|]. split; [reflexivity|discriminate].
Qed.

(** X2: [scrapeWebsite] never throws and never asks the oracle; it makes one
    GET when the URL begins with "http" and none otherwise; a GET that
    fails gives null; a page it returns carries the URL asked for, a content
    of at most 5000 characters, and at most ten headings, none empty. *)
Theorem scrapeWebsite_bounds (w : env) (url : string) (l : log) :
  exists o l',
    scrapeWebsite w url l = (Return o, l') /\
    posts l' = posts l /\
    gets l' = gets l ++ (if startsWith "http" url then [url] else []) /\
    (forall e, http_get w (length (gets l)) url = Failure e -> o = None) /\
    (forall sc, o = Some sc ->
       sc_url sc = url /\
       (len (sc_content sc) <= 5000)%nat /\
       exists hs, sc_headings sc = join " | " hs /\
                  (length hs <= 10)%nat /\
                  Forall (fun h => h <> EmptyString) hs).
Proof.
  destruct (scrapeWebsite_effects w url l) as (o & Hrun & Hsc & Hfail & _).
  eexists o, _. split; [exact Hrun|]. split; [reflexivity|].
  split; [reflexivity|]. split; [exact Hfail|].
  intros sc Ho. destruct (Hsc sc Ho) as (Hu & _ & Hc & Hh). auto.
Qed.

Lemma fulfilled_values_some {A : Type} (a : A) (os : list (outcome (option A))) :
  fulfilled_values (Return (Some a) :: os) = a :: fulfilled_values os.
Proof. reflexivity. Qed.

Lemma fulfilled_values_none {A : Type} (os : list (outcome (option A))) :
  fulfilled_values (Return None :: os) = fulfilled_values os.
Proof. reflexivity. Qed.

Lemma allSettled_scrapes (w : env) (batch : list string) (l : log) :
  exists os,
    allSettled (map (scrapeWebsite w) batch) l
    = (Return os,
       {| gets := gets l ++ List.filter (startsWith "http") batch;
          posts := posts l |}) /\
    sublist (map sc_url (fulfilled_values os)) batch /\
    Forall (fun s => startsWith "http" (sc_url s) = true) (fulfilled_values os).
Proof.
  revert l. induction batch as [|u batch IH]; intros l.
  - exists []. cbn. unfold_M. rewrite app_nil_r. destruct l.
    repeat split; constructor.
  - destruct (scrapeWebsite_effects w u l) as (o & Hrun & Hsc & _).
    destruct (IH {| gets := gets l ++ (if startsWith "http" u then [u] else []);
                    posts := posts l |}) as (os & Hos & Hsub & Hall).
    exists (Return o :: os). cbn [map allSettled]. rewrite Hrun. unfold_M.
    rewrite Hos. cbn [gets posts List.filter].
    split.
    { f_equal. f_equal. rewrite <- app_assoc. f_equal.
      now destruct (startsWith "http" u). }
    destruct o as [sc|];
      rewrite ?fulfilled_values_some, ?fulfilled_values_none; cbn [map].
    + destruct (Hsc sc eq_refl) as (Hu & Hh & _).
      split; [rewrite Hu; now constructor|].
      constructor; [now rewrite Hu|exact Hall].
    + split; [now constructor|exact Hall].
Qed.

Lemma scrape_from_results (w : env) (urls : list string) (concurrency : nat) :
  (0 < concurrency)%nat ->
  forall fuel i results l,
    (length urls - i <= fuel)%nat ->
    exists rs,
      scrape_from w fuel urls concurrency i results l
      = (Return (results ++ rs),
         {| gets := gets l ++ List.filter (startsWith "http") (drop i urls);
            posts := posts l |}) /\
      sublist (map sc_url rs) (drop i urls) /\
      Forall (fun s => startsWith "http" (sc_url s) = true) rs.
Proof.
  intros Hc. induction fuel as [|fuel IH]; intros i results l Hfuel.
  - exists []. cbn [scrape_from].
    replace (length urls <=? i)%nat with true
      by (symmetry; apply Nat.leb_le; lia).
    rewrite drop_ge by lia. cbn. unfold_M. rewrite !app_nil_r. destruct l.
    repeat split; constructor.
  - cbn [scrape_from].
    destruct (length urls <=? i)%nat eqn:Hle.
    + apply Nat.leb_le in Hle. exists []. rewrite drop_ge by lia.
      cbn. unfold_M. rewrite !app_nil_r. destruct l. repeat split; constructor.
    + apply Nat.leb_gt in Hle. rewrite slice_take_drop.
      destruct (allSettled_scrapes w (take concurrency (drop i urls)) l)
        as (os & Hos & Hsub & Hall).
      unfold_M. rewrite Hos.
      destruct (IH (i + concurrency)%nat
                  (results ++ fulfilled_values os)
                  {| gets := gets l ++ List.filter (startsWith "http")
                                         (take concurrency (drop i urls));
                     posts := posts l |})
        as (rs & Hrs & Hsub' & Hall'); [lia|].
      exists (fulfilled_values os ++ rs). rewrite Hrs. cbn [gets posts].
      split.
      { rewrite <- !app_assoc. do 3 f_equal.
        rewrite <- List.filter_app, <- drop_drop, take_drop. reflexivity. }
      split.
      * rewrite map_app, <- (take_drop concurrency (drop i urls)), drop_drop.
        now apply sublist_app.
      * now apply Forall_app.
Qed.

(** X3: with a window of at least one URL, [scrapeMultiple] returns, never
    throws and never asks the oracle; it makes one GET for each URL that
    begins with "http", in the order of the input, and none for the others;
    the pages it returns are pages of input URLs, in the order of the
    input, a failed fetch leaving no entry. *)
Theorem scrapeMultiple_results (w : env) (urls : list string)
    (concurrency : nat) (l : log) :
  (0 < concurrency)%nat ->
  exists results l',
    scrapeMultiple w urls concurrency l = (Return results, l') /\
    sublist (map sc_url results) urls /\
    Forall (fun s => startsWith "http" (sc_url s) = true) results /\
    gets l' = gets l ++ List.filter (startsWith "http") urls /\
    posts l' = posts l.
Proof.
  intros Hc.
  destruct (scrape_from_results w urls concurrency Hc (length urls) 0 [] l)
    as (rs & Hrun & Hsub & Hall); [lia|].
  rewrite drop_0 in *. exists rs. eexists. unfold scrapeMultiple.
  rewrite Hrun. cbn [app gets posts]. auto.
Qed.

Lemma scrapeMultiple_results_witness :
  exists results l',
    scrapeMultiple (world_answering None (Answer "YES"))
      ["https://acme.com"; "acme.org"; "http://acme.net"] 5 no_requests
    = (Return results, l') /\
    map sc_url results = ["https://acme.com"; "http://acme.net"] /\
    gets l' = ["https://acme.com"; "http://acme.net"].
Proof.
  destruct (scrapeMultiple_results (world_answering None (Answer "YES"))
              ["https://acme.com"; "acme.org"; "http://acme.net"] 5
              no_requests ltac:(lia))
    as (results & l' & Hrun & _ & _ & Hgets & _).
  exists results, l'. split; [exact Hrun|]. split; [|exact Hgets].
  vm_compute in Hrun. injection Hrun as <- _. reflexivity.
Defined.

Lemma trimEnd_nonempty (c : ascii) (s : string) :
  is_ws c = false -> is_empty (trimEnd (String c s)) = false.
Proof.
  intros Hc. destruct (trimEnd_cons c s) as [(_ & _ & Hw)|E];
    [congruence|now rewrite E].
Qed.

Lemma not_blank (c : ascii) (s : string) :
  is_ws c = false -> is_blank (String c s) = false.
Proof.
  intros Hc. unfold is_blank, trim. cbn [is_empty orb trimStart].
  rewrite Hc. now apply trimEnd_nonempty.
Qed.

Lemma join_cons_cons (sep p q : string) (rest : list string) :
  join sep (p :: q :: rest) = p +:+ sep +:+ join sep (q :: rest).
Proof. reflexivity. Qed.

Lemma label_kept (label v : string) :
  (10 < len label)%nat -> (10 <? len (label +:+ v))%nat = true.
Proof. intros H. apply Nat.ltb_lt. rewrite len_append. lia. Qed.

(** The text made of a scraped page is never blank: the description and
    key-sections lines are always in it. *)
Lemma extract_not_blank (sc : scraped) :
  is_blank (extractTextForAnalysis (Some sc)) = false.
Proof.
  unfold extractTextForAnalysis. cbn [List.filter].
  rewrite (label_kept "Description: "), (label_kept "Key Sections: ")
    by (cbn; lia).
  destruct (10 <? len ("Title: " +:+ sc_title sc))%nat;
    rewrite join_cons_cons; apply not_blank; reflexivity.
Qed.

(** *** The binary topic check at work *)

Lemma callAIFlexible_supported (w : env) (p : prompt) (l : log) :
  supported w = true ->
  exists rq,
    rq_prompt rq = p /\ rq_flexible rq = true /\ rq_provider rq = provider w /\
    callAIFlexible w p l
    = (settle (ai_post w (length (posts l)) rq),
       {| gets := gets l; posts := posts l ++ [rq] |}).
Proof.
  unfold supported, callAIFlexible. intros H.
  destruct (String.eqb (provider w) "openai") eqn:E1.
  - apply String.eqb_eq in E1.
    exists {| rq_provider := "openai"; rq_flexible := true; rq_prompt := p |}.
    rewrite E1. repeat split.
  - destruct (String.eqb (provider w) "anthropic") eqn:E2; [|discriminate].
    apply String.eqb_eq in E2.
    exists {| rq_provider := "anthropic"; rq_flexible := true; rq_prompt := p |}.
    rewrite E2. repeat split.
Qed.

Lemma callAIFlexible_grows (w : env) (p : prompt) (l l' : log)
    (o : outcome string) :
  callAIFlexible w p l = (o, l') -> (length (posts l) <= length (posts l'))%nat.
Proof.
  unfold callAIFlexible.
  destruct (String.eqb (provider w) "openai");
    [|destruct (String.eqb (provider w) "anthropic")];
    unfold axios_post, throw; intros [= _ <-]; cbn [gets posts];
    rewrite ?length_app; lia.
Qed.

Lemma topic_prompt_content (url content topic : string) :
  (len (prompt_content (topic_prompt url content topic)) <= 3003)%nat.
Proof.
  unfold topic_prompt. cbn [prompt_content].
  destruct (Nat.ltb_spec 3000 (len content)).
  - rewrite len_append, substring_from_0, len_take_str.
    change (len "...") with 3%nat. lia.
  - lia.
Qed.

(** With a window of at least one company, the matcher returns what the
    units of work, run one after the other, give. *)
Lemma filterCompaniesByTopicParallel_run (w : env) (companies : list lead)
    (topic : string) (maxConcurrent : nat) (l : log) :
  (0 < maxConcurrent)%nat ->
  exists rs l',
    run_companies w topic companies l = (Return rs, l') /\
    filterCompaniesByTopicParallel w companies topic maxConcurrent l
    = (Return (map mr_company (List.filter is_yes rs)), l').
Proof.
  intros Hmc.
  destruct (process_from_run w topic companies maxConcurrent Hmc
              (length companies) 0 [] l) as (rs & l' & Hrun & Hloop); [lia|].
  rewrite drop_0 in Hrun.
  destruct (run_each_processCompany _ _ _ _ _ _ _ Hrun) as (Hcs & His & _).
  exists rs, l'. split; [exact Hrun|].
  unfold filterCompaniesByTopicParallel.
  destruct companies as [|c cs].
  - cbn in Hrun. unfold_M. now injection Hrun as <- <-.
  - unfold_M. rewrite Hloop. cbn [app].
    rewrite (sort_by_index_id rs 0).
    + reflexivity.
    + rewrite His. f_equal. rewrite <- Hcs. now rewrite length_map.
Qed.

Lemma flexible_request_eq (w : env) (rq : request) (p : prompt) :
  rq_prompt rq = p -> rq_flexible rq = true -> rq_provider rq = provider w ->
  rq = flexible_request w p.
Proof. destruct rq. cbn. now intros -> -> ->. Qed.

(** What [callAIFlexible] does, in terms of the provider. *)
Lemma callAIFlexible_run (w : env) (p : prompt) (l : log) :
  exists o,
    callAIFlexible w p l = (o, asked w p l) /\
    match oracle_says w p l with
    | Some response => o = Return response
    | None => exists e, o = Throw e
    end.
Proof.
  unfold oracle_says, asked. destruct (supported w) eqn:Hsup.
  - destruct (callAIFlexible_supported w p l Hsup)
      as (rq & Hp & Hf & Hw & Hcall).
    rewrite (flexible_request_eq w rq p Hp Hf Hw) in Hcall.
    eexists. split; [exact Hcall|].
    destruct (ai_post w (length (posts l)) (flexible_request w p));
      cbn [settle]; eauto.
  - rewrite (callAIFlexible_unsupported w p l Hsup). eauto.
Qed.

(** The binary check on a content that is not blank: the oracle is asked,
    and the verdict is whether its answer says yes. *)
Lemma checkCompanyTopicRelation_run (w : env) (url content topic : string)
    (l : log) :
  is_blank content = false ->
  checkCompanyTopicRelation w url content topic l
  = (Return (match oracle_says w (topic_prompt url content topic) l with
             | Some response => has_yes response
             | None => false
             end),
     asked w (topic_prompt url content topic) l).
Proof.
  intros Hb. unfold checkCompanyTopicRelation. fold (is_blank content).
  rewrite Hb. fold (topic_prompt url content topic). unfold_M.
  destruct (callAIFlexible_run w (topic_prompt url content topic) l)
    as (o & -> & Ho).
  destruct (oracle_says w (topic_prompt url content topic) l) as [r|].
  - subst o. now rewrite response_test.
  - destruct Ho as (e & ->). reflexivity.
Qed.

(** One unit of work of the matcher gives the verdict of the
    specification. *)
Lemma processCompany_unit (w : env) (topic : string) (c : lead) (i : nat)
    (l : log) :
  processCompany w topic c i l
  = (Return {| mr_company := c; mr_index := i;
               isRelated := related (fst (topic_match w topic c l)) |},
     snd (topic_match w topic c l)).
Proof.
  unfold processCompany, topic_match, has_url. fold (resolved_url c).
  destruct (truthy_str (resolved_url c)) eqn:Hurl; cbn [negb];
    [|reflexivity].
  fold (full_url c).
  destruct (scrapeWebsite_effects w (full_url c) l) as (o & Hs & _).
  unfold_M. rewrite Hs. destruct o as [sc|]; [|reflexivity].
  rewrite (checkCompanyTopicRelation_run _ _ _ _ _ (extract_not_blank sc)).
  cbn [fst snd].
  destruct (oracle_says _ _ _) as [r|]; [destruct (has_yes r)|]; reflexivity.
Qed.

Lemma run_each_topic_matches (w : env) (topic : string) (cs : list lead)
    (i : nat) (l : log) :
  exists rs,
    run_each (fun i c => processCompany w topic c i) cs i l
    = (Return rs, snd (topic_matches w topic cs l)) /\
    map mr_company (List.filter is_yes rs)
    = matched (fst (topic_matches w topic cs l)).
Proof.
  revert i l. induction cs as [|c cs IH]; intros i l.
  - exists []. split; reflexivity.
  - cbn [run_each topic_matches]. unfold_M. rewrite processCompany_unit.
    destruct (topic_match w topic c l) as [v l1]. cbn [fst snd].
    destruct (IH (S i) l1) as (rs & Hrs & Hm). rewrite Hrs.
    destruct (topic_matches w topic cs l1) as [vs l']. cbn [fst snd] in *.
    eexists. split; [reflexivity|].
    unfold matched in *. cbn [List.filter]. unfold is_yes at 1, is_Yes at 1.
    cbn [isRelated snd].
    destruct v; cbn [related map fst mr_company]; now rewrite Hm.
Qed.

Lemma topic_matches_companies (w : env) (topic : string) (cs : list lead)
    (l : log) :
  map fst (fst (topic_matches w topic cs l)) = cs /\
  Forall (fun cv => has_url (fst cv) = false -> snd cv = Unknown)
         (fst (topic_matches w topic cs l)).
Proof.
  revert l. induction cs as [|c cs IH]; intros l; [split; constructor|].
  cbn [topic_matches].
  destruct (topic_match w topic c l) as [v l1] eqn:Hv.
  destruct (IH l1) as [Hcs Hall].
  destruct (topic_matches w topic cs l1) as [vs l']. cbn [fst snd map] in *.
  split; [now rewrite Hcs|]. constructor; [|exact Hall].
  cbn [fst snd]. intros Hno. unfold topic_match in Hv. rewrite Hno in Hv.
  now injection Hv as <- _.
Qed.

(** C7: with a window of at least one company, the parallel matcher
    returns, never throws, and what it returns are exactly the companies
    whose verdict is Yes, in the order of the input: those that have a URL,
    whose site was fetched, and of whose text the oracle, asked, said yes.
    The requests made are those of the verdicts taken one company after the
    other.  A company without a URL has the verdict Unknown and is not
    among them. *)
Theorem filterCompaniesByTopicParallel_keeps_yes (w : env)
    (companies : list lead) (topic : string) (maxConcurrent : nat) (l : log) :
  (0 < maxConcurrent)%nat ->
  filterCompaniesByTopicParallel w companies topic maxConcurrent l
  = (Return (matched (fst (topic_matches w topic companies l))),
     snd (topic_matches w topic companies l)) /\
  map fst (fst (topic_matches w topic companies l)) = companies /\
  sublist (matched (fst (topic_matches w topic companies l))) companies /\
  Forall (fun cv => has_url (fst cv) = false -> snd cv = Unknown)
         (fst (topic_matches w topic companies l)).
Proof.
  intros Hmc.
  destruct (filterCompaniesByTopicParallel_run w companies topic maxConcurrent
              l Hmc) as (rs & l' & Hrun & Hout).
  destruct (run_each_topic_matches w topic companies 0 l) as (rs' & Hrs & Hm).
  unfold run_companies in Hrun. rewrite Hrs in Hrun.
  injection Hrun as <- <-. rewrite Hm in Hout.
  destruct (topic_matches_companies w topic companies l) as [Hcs Hall].
  split; [exact Hout|]. split; [exact Hcs|]. split; [|exact Hall].
  unfold matched. rewrite <- Hcs at 2. apply sublist_map_filter.
Qed.

Lemma filterCompaniesByTopicParallel_keeps_yes_witness :
  exists l',
    filterCompaniesByTopicParallel
      (world_answering (Some "sk-test") (Answer "Yes."))
      [bare_lead "Acme" (Some "acme.com"); bare_lead "Nameless" None]
      "cloud infrastructure" 10 no_requests
    = (Return [bare_lead "Acme" (Some "acme.com")], l') /\
    fst (topic_matches (world_answering (Some "sk-test") (Answer "Yes."))
           "cloud infrastructure"
           [bare_lead "Acme" (Some "acme.com"); bare_lead "Nameless" None]
           no_requests)
    = [(bare_lead "Acme" (Some "acme.com"), Yes);
       (bare_lead "Nameless" None, Unknown)] /\
    gets l' = ["https://acme.com"].
Proof.
  destruct (filterCompaniesByTopicParallel_keeps_yes
              (world_answering (Some "sk-test") (Answer "Yes."))
              [bare_lead "Acme" (Some "acme.com"); bare_lead "Nameless" None]
              "cloud infrastructure" 10 no_requests ltac:(lia))
    as (Hrun & _).
  eexists. split; [exact Hrun|]. split; reflexivity.
Defined.

(** X4: a company that has a URL and whose site answers always gets a
    verdict from the oracle step, whatever the page holds and whether or not
    an API key is configured: the text extracted from a page is never blank,
    so the check is never skipped.  [isRelated] is then true or false, never
    null: true exactly when the oracle answers and the answer says yes.
    With a provider that is a known one exactly one request is made to it,
    with any other none; the content sent is between 1 and 3003 characters
    long. *)
Theorem processCompany_asks_for_any_page (w : env) (topic : string)
    (c : lead) (i : nat) (l : log) (doc : page) :
  has_url c = true ->
  http_get w (length (gets l)) (full_url c) = Answer doc ->
  exists content,
    processCompany w topic c i l
    = (Return {| mr_company := c; mr_index := i;
                 isRelated :=
                   Some (match oracle_says w
                                 (TopicRelationPrompt (full_url c) topic content)
                                 {| gets := gets l ++ [full_url c];
                                    posts := posts l |} with
                         | Some response => has_yes response
                         | None => false
                         end) |},
       asked w (TopicRelationPrompt (full_url c) topic content)
         {| gets := gets l ++ [full_url c]; posts := posts l |}) /\
    (0 < len content <= 3003)%nat.
Proof.
  intros Hurl Hget. unfold has_url in Hurl.
  destruct (scrapeWebsite_effects w (full_url c) l)
    as (o & Hs & _ & _ & Hpage).
  rewrite (full_url_http c Hurl) in Hs.
  specialize (Hpage doc (full_url_http c Hurl) Hget).
  destruct o as [sc|]; [|contradiction].
  exists (prompt_content
            (topic_prompt (full_url c) (extractTextForAnalysis (Some sc)) topic)).
  split.
  - rewrite processCompany_unit. unfold topic_match, has_url.
    rewrite Hurl, Hs. cbn [fst snd]. unfold topic_prompt at 1 3.
    cbn [prompt_content]. fold (topic_prompt (full_url c)
                                  (extractTextForAnalysis (Some sc)) topic).
    destruct (oracle_says _ _ _) as [r|]; [destruct (has_yes r)|]; reflexivity.
  - split; [|apply topic_prompt_content].
    pose proof (extract_not_blank sc) as Hb.
    unfold topic_prompt. cbn [prompt_content].
    destruct (3000 <? len (extractTextForAnalysis (Some sc)))%nat.
    + rewrite len_append. change (len "...") with 3%nat. lia.
    + destruct (extractTextForAnalysis (Some sc)); [discriminate Hb|].
      lens. lia.
Qed.

Lemma processCompany_asks_for_any_page_witness :
  exists content,
    processCompany (world_answering None (Answer "yes")) "cloud infrastructure"
      (bare_lead "Acme" (Some "acme.com")) 0 no_requests
    = (Return {| mr_company := bare_lead "Acme" (Some "acme.com");
                 mr_index := 0; isRelated := Some true |},
       {| gets := ["https://acme.com"];
          posts := [ {| rq_provider := "openai"; rq_flexible := true;
                        rq_prompt :=
                          TopicRelationPrompt "https://acme.com"
                            "cloud infrastructure" content |} ] |}).
Proof.
  destruct (processCompany_asks_for_any_page
              (world_answering None (Answer "yes")) "cloud infrastructure"
              (bare_lead "Acme" (Some "acme.com")) 0 no_requests landing_page
              eq_refl eq_refl) as (content & Hrun & _).
  exists content. exact Hrun.
Defined.

Lemma processCompany_effects (w : env) (topic : string) (c : lead) (i : nat)
    (l : log) :
  exists r l',
    processCompany w topic c i l = (Return r, l') /\
    gets l' = gets l ++ (if has_url c then [full_url c] else []) /\
    (length (posts l') <= length (posts l) + (if has_url c then 1 else 0))%nat /\
    (length (posts l) <= length (posts l'))%nat /\
    (is_yes r = true -> length (posts l') = S (length (posts l))) /\
    (supported w = false -> is_yes r = false /\ posts l' = posts l).
Proof.
  destruct (processCompany_cases w topic c i l)
    as (r & l' & Hrun & _ & _ & Hcases).
  exists r, l'. split; [exact Hrun|]. unfold has_url, is_yes.
  destruct Hcases as [(Hno & Hn & ->)|[(Hu & _ & Hn & Hg)|(Hu & sc & b & Hs & Hchk & Hrel & Hg)]].
  - rewrite Hno, Hn, app_nil_r. repeat split; auto; try lia; discriminate.
  - rewrite Hu, Hn. split; [exact Hg|].
    revert Hrun. unfold processCompany. fold (resolved_url c).
    rewrite Hu. cbn [negb]. fold (full_url c). unfold_M.
    destruct (scrapeWebsite_effects w (full_url c) l) as (o & Hs & _).
    rewrite Hs.
    destruct o as [sc|].
    + destruct (checkCompanyTopicRelation_cases w (full_url c)
                  (extractTextForAnalysis (Some sc)) topic
                  {| gets := gets l ++
                       (if startsWith "http" (full_url c) then [full_url c] else []);
                     posts := posts l |})
        as (b & l2 & Hc & _). unfold_M. rewrite Hc.
      intros [= <- <-]. discriminate.
    + intros [= <- <-]. cbn [posts]. repeat split; auto; try lia; discriminate.
  - rewrite Hu, Hrel. split; [exact Hg|].
    destruct (checkCompanyTopicRelation_cases w (full_url c)
                (extractTextForAnalysis (Some sc)) topic
                {| gets := gets l ++ [full_url c]; posts := posts l |})
      as (b' & l2 & Hchk' & _ & Hwhy).
    rewrite Hchk in Hchk'. injection Hchk' as <- <-.
    destruct Hwhy as [(_ & -> & ->)|(_ & [(resp & Hcall & ->)|(e & Hcall & ->)])].
    + cbn [posts]. repeat split; auto; try lia; discriminate.
    + pose proof (callAIFlexible_effect _ _ _ _ _ Hcall) as [_ Hp].
      pose proof (callAIFlexible_grows _ _ _ _ _ Hcall) as Hq.
      cbn [posts] in Hp, Hq. split; [lia|]. split; [lia|]. split.
      * intros _. destruct (supported w) eqn:Hsup.
        -- destruct (callAIFlexible_supported w
                       (topic_prompt (full_url c)
                          (extractTextForAnalysis (Some sc)) topic)
                       {| gets := gets l ++ [full_url c]; posts := posts l |}
                       Hsup) as (rq & _ & _ & _ & E).
           rewrite E in Hcall. injection Hcall as _ <-.
           cbn [posts]. rewrite length_app. cbn [length]. lia.
        -- rewrite callAIFlexible_unsupported in Hcall by exact Hsup.
           discriminate.
      * intros Hsup. rewrite callAIFlexible_unsupported in Hcall by exact Hsup.
        discriminate.
    + pose proof (callAIFlexible_effect _ _ _ _ _ Hcall) as [_ Hp].
      pose proof (callAIFlexible_grows _ _ _ _ _ Hcall) as Hq.
      cbn [posts] in Hp, Hq. split; [lia|]. split; [lia|].
      split; [discriminate|].
      intros Hsup. rewrite callAIFlexible_unsupported in Hcall by exact Hsup.
      injection Hcall as _ <-. auto.
Qed.

Lemma run_each_processCompany_effects (w : env) (topic : string)
    (cs : list lead) (i : nat) (l l' : log) (rs : list match_result) :
  run_each (fun i c => processCompany w topic c i) cs i l = (Return rs, l') ->
  gets l' = gets l ++ map full_url (List.filter has_url cs) /\
  (length (posts l') <= length (posts l) + length (List.filter has_url cs))%nat /\
  (length (posts l) + length (List.filter is_yes rs) <= length (posts l'))%nat /\
  (supported w = false -> List.filter is_yes rs = [] /\ posts l' = posts l).
Proof.
  revert i l rs. induction cs as [|c cs IH]; intros i l rs H.
  - cbn in H. unfold_M. injection H as <- <-. cbn. rewrite app_nil_r.
    repeat split; auto; lia.
  - cbn [run_each] in H. unfold_M.
    destruct (processCompany_effects w topic c i l)
      as (r & l1 & Hr & Hg & Hp & Hq & Hyes & Hun).
    rewrite Hr in H.
    destruct (run_each _ cs (S i) l1) as [[rs0| |] l2] eqn:E; try discriminate.
    injection H as <- <-.
    destruct (IH _ _ _ E) as (Hg' & Hp' & Hy' & Hun').
    cbn [List.filter].
    split; [|split; [|split]].
    + rewrite Hg', Hg, <- app_assoc. f_equal.
      now destruct (has_url c).
    + destruct (has_url c); cbn [length] in *; lia.
    + destruct (is_yes r); cbn [length]; [specialize (Hyes eq_refl)|]; lia.
    + intros Hsup. destruct (Hun Hsup) as [-> Hp1].
      destruct (Hun' Hsup) as [-> Hp2]. split; [reflexivity|congruence].
Qed.

(** X5: with a window of at least one company, [filterCompaniesByTopicParallel]
    makes one GET for each company that has a URL, to that URL with
    "https://" put before it where it has no protocol, in the order of the
    input, and none for the others; it asks the oracle at most once for
    each such company, and at least once for each company it returns. *)
Theorem filterCompaniesByTopicParallel_requests (w : env)
    (companies : list lead) (topic : string) (maxConcurrent : nat) (l : log) :
  (0 < maxConcurrent)%nat ->
  exists out l',
    filterCompaniesByTopicParallel w companies topic maxConcurrent l
    = (Return out, l') /\
    gets l' = gets l ++ map full_url (List.filter has_url companies) /\
    (length (posts l) + length out <= length (posts l'))%nat /\
    (length (posts l') <= length (posts l)
                          + length (List.filter has_url companies))%nat.
Proof.
  intros Hmc.
  destruct (filterCompaniesByTopicParallel_run w companies topic maxConcurrent
              l Hmc) as (rs & l' & Hrun & Hout).
  destruct (run_each_processCompany_effects _ _ _ _ _ _ _ Hrun)
    as (Hg & Hp & Hy & _).
  eexists _, l'. split; [exact Hout|]. split; [exact Hg|].
  rewrite length_map. auto.
Qed.

Lemma filterCompaniesByTopicParallel_requests_witness :
  exists out l',
    filterCompaniesByTopicParallel
      (world_answering (Some "sk-test") (Answer "YES"))
      [bare_lead "Acme" (Some "acme.com"); bare_lead "Nameless" None;
       bare_lead "Bolt" (Some "http://bolt.io")]
      "cloud infrastructure" 2 no_requests
    = (Return out, l') /\
    gets l' = ["https://acme.com"; "http://bolt.io"] /\
    (length out <= length (posts l') <= 2)%nat.
Proof.
  destruct (filterCompaniesByTopicParallel_requests
              (world_answering (Some "sk-test") (Answer "YES"))
              [bare_lead "Acme" (Some "acme.com"); bare_lead "Nameless" None;
               bare_lead "Bolt" (Some "http://bolt.io")]
              "cloud infrastructure" 2 no_requests ltac:(lia))
    as (out & l' & Hrun & Hg & Hlo & Hhi).
  exists out, l'. split; [exact Hrun|]. split; [exact Hg|].
  cbn in Hlo, Hhi. lia.
Defined.

(** X6: with a provider that is neither "openai" nor "anthropic", the
    matcher returns no company at all and never asks the oracle: each check
    fails before a request is made, and a failed check counts as a "no". *)
Theorem unsupported_provider_matches_nothing (w : env)
    (companies : list lead) (topic : string) (maxConcurrent : nat) (l : log) :
  (0 < maxConcurrent)%nat ->
  supported w = false ->
  exists l',
    filterCompaniesByTopicParallel w companies topic maxConcurrent l
    = (Return [], l') /\
    posts l' = posts l.
Proof.
  intros Hmc Hsup.
  destruct (filterCompaniesByTopicParallel_run w companies topic maxConcurrent
              l Hmc) as (rs & l' & Hrun & Hout).
  destruct (run_each_processCompany_effects _ _ _ _ _ _ _ Hrun)
    as (_ & _ & _ & Hun).
  destruct (Hun Hsup) as [Hnone Hp].
  exists l'. rewrite Hout, Hnone. auto.
Qed.

Lemma unsupported_provider_matches_nothing_witness :
  exists l',
    filterCompaniesByTopicParallel (world_of_provider "gemini" (Answer "YES"))
      [bare_lead "Acme" (Some "acme.com")] "cloud infrastructure" 10
      no_requests = (Return [], l') /\
    posts l' = [].
Proof.
  apply (unsupported_provider_matches_nothing
           (world_of_provider "gemini" (Answer "YES"))
           [bare_lead "Acme" (Some "acme.com")] "cloud infrastructure" 10
           no_requests); [lia|reflexivity].
Defined.

(** *** The oracle calls of the post filter *)

Lemma chunks_done (n i c : nat) :
  (0 < c)%nat -> (n <= i)%nat -> chunks (n - i) c = 0%nat.
Proof.
  intros Hc Hle. unfold chunks. apply Nat.div_small. lia.
Qed.

Lemma chunks_step (n i c : nat) :
  (0 < c)%nat -> (i < n)%nat -> chunks (n - i) c = S (chunks (n - (i + c)) c).
Proof.
  intros Hc Hlt. unfold chunks.
  destruct (Nat.le_gt_cases (n - i) c) as [Hlast|Hmore].
  - replace (n - (i + c) + c - 1)%nat with (c - 1)%nat by lia.
    rewrite (Nat.div_small (c - 1)) by lia.
    replace (n - i + c - 1)%nat with ((n - i - 1) + 1 * c)%nat by lia.
    rewrite Nat.div_add by lia. rewrite Nat.div_small by lia. reflexivity.
  - replace (n - i + c - 1)%nat with ((n - (i + c) + c - 1) + 1 * c)%nat by lia.
    rewrite Nat.div_add by lia. lia.
Qed.

Lemma callAIFlexible_down (w : env) (p : prompt) (l : log) :
  supported w = false \/ oracle_down w ->
  exists e l', callAIFlexible w p l = (Throw e, l').
Proof.
  intros [Hu|Hd].
  - rewrite callAIFlexible_unsupported by exact Hu. eauto.
  - destruct (supported w) eqn:Hs.
    + destruct (callAIFlexible_supported w p l Hs) as (rq & _ & _ & _ & ->).
      destruct (Hd (length (posts l)) rq) as (e & ->). cbn [settle]. eauto.
    + rewrite callAIFlexible_unsupported by exact Hs. eauto.
Qed.

Lemma callAIFlexible_facts (w : env) (p : prompt) (l l1 : log)
    (o : outcome string) :
  callAIFlexible w p l = (o, l1) ->
  gets l1 = gets l /\
  (supported w = true -> length (posts l1) = S (length (posts l))) /\
  (supported w = false -> posts l1 = posts l) /\
  (supported w = false \/ oracle_down w -> exists e, o = Throw e) /\
  o <> Diverge.
Proof.
  intros Hcall.
  pose proof (callAIFlexible_effect _ _ _ _ _ Hcall) as [Hg _].
  split; [exact Hg|]. split; [|split; [|split]].
  - intros Hsup.
    destruct (callAIFlexible_supported w p l Hsup) as (rq & _ & _ & _ & E).
    rewrite E in Hcall. injection Hcall as _ <-. cbn [posts].
    rewrite length_app. cbn [length]. lia.
  - intros Hsup. rewrite callAIFlexible_unsupported in Hcall by exact Hsup.
    now injection Hcall as _ <-.
  - intros Hd. destruct (callAIFlexible_down w p l Hd) as (e & l2 & E).
    rewrite E in Hcall. injection Hcall as <- _. eauto.
  - destruct (callAIFlexible_settles w p l)
      as [(r & l2 & H & _)|(e & l2 & H & _)]; rewrite H in Hcall;
      injection Hcall as <- _; discriminate.
Qed.

Lemma filter_from_effects (w : env) (topic : string) (items : list post)
    (chunkSize : nat) :
  (0 < chunkSize)%nat ->
  forall fuel i ids l,
    (length items - i <= fuel)%nat ->
    exists ids' l',
      filter_from w fuel topic items chunkSize i ids l = (Return ids', l') /\
      gets l' = gets l /\
      (supported w = true ->
       length (posts l')
       = (length (posts l) + chunks (length items - i) chunkSize)%nat) /\
      (supported w = false -> posts l' = posts l) /\
      (supported w = false \/ oracle_down w -> ids' = ids).
Proof.
  intros Hc. induction fuel as [|fuel IH]; intros i ids l Hfuel.
  - cbn [filter_from].
    replace (length items <=? i)%nat with true
      by (symmetry; apply Nat.leb_le; lia).
    exists ids, l. unfold_M. rewrite chunks_done by lia.
    repeat split; auto.
  - cbn [filter_from].
    destruct (length items <=? i)%nat eqn:Hle.
    { apply Nat.leb_le in Hle. exists ids, l. unfold_M.
      rewrite chunks_done by lia. repeat split; auto. }
    apply Nat.leb_gt in Hle. unfold_M.
    rewrite (chunks_step _ _ _ Hc Hle).
    match goal with
    | |- context [callAIFlexible w ?p l] => set (p0 := p)
    end.
    destruct (callAIFlexible w p0 l) as [o l1] eqn:Hcall.
    destruct (callAIFlexible_facts _ _ _ _ _ Hcall)
      as (Hg & Hs1 & Hs2 & Hs3 & Hnd).
    assert (Hnext : forall found,
               (supported w = false \/ oracle_down w -> found = ids) ->
               exists ids' l',
                 filter_from w fuel topic items chunkSize (i + chunkSize)
                   found l1 = (Return ids', l') /\
                 gets l' = gets l /\
                 (supported w = true ->
                  length (posts l')
                  = (length (posts l)
                     + S (chunks (length items - (i + chunkSize)) chunkSize))%nat) /\
                 (supported w = false -> posts l' = posts l) /\
                 (supported w = false \/ oracle_down w -> ids' = ids)).
    { intros found Hfound.
      destruct (IH (i + chunkSize)%nat found l1)
        as (ids' & l' & Hrun & Hg' & Hc1 & Hc2 & Hc3); [lia|].
      exists ids', l'. split; [exact Hrun|]. split; [congruence|].
      split; [|split].
      - intros Hsup. rewrite (Hc1 Hsup), (Hs1 Hsup). lia.
      - intros Hsup. rewrite (Hc2 Hsup). auto.
      - intros Hd. rewrite (Hc3 Hd). auto. }
    destruct o as [r|e|]; [| |contradiction].
    + pose proof (collect_ids_settles r ids) as Hs.
      destruct (collect_ids r ids) as [found|e|]; [| |contradiction];
        apply Hnext; intros Hd; destruct (Hs3 Hd); discriminate.
    + apply Hnext. reflexivity.
Qed.

(** X7: with an API key, a known provider and a chunk size of at least one,
    [filterPostsByTopic] asks the oracle once for each chunk of [chunkSize]
    posts, that is ceil(n / chunkSize) times for n posts, whether the calls
    succeed or fail, and fetches nothing. *)
Theorem filterPostsByTopic_calls (w : env) (items : list post)
    (topic : string) (chunkSize : nat) (l : log) :
  (0 < chunkSize)%nat ->
  truthy_str (apiKey w) = true ->
  supported w = true ->
  exists out l',
    filterPostsByTopic w (Some items) topic chunkSize l = (Return out, l') /\
    gets l' = gets l /\
    length (posts l') = (length (posts l) + chunks (length items) chunkSize)%nat.
Proof.
  intros Hc Hkey Hsup. unfold filterPostsByTopic. rewrite Hkey. cbn [negb orb].
  destruct items as [|p0 items'].
  - exists [], l. cbn. unfold_M. split; [reflexivity|]. split; [reflexivity|].
    unfold chunks. rewrite Nat.div_small by (cbn; lia). lia.
  - change (length (p0 :: items') =? 0)%nat with false. cbv iota.
    destruct (filter_from_effects w topic (p0 :: items') chunkSize Hc
                (length (p0 :: items')) 0 [] l) as (ids & l' & Hloop & Hg & Hn & _);
      [lia|].
    unfold_M. rewrite Hloop. eexists _, l'. split; [reflexivity|].
    split; [exact Hg|]. rewrite (Hn Hsup), Nat.sub_0_r. reflexivity.
Qed.

Lemma filterPostsByTopic_calls_witness :
  exists out l',
    filterPostsByTopic (world_answering (Some "sk-test") (Answer "[1, 3]"))
      (Some three_posts) "business trips" 2 no_requests = (Return out, l') /\
    gets l' = [] /\ length (posts l') = 2%nat.
Proof.
  destruct (filterPostsByTopic_calls
              (world_answering (Some "sk-test") (Answer "[1, 3]"))
              three_posts "business trips" 2 no_requests
              ltac:(lia) eq_refl eq_refl) as (out & l' & Hrun & Hg & Hn).
  exists out, l'. split; [exact Hrun|]. split; [exact Hg|exact Hn].
Defined.

Lemma filter_no_ids (items : list post) :
  List.filter (fun p => set_has [] (post_id p)) items = [].
Proof.
  induction items as [|p items IH]; [reflexivity|].
  cbn [List.filter]. now rewrite IH.
Qed.

(** X8: when the oracle cannot be reached (every call fails, or the
    provider is not a known one), [filterPostsByTopic] fails open without an
    API key and closed with one: without a key every post is returned, with
    a key none is. *)
Theorem filterPostsByTopic_without_oracle (w : env) (items : list post)
    (topic : string) (chunkSize : nat) (l : log) :
  (0 < chunkSize)%nat ->
  supported w = false \/ oracle_down w ->
  exists l',
    filterPostsByTopic w (Some items) topic chunkSize l
    = (Return (if truthy_str (apiKey w) then [] else items), l').
Proof.
  intros Hc Hd. unfold filterPostsByTopic.
  destruct (truthy_str (apiKey w)); cbn [negb orb]; [|eauto].
  destruct items as [|p0 items']; [eauto|].
  change (length (p0 :: items') =? 0)%nat with false. cbv iota.
  destruct (filter_from_effects w topic (p0 :: items') chunkSize Hc
              (length (p0 :: items')) 0 [] l) as (ids & l' & Hloop & _ & _ & _ & Hids);
    [lia|].
  unfold_M. rewrite Hloop, (Hids Hd), filter_no_ids. eauto.
Qed.

Lemma filterPostsByTopic_without_oracle_witness :
  (exists l',
     filterPostsByTopic (world_answering (Some "sk-test") (Failure "timeout"))
       (Some three_posts) "business trips" 20 no_requests = (Return [], l')) /\
  (exists l',
     filterPostsByTopic (world_answering None (Failure "timeout"))
       (Some three_posts) "business trips" 20 no_requests
     = (Return three_posts, l')).
Proof.
  split.
  - apply (filterPostsByTopic_without_oracle
             (world_answering (Some "sk-test") (Failure "timeout"))
             three_posts "business trips" 20 no_requests ltac:(lia)).
    right. intros n rq. exists "timeout". reflexivity.
  - apply (filterPostsByTopic_without_oracle
             (world_answering None (Failure "timeout"))
             three_posts "business trips" 20 no_requests ltac:(lia)).
    right. intros n rq. exists "timeout". reflexivity.
Defined.

(** *** The enrichment pipeline, step by step *)

Lemma scrapeMultiple_pages (w : env) (urls : list string) (concurrency : nat)
    (l : log) :
  (0 < concurrency)%nat ->
  exists pages,
    scrapeMultiple w urls concurrency l
    = (Return pages,
       {| gets := gets l ++ List.filter (startsWith "http") urls;
          posts := posts l |}) /\
    Forall (fun s => startsWith "http" (sc_url s) = true) pages.
Proof.
  intros Hc.
  destruct (scrape_from_results w urls concurrency Hc (length urls) 0 [] l)
    as (rs & Hrun & _ & Hall); [lia|].
  rewrite drop_0 in *. exists rs. unfold scrapeMultiple. now rewrite Hrun.
Qed.

Lemma find_url_is (u : option string) (pages : list scraped) (sc : scraped) :
  List.find (url_is u) pages = Some sc ->
  Forall (fun s => startsWith "http" (sc_url s) = true) pages ->
  exists v, u = Some v /\ startsWith "http" v = true.
Proof.
  intros Hfind Hall. apply List.find_some in Hfind as [Hin Hu].
  rewrite Forall_forall in Hall. apply list_elem_of_In in Hin.
  specialize (Hall sc Hin).
  destruct u as [v|]; [|discriminate]. apply String.eqb_eq in Hu.
  exists v. split; [reflexivity|congruence].
Qed.

Lemma bare_domain_with_scrape (ld : lead) (pages : list scraped) :
  Forall (fun s => startsWith "http" (sc_url s) = true) pages ->
  bare_domain (with_scrape ld (List.find (url_is (lead_url ld)) pages)) = true ->
  not_scraped (with_scrape ld (List.find (url_is (lead_url ld)) pages)).
Proof.
  intros Hall Hbare.
  destruct (List.find (url_is (lead_url ld)) pages) as [sc|] eqn:Hfind.
  - destruct (find_url_is _ _ _ Hfind Hall) as (v & Hv & Hhttp).
    unfold bare_domain in Hbare. apply andb_true_iff in Hbare as [_ Hb].
    change (lead_url (with_scrape ld (Some sc))) with (lead_url ld) in Hb.
    rewrite Hv in Hb. cbn [or_empty] in Hb. rewrite Hhttp in Hb. discriminate.
  - repeat split.
Qed.

Lemma omap_urls_nil (f : lead -> option string) (leads : list lead) :
  omap (fun l => if truthy_str (f l) then f l else None) leads = [] ->
  Forall (fun l => truthy_str (f l) = false) leads.
Proof.
  induction leads as [|ld leads IH]; [constructor|].
  cbn [omap list_omap]. destruct (truthy_str (f ld)) eqn:Ht.
  - destruct (f ld); discriminate.
  - intros H. constructor; auto.
Qed.

Lemma length_omap_le {A B : Type} (f : A -> option B) (l : list A) :
  (length (omap f l) <= length l)%nat.
Proof.
  induction l as [|a l IH]; [reflexivity|].
  cbn [omap list_omap]. destruct (f a); cbn [length]; fold (omap f l); lia.
Qed.

Lemma scrape_step_effects (w : env) (enable : value) (leads : list lead)
    (l : log) :
  exists out fetched,
    scrape_step w enable leads l
    = (Return out, {| gets := gets l ++ fetched; posts := posts l |}) /\
    length out = length leads /\
    Forall (fun u => startsWith "http" u = true) fetched /\
    (length fetched <= length leads)%nat /\
    (truthy enable = true ->
     Forall (fun o => bare_domain o = true -> not_scraped o) out) /\
    (truthy enable = false -> out = leads /\ fetched = []).
Proof.
  unfold scrape_step. destruct (truthy enable).
  - set (urls := omap _ leads).
    destruct (0 <? length urls)%nat eqn:Hn.
    + destruct (scrapeMultiple_pages w urls 5 l ltac:(lia)) as (pages & Hrun & Hall).
      unfold_M. rewrite Hrun.
      eexists _, _. split; [reflexivity|].
      split; [now rewrite length_map|].
      split; [apply Forall_forall; intros u Hu;
              apply list_elem_of_In, List.filter_In in Hu; tauto|].
      split.
      { etransitivity; [apply List.filter_length_le|apply length_omap_le]. }
      split; [|discriminate]. intros _.
      apply Forall_map, Forall_forall. intros ld _.
      now apply bare_domain_with_scrape.
    + exists leads, []. unfold_M. rewrite app_nil_r. destruct l.
      split; [reflexivity|]. split; [reflexivity|]. split; [constructor|].
      split; [cbn; lia|]. split; [|discriminate]. intros _.
      apply Nat.ltb_ge in Hn.
      assert (Hnil : urls = []) by (destruct urls; [reflexivity|cbn in Hn; lia]).
      apply omap_urls_nil in Hnil.
      eapply Forall_impl; [exact Hnil|]. intros ld Hf Hb.
      unfold bare_domain in Hb. rewrite Hf in Hb. discriminate.
  - exists leads, []. unfold_M. rewrite app_nil_r. destruct l.
    split; [reflexivity|]. split; [reflexivity|]. split; [constructor|].
    split; [cbn; lia|]. split; [discriminate|auto].
Qed.

Lemma analyzeCompanyRelevance_down (w : env) (company : lead)
    (content topic : string) (l : log) :
  oracle_out_of_reach w ->
  exists v l',
    analyzeCompanyRelevance w company content topic l = (Return v, l') /\
    score v = zero /\ isRelevant v = None.
Proof.
  intros Hdown. unfold analyzeCompanyRelevance.
  destruct (truthy_str (apiKey w)) eqn:Hkey; cbn [negb].
  - destruct Hdown as [Hk|Hd]; [congruence|].
    set (p := buildAnalysisPrompt company content topic).
    assert (Hcall : exists e l', callAI w p l = (Throw e, l')).
    { destruct (supported w) eqn:Hs.
      - destruct Hd as [Hu|Hd]; [congruence|].
        unfold supported in Hs. unfold callAI.
        destruct (String.eqb (provider w) "openai");
          [|destruct (String.eqb (provider w) "anthropic"); [|discriminate]];
          unfold axios_post;
          match goal with
          | |- context [ai_post w ?n ?rq] => destruct (Hd n rq) as (e & ->)
          end; cbn [settle]; eauto.
      - rewrite callAI_unsupported by exact Hs. eauto. }
    destruct Hcall as (e & l' & Hcall). unfold_M. rewrite Hcall.
    eexists _, _. split; [reflexivity|]. split; reflexivity.
  - unfold_M. eexists _, _. split; [reflexivity|]. split; reflexivity.
Qed.

Lemma analyze_each_down (w : env) (topic : string) (cs : list lead) (l : log) :
  oracle_out_of_reach w ->
  exists rs l',
    analyze_each w cs topic l = (Return rs, l') /\
    Forall (fun r => relevanceScore r = Some zero) rs.
Proof.
  intros Hdown. revert l. induction cs as [|c cs IH]; intros l.
  - exists [], l. split; [reflexivity|constructor].
  - destruct (analyzeCompanyRelevance_down w c
                (or_default (websiteContent c) EmptyString) topic l Hdown)
      as (v & l1 & Hv & Hs & _).
    destruct (IH l1) as (rs & l' & Hrs & Hall).
    cbn [analyze_each]. unfold_M. rewrite Hv, Hrs.
    eexists _, l'. split; [reflexivity|].
    constructor; [cbn [relevanceScore]; now rewrite Hs|exact Hall].
Qed.

Lemma with_analysis_bare (c : lead) (v : verdict) :
  (bare_domain c = true -> not_scraped c) ->
  bare_domain (with_analysis c v) = true -> not_scraped (with_analysis c v).
Proof. intros H Hb. exact (H Hb). Qed.

Lemma zip_with_analysis_bare (cs : list lead) (vs : list verdict) :
  Forall (fun o => bare_domain o = true -> not_scraped o) cs ->
  Forall (fun o => bare_domain o = true -> not_scraped o)
         (zip_with with_analysis cs vs).
Proof.
  intros H. revert vs. induction H as [|c cs Hc _ IH]; intros [|v vs];
    cbn [zip_with]; constructor; auto.
Qed.

Lemma analysis_step_effects (w : env) (enable : value) (topic : string)
    (cs : list lead) (l : log) :
  exists rs l',
    analysis_step w enable topic cs l = (Return rs, l') /\
    length rs = length cs /\
    gets l' = gets l /\
    (length (posts l') <= length (posts l) + length cs)%nat /\
    (Forall (fun o => bare_domain o = true -> not_scraped o) cs ->
     Forall (fun o => bare_domain o = true -> not_scraped o) rs) /\
    (truthy enable = false -> rs = cs /\ l' = l) /\
    (truthy enable = true -> oracle_out_of_reach w ->
     Forall (fun r => relevanceScore r = Some zero) rs) /\
    (truthy_str (apiKey w) = false \/ supported w = false -> l' = l).
Proof.
  unfold analysis_step. destruct (truthy enable).
  - destruct (analyze_each_effects w topic cs l)
      as (vs & l' & Hrun & Hlen & _ & Hg & Hp & Hkey & Hsup).
    unfold analyzeCompanies. unfold_M. rewrite Hrun.
    eexists _, l'. split; [reflexivity|].
    pose proof (sort_Permutation
                  (fun a b => sub (to_number (relevanceScore b))
                                  (to_number (relevanceScore a)))
                  (zip_with with_analysis cs vs)) as Hperm.
    split.
    { rewrite (Permutation_length Hperm), length_zip_with. lia. }
    split; [exact Hg|]. split; [exact Hp|]. split.
    { intros Hall. rewrite Hperm. now apply zip_with_analysis_bare. }
    split; [discriminate|]. split.
    { intros _ Hdown.
      destruct (analyze_each_down w topic cs l Hdown) as (rs & l2 & Hrun' & Hz).
      rewrite Hrun in Hrun'. injection Hrun' as <- _. now rewrite Hperm. }
    intros Hout. destruct (truthy_str (apiKey w)) eqn:Hk.
    + destruct Hout as [Hno|Hno]; [discriminate|].
      now destruct (Hsup eq_refl Hno).
    + now destruct (Hkey eq_refl).
  - exists cs, l. unfold_M. split; [reflexivity|]. split; [reflexivity|].
    split; [reflexivity|]. split; [lia|]. split; [auto|].
    split; [auto|]. split; [discriminate|auto].
Qed.

Lemma first_leads_take (leads : list lead) :
  slice 0 (Nat.min (length leads) 50) leads = take 50 leads.
Proof.
  unfold slice. rewrite drop_0, Nat.sub_0_r.
  destruct (Nat.le_gt_cases (length leads) 50).
  - rewrite Nat.min_l by lia. now rewrite !take_ge by lia.
  - now rewrite Nat.min_r by lia.
Qed.

(** What a run of [enrichLeads] is made of: a request that fails one of
    the two checks is answered with status 400 and nothing is requested; any
    other goes through the steps, on its first fifty leads. *)
Lemma enrichLeads_run (w : env) (body : enrich_body) (l : log) :
  (well_formed body = false /\
   exists e m, enrichLeads w body l = (Return (Status400 e m), l)) \/
  (well_formed body = true /\
   exists leads scraped fetched analyzed l2,
     b_leads body = Some leads /\
     scrape_step w (with_default (VBool true) (b_enable_website_scraping body))
       (take 50 leads) l
     = (Return scraped, {| gets := gets l ++ fetched; posts := posts l |}) /\
     analysis_step w (with_default (VBool true) (b_enable_ai_analysis body))
       (or_empty (or_str (b_topic body) (b_icp_description body))) scraped
       {| gets := gets l ++ fetched; posts := posts l |}
     = (Return analyzed, l2) /\
     enrichLeads w body l
     = (Return
          (Success
             (sort_step
                (filter_step (with_default (VBool true) (b_enable_ai_analysis body))
                   (with_default (VNum (Fin 5)) (b_min_relevance_score body))
                   analyzed))
             {| total_input := length leads;
                total_processed := Nat.min (length leads) 50;
                total_enriched :=
                  length
                    (sort_step
                       (filter_step
                          (with_default (VBool true) (b_enable_ai_analysis body))
                          (with_default (VNum (Fin 5)) (b_min_relevance_score body))
                          analyzed));
                website_scraping_enabled :=
                  with_default (VBool true) (b_enable_website_scraping body);
                ai_analysis_enabled :=
                  with_default (VBool true) (b_enable_ai_analysis body);
                md_min_relevance_score := threshold body;
                md_topic :=
                  or_empty (or_str (b_topic body) (b_icp_description body)) |}),
        l2)).
Proof.
  unfold well_formed, enrichLeads.
  destruct (b_leads body) as [[|x xs]|].
  - left. split; [reflexivity|]. unfold_M. eauto.
  - destruct (truthy_str (b_topic body) || truthy_str (b_icp_description body))
      eqn:Ht.
    + right. split; [reflexivity|].
      replace (negb (truthy_str (b_topic body)) &&
               negb (truthy_str (b_icp_description body))) with false
        by (rewrite <- negb_orb, Ht; reflexivity).
      rewrite first_leads_take.
      destruct (scrape_step_effects w
                  (with_default (VBool true) (b_enable_website_scraping body))
                  (take 50 (x :: xs)) l) as (scraped & fetched & Hs & _).
      destruct (analysis_step_effects w
                  (with_default (VBool true) (b_enable_ai_analysis body))
                  (or_empty (or_str (b_topic body) (b_icp_description body)))
                  scraped {| gets := gets l ++ fetched; posts := posts l |})
        as (analyzed & l2 & Ha & _).
      exists (x :: xs), scraped, fetched, analyzed, l2.
      split; [reflexivity|]. split; [exact Hs|]. split; [exact Ha|].
      unfold_M. rewrite Hs, Ha. reflexivity.
    + left. split; [reflexivity|].
      replace (negb (truthy_str (b_topic body)) &&
               negb (truthy_str (b_icp_description body))) with true
        by (rewrite <- negb_orb, Ht; reflexivity).
      unfold_M. eauto.
  - left. split; [reflexivity|]. unfold_M. eauto.
Qed.

(** *** The enrichment endpoint *)

(** X9: a request to [enrichLeads] that fails one of the two checks (no
    leads, or neither topic nor ICP description) is answered with status
    400 and nothing is requested, and only such a request is.  Whenever the
    answer is a success, the request passed the checks, at most 50 URLs were
    fetched, each beginning with "http", and the oracle was asked at most 50
    times. *)
Theorem enrichLeads_checks_and_requests (w : env) (body : enrich_body)
    (l : log) :
  (well_formed body = false ->
   exists e m, enrichLeads w body l = (Return (Status400 e m), l)) /\
  (forall e m l',
     enrichLeads w body l = (Return (Status400 e m), l') ->
     well_formed body = false /\ l' = l) /\
  (forall data md l',
     enrichLeads w body l = (Return (Success data md), l') ->
     well_formed body = true /\
     exists fetched,
       gets l' = gets l ++ fetched /\
       Forall (fun u => startsWith "http" u = true) fetched /\
       (length fetched <= 50)%nat /\
       (length (posts l') <= length (posts l) + 50)%nat).
Proof.
  destruct (enrichLeads_run w body l)
    as [(Hwf & e & m & Hrun)
       |(Hwf & leads & scraped & fetched & analyzed & l2 & Hl & Hs & Ha & Hrun)].
  - split; [eauto|]. split.
    + intros e' m' l' H. rewrite Hrun in H. now injection H as _ _ <-.
    + intros data md l' H. rewrite Hrun in H. discriminate.
  - split; [congruence|]. split.
    + intros e m l' H. rewrite Hrun in H. discriminate.
    + intros data md l' H. rewrite Hrun in H. injection H as _ _ <-.
      split; [exact Hwf|].
      destruct (scrape_step_effects w
                  (with_default (VBool true) (b_enable_website_scraping body))
                  (take 50 leads) l)
        as (scraped' & fetched' & Hs' & Hlen & Hhttp & Hn & _).
      rewrite Hs in Hs'. injection Hs' as <- Hf.
      apply app_inv_head in Hf. subst fetched'.
      destruct (analysis_step_effects w
                  (with_default (VBool true) (b_enable_ai_analysis body))
                  (or_empty (or_str (b_topic body) (b_icp_description body)))
                  scraped {| gets := gets l ++ fetched; posts := posts l |})
        as (analyzed' & l2' & Ha' & _ & Hg & Hp & _).
      rewrite Ha in Ha'. injection Ha' as <- <-.
      cbn [gets posts] in Hg, Hp. rewrite length_take in Hlen, Hn.
      exists fetched. split; [exact Hg|]. split; [exact Hhttp|].
      split; lia.
Qed.

Lemma enrichLeads_checks_and_requests_witness :
  (exists e m,
     enrichLeads (world_answering (Some "sk-test") (Answer good_fit_response))
       {| b_leads := Some [bare_lead "Acme" (Some "https://acme.com")];
          b_topic := None;
          b_icp_description := None;
          b_min_relevance_score := VUndef;
          b_enable_website_scraping := VUndef;
          b_enable_ai_analysis := VUndef |}
       no_requests = (Return (Status400 e m), no_requests)) /\
  (exists data md l' fetched,
     enrichLeads (world_answering (Some "sk-test") (Answer good_fit_response))
       (plain_body [ bare_lead "Acme" (Some "https://acme.com");
                     bare_lead "Bakery" None ] VUndef)
       no_requests = (Return (Success data md), l') /\
     gets l' = fetched /\ (length fetched <= 50)%nat).
Proof.
  split.
  - apply (enrichLeads_checks_and_requests
             (world_answering (Some "sk-test") (Answer good_fit_response))).
    reflexivity.
  - assert (exists data md l',
              enrichLeads
                (world_answering (Some "sk-test") (Answer good_fit_response))
                (plain_body [ bare_lead "Acme" (Some "https://acme.com");
                              bare_lead "Bakery" None ] VUndef)
                no_requests = (Return (Success data md), l'))
      as (data & md & l' & Hrun) by (vm_compute; eauto).
    destruct (enrichLeads_checks_and_requests
                (world_answering (Some "sk-test") (Answer good_fit_response))
                (plain_body [ bare_lead "Acme" (Some "https://acme.com");
                              bare_lead "Bakery" None ] VUndef)
                no_requests) as (_ & _ & Hok).
    destruct (Hok data md l' Hrun) as (_ & fetched & Hg & _ & Hn & _).
    exists data, md, l', fetched. auto.
Defined.

Lemma sort_step_descending (leads : list lead) :
  descending score_or_zero (sort_step leads).
Proof.
  apply (sort_descending score_or_zero).
  apply Forall_forall. intros o _. apply or_zero_not_NaN.
Qed.

(** X10: the list [enrichLeads] returns is ordered by [relevanceScore || 0]
    from the highest to the lowest, and [total_enriched] is its length. *)
Theorem enrichLeads_sorted (w : env) (body : enrich_body) (l l' : log)
    (data : list lead) (md : metadata) :
  enrichLeads w body l = (Return (Success data md), l') ->
  descending score_or_zero data /\
  total_enriched md = length data /\
  md_min_relevance_score md = threshold body.
Proof.
  intros Hrun.
  destruct (enrichLeads_run w body l)
    as [(_ & e & m & Hrun')
       |(_ & leads & scraped & fetched & analyzed & l2 & _ & _ & _ & Hrun')];
    rewrite Hrun in Hrun'; [discriminate|].
  injection Hrun' as -> -> _. cbn [total_enriched md_min_relevance_score].
  split; [apply sort_step_descending|]. split; reflexivity.
Qed.

Lemma enrichLeads_sorted_witness :
  exists data md l',
    enrichLeads (world_answering (Some "sk-test") (Answer good_fit_response))
      (plain_body [ bare_lead "Bakery" None;
                    bare_lead "Acme" (Some "https://acme.com") ] VUndef)
      no_requests = (Return (Success data md), l') /\
    descending score_or_zero data /\
    length data = 2%nat.
Proof.
  assert (exists data md l',
            enrichLeads
              (world_answering (Some "sk-test") (Answer good_fit_response))
              (plain_body [ bare_lead "Bakery" None;
                            bare_lead "Acme" (Some "https://acme.com") ] VUndef)
              no_requests = (Return (Success data md), l') /\
            length data = 2%nat)
    as (data & md & l' & Hrun & Hlen) by (vm_compute; eauto 6).
  destruct (enrichLeads_sorted _ _ _ _ _ _ Hrun) as (Hsorted & _).
  exists data, md, l'. split; [exact Hrun|]. split; [exact Hsorted|exact Hlen].
Defined.

Lemma filter_step_keeps (enable minimum : value) (P : lead -> Prop)
    (leads : list lead) :
  Forall P leads -> Forall P (filter_step enable minimum leads).
Proof.
  intros H. unfold filter_step. apply Forall_forall. intros o Ho.
  apply list_elem_of_In, List.filter_In in Ho as [Ho _].
  rewrite Forall_forall in H. apply H. now apply list_elem_of_In.
Qed.

(** X11: with website scraping enabled, a lead whose URL does not begin with
    "http" (a bare domain such as acme.com) is never fetched by
    [enrichLeads]: it comes back marked [websiteScraped: false], without
    content.  Here nothing puts "https://" before the domain. *)
Theorem enrichLeads_skips_bare_domains (w : env) (body : enrich_body)
    (l l' : log) (data : list lead) (md : metadata) :
  enrichLeads w body l = (Return (Success data md), l') ->
  scraping_enabled body = true ->
  Forall (fun o => bare_domain o = true -> not_scraped o) data.
Proof.
  intros Hrun Hen.
  destruct (enrichLeads_run w body l)
    as [(_ & e & m & Hrun')
       |(_ & leads & scraped & fetched & analyzed & l2 & _ & Hs & Ha & Hrun')];
    rewrite Hrun in Hrun'; [discriminate|].
  injection Hrun' as -> _ _.
  destruct (scrape_step_effects w
              (with_default (VBool true) (b_enable_website_scraping body))
              (take 50 leads) l) as (scraped' & fetched' & Hs' & _ & _ & _ & Hbare & _).
  rewrite Hs in Hs'. injection Hs' as <- _.
  destruct (analysis_step_effects w
              (with_default (VBool true) (b_enable_ai_analysis body))
              (or_empty (or_str (b_topic body) (b_icp_description body)))
              scraped {| gets := gets l ++ fetched; posts := posts l |})
    as (analyzed' & l2' & Ha' & _ & _ & _ & Hkeep & _).
  rewrite Ha in Ha'. injection Ha' as <- _.
  unfold sort_step. rewrite (sort_Permutation _ _).
  apply filter_step_keeps. apply Hkeep. apply Hbare. exact Hen.
Qed.

Lemma enrichLeads_skips_bare_domains_witness :
  exists md l',
    enrichLeads (world_answering (Some "sk-test") (Answer good_fit_response))
      (plain_body [bare_lead "Acme" (Some "acme.com")] VUndef)
      no_requests
    = (Return (Success
                 [with_analysis
                    (with_scrape (bare_lead "Acme" (Some "acme.com")) None)
                    {| isRelevant := Some true;
                       confidence := Fin (inject_Z 85);
                       reasoning := VStr EmptyString;
                       score := Fin (17 # 2);
                       keyMatches := VArr [];
                       concerns := VArr [] |}] md), l') /\
    gets l' = [] /\
    not_scraped (with_scrape (bare_lead "Acme" (Some "acme.com")) None).
Proof.
  assert (exists data md l',
            enrichLeads
              (world_answering (Some "sk-test") (Answer good_fit_response))
              (plain_body [bare_lead "Acme" (Some "acme.com")] VUndef)
              no_requests = (Return (Success data md), l') /\
            data = [with_analysis
                      (with_scrape (bare_lead "Acme" (Some "acme.com")) None)
                      {| isRelevant := Some true;
                         confidence := Fin (inject_Z 85);
                         reasoning := VStr EmptyString;
                         score := Fin (17 # 2);
                         keyMatches := VArr [];
                         concerns := VArr [] |}] /\
            gets l' = [])
    as (data & md & l' & Hrun & Hdata & Hgets) by (vm_compute; eauto 8).
  pose proof (enrichLeads_skips_bare_domains _ _ _ _ _ _ Hrun eq_refl) as Hall.
  subst data. exists md, l'. split; [exact Hrun|]. split; [exact Hgets|].
  apply Forall_cons in Hall as [Hbare _]. exact (Hbare eq_refl).
Defined.




Lemma filter_step_all (enable minimum : value) (leads : list lead) :
  truthy enable = false -> filter_step enable minimum leads = leads.
Proof.
  intros Hen. unfold filter_step. rewrite Hen. cbn [negb orb].
  induction leads as [|o leads IH]; [reflexivity|].
  cbn [List.filter]. now rewrite IH.
Qed.



(** *** Batches *)


Lemma internal_scrape_effects (w : env) (enable : value) (leads : list lead)
    (l : log) :
  exists out fetched,
    (if truthy enable then
       let urls :=
         omap (fun l => if truthy_str (internal_url l)
                        then internal_url l else None) leads in
       if (0 <? length urls)%nat then
         scrapedData <- scrapeMultiple w urls 3 ;;
         mret (map (fun l =>
                      with_content l
                        (List.find (url_is (internal_url l)) scrapedData))
                   leads)
       else mret leads
     else mret leads) l
    = (Return out, {| gets := gets l ++ fetched; posts := posts l |}) /\
    length out = length leads /\
    map relevanceScore out = map relevanceScore leads /\
    Forall (fun u => startsWith "http" u = true) fetched /\
    (length fetched <= length leads)%nat.
Proof.
  destruct (truthy enable).
  - cbv zeta. set (urls := omap _ leads).
    destruct (0 <? length urls)%nat.
    + destruct (scrapeMultiple_pages w urls 3 l ltac:(lia)) as (pages & Hrun & _).
      unfold_M. rewrite Hrun. eexists _, _. split; [reflexivity|].
      split; [now rewrite length_map|].
      split; [now rewrite map_map|].
      split; [apply Forall_forall; intros u Hu;
              apply list_elem_of_In, List.filter_In in Hu; tauto|].
      etransitivity; [apply List.filter_length_le|apply length_omap_le].
    + exists leads, []. unfold_M. rewrite app_nil_r. destruct l.
      repeat split; auto; cbn; lia.
  - exists leads, []. unfold_M. rewrite app_nil_r. destruct l.
    repeat split; auto; cbn; lia.
Qed.

(** What a run of [enrichLeadsInternal] on a batch that has leads is made
    of. *)
Lemma enrichLeadsInternal_run (w : env) (params : batch_params)
    (leads : list lead) (l : log) :
  bt_leads params = Some leads ->
  exists scraped fetched analyzed l2,
    enrichLeadsInternal w params l
    = (Return
         {| ir_data :=
              filter_step (with_default (VBool true) (bt_enable_ai_analysis params))
                (with_default (VNum (Fin 5)) (bt_min_relevance_score params))
                analyzed;
            ir_total_input := length leads;
            ir_total_enriched :=
              length
                (filter_step
                   (with_default (VBool true) (bt_enable_ai_analysis params))
                   (with_default (VNum (Fin 5)) (bt_min_relevance_score params))
                   analyzed) |}, l2) /\
    length scraped = length leads /\
    map relevanceScore scraped = map relevanceScore leads /\
    length analyzed = length leads /\
    gets l2 = gets l ++ fetched /\
    Forall (fun u => startsWith "http" u = true) fetched /\
    (length fetched <= length leads)%nat /\
    (length (posts l2) <= length (posts l) + length leads)%nat /\
    (truthy (with_default (VBool true) (bt_enable_ai_analysis params))
     && truthy_str (bt_topic params) = false ->
     analyzed = scraped /\ posts l2 = posts l).
Proof.
  intros Hleads. unfold enrichLeadsInternal. rewrite Hleads.
  destruct (internal_scrape_effects w
              (with_default (VBool true) (bt_enable_website_scraping params))
              leads l) as (scraped & fetched & Hs & Hlen & Hscores & Hhttp & Hn).
  unfold_M. cbv zeta in Hs. unfold_M. rewrite Hs.
  destruct (truthy (with_default (VBool true) (bt_enable_ai_analysis params))
            && truthy_str (bt_topic params)) eqn:Hon.
  - destruct (analyze_each_effects w (or_empty (bt_topic params)) scraped
                {| gets := gets l ++ fetched; posts := posts l |})
      as (vs & l2 & Hrun & Hvs & _ & Hg & Hp & _).
    unfold analyzeCompanies. unfold_M. rewrite Hrun.
    eexists scraped, fetched, _, l2. split; [reflexivity|].
    split; [exact Hlen|]. split; [exact Hscores|].
    split.
    { rewrite (Permutation_length (sort_Permutation _ _)), length_zip_with. lia. }
    cbn [gets posts] in Hg, Hp.
    split; [exact Hg|]. split; [exact Hhttp|]. split; [exact Hn|].
    split; [lia|discriminate].
  - eexists scraped, fetched, scraped, _. split; [reflexivity|].
    cbn [gets posts]. repeat split; auto; lia.
Qed.

(** X14: [enrichLeadsInternal] has no cap of 50 leads, unlike
    [enrichLeads]: whenever it returns on a batch of leads, it counts every
    lead of the batch as input, [total_enriched] is the number of leads
    returned, it has fetched at most one URL per lead, each beginning with
    "http", and asked the oracle at most once per lead; with AI analysis
    disabled it returns as many leads as it was given and has not asked the
    oracle. *)
Theorem enrichLeadsInternal_no_cap (w : env) (params : batch_params)
    (leads : list lead) (l l' : log) (r : internal_result) :
  bt_leads params = Some leads ->
  enrichLeadsInternal w params l = (Return r, l') ->
  ir_total_input r = length leads /\
  ir_total_enriched r = length (ir_data r) /\
  (length (ir_data r) <= length leads)%nat /\
  (exists fetched,
     gets l' = gets l ++ fetched /\
     Forall (fun u => startsWith "http" u = true) fetched /\
     (length fetched <= length leads)%nat) /\
  (length (posts l') <= length (posts l) + length leads)%nat /\
  (truthy (with_default (VBool true) (bt_enable_ai_analysis params)) = false ->
   length (ir_data r) = length leads /\ posts l' = posts l).
Proof.
  intros Hleads Hret.
  destruct (enrichLeadsInternal_run w params leads l Hleads)
    as (scraped & fetched & analyzed & l2 & Hrun & Hlen & _ & Hlen' & Hg & Hhttp
        & Hn & Hp & Hoff).
  rewrite Hrun in Hret. injection Hret as <- <-.
  cbn [ir_total_input ir_total_enriched ir_data].
  split; [reflexivity|]. split; [reflexivity|].
  split.
  { etransitivity; [apply List.filter_length_le|]. lia. }
  split; [exists fetched; auto|]. split; [exact Hp|].
  intros Hen. rewrite Hen in Hoff. destruct (Hoff eq_refl) as [-> Hposts].
  rewrite (filter_step_all _ _ scraped Hen). auto.
Qed.

Lemma enrichLeadsInternal_no_cap_witness :
  exists r l',
    enrichLeadsInternal (world_answering (Some "sk-test") (Answer "NO"))
      {| bt_id := VUndef;
         bt_leads := Some (repeat (bare_lead "Bakery" None) 60);
         bt_topic := Some "cloud infrastructure";
         bt_min_relevance_score := VUndef;
         bt_enable_website_scraping := VUndef;
         bt_enable_ai_analysis := VBool false |}
      no_requests = (Return r, l') /\
    ir_total_input r = 60%nat /\
    length (ir_data r) = 60%nat.
Proof.
  assert (exists r l',
            enrichLeadsInternal (world_answering (Some "sk-test") (Answer "NO"))
              {| bt_id := VUndef;
                 bt_leads := Some (repeat (bare_lead "Bakery" None) 60);
                 bt_topic := Some "cloud infrastructure";
                 bt_min_relevance_score := VUndef;
                 bt_enable_website_scraping := VUndef;
                 bt_enable_ai_analysis := VBool false |}
              no_requests = (Return r, l'))
    as (r & l' & Hrun) by (vm_compute; eauto).
  pose proof (fun Hleads =>
                enrichLeadsInternal_no_cap _ _
                  (repeat (bare_lead "Bakery" None) 60) _ _ _ Hleads Hrun)
    as Hthm.
  destruct (Hthm eq_refl) as (Hin & _ & _ & _ & _ & Hoff).
  exists r, l'. split; [exact Hrun|].
  rewrite Hin. destruct (Hoff eq_refl) as [-> _].
  now rewrite repeat_length.
Defined.



Lemma nth_batch_id_shift (results : list batch_result) (r : batch_result)
    (bs : list batch_params) :
  imap (fun i b => nth_batch_id b (length (results ++ [r]) + i)) bs
  = imap ((fun i b => nth_batch_id b (length results + i)) ∘ S) bs.
Proof.
  apply imap_ext. intros j x _. cbn. f_equal. rewrite length_app. cbn. lia.
Qed.

Lemma enrich_batches_entries (w : env) (bs : list batch_params) :
  forall results l,
    exists rs l',
      enrich_batches w true bs results l = (Return (results ++ rs), l') /\
      Forall2 batch_entry bs rs /\
      map batch_id rs
      = imap (fun i b => nth_batch_id b (length results + i)) bs.
Proof.
  induction bs as [|b bs IH]; intros results l.
  - exists [], l. cbn. unfold_M. rewrite app_nil_r.
    split; [reflexivity|]. split; constructor.
  - cbn [enrich_batches]. unfold_M.
    destruct (bt_leads b) as [leads|] eqn:Hleads.
    + destruct (enrichLeadsInternal_run w b leads l Hleads)
        as (scraped & fetched & analyzed & l2 & Hrun & _).
      rewrite Hrun.
      match goal with
      | |- context [enrich_batches w true bs (results ++ [?r]) l2] =>
          destruct (IH (results ++ [r]) l2) as (rs & l' & Hrs & Hall & Hids);
          exists (r :: rs), l'
      end.
      rewrite Hrs, <- app_assoc. split; [reflexivity|]. split.
      * constructor; [|exact Hall]. split; [congruence|].
        intros id res [= <- <-]. exists leads. auto.
      * cbn [map imap batch_id]. rewrite Hids, nth_batch_id_shift.
        unfold batch_id_of, nth_batch_id. now rewrite Nat.add_0_r.
    + unfold enrichLeadsInternal. rewrite Hleads. unfold_M.
      match goal with
      | |- context [enrich_batches w true bs (results ++ [?r]) l] =>
          destruct (IH (results ++ [r]) l) as (rs & l' & Hrs & Hall & Hids);
          exists (r :: rs), l'
      end.
      rewrite Hrs, <- app_assoc. split; [reflexivity|]. split.
      * constructor; [|exact Hall]. split; [reflexivity|]. discriminate.
      * cbn [map imap batch_id]. rewrite Hids, nth_batch_id_shift.
        unfold batch_id_of, nth_batch_id. now rewrite Nat.add_0_r.
Qed.

(** X16: [batchEnrich], called on the controller, answers a request whose
    [batches] is an array of objects with a success that holds one result
    per batch, in the order of the batches; the result of the n-th batch
    carries the id of the batch, or n where it has none.  A failure stays
    within its batch: a batch whose leads cannot be spread is reported as
    failed and the batches after it are processed all the same; a batch
    reported as done had leads, and its [total_input] is their number.
    [successful] and [failed] count the two kinds of result. *)
Theorem batchEnrich_isolates_failures (w : env) (bs : list batch_params)
    (l : log) :
  exists results l',
    batchEnrich w true (Some bs) l
    = (Return (BatchSuccess results
                 {| total_batches := length bs;
                    successful := length (List.filter batch_ok results);
                    failed := length bs
                              - length (List.filter batch_ok results) |}),
       l') /\
    Forall2 batch_entry bs results /\
    map batch_id results = imap (fun i b => nth_batch_id b i) bs.
Proof.
  destruct (enrich_batches_entries w bs [] l) as (rs & l' & Hrun & Hall & Hids).
  exists rs, l'. unfold batchEnrich. unfold_M. rewrite Hrun. cbn [app].
  split; [reflexivity|]. split; [exact Hall|exact Hids].
Qed.

Lemma enrich_batches_unbound (w : env) (bs : list batch_params) :
  forall results l,
    exists rs,
      enrich_batches w false bs results l = (Return (results ++ rs), l) /\
      length rs = length bs /\
      Forall (fun r => batch_ok r = false) rs.
Proof.
  induction bs as [|b bs IH]; intros results l.
  - exists []. cbn. unfold_M. rewrite app_nil_r. repeat split. constructor.
  - cbn [enrich_batches]. unfold_M.
    match goal with
    | |- context [enrich_batches w false bs (results ++ [?r]) l] =>
        destruct (IH (results ++ [r]) l) as (rs & Hrs & Hlen & Hall);
        exists (r :: rs)
    end.
    rewrite Hrs, <- app_assoc. split; [reflexivity|].
    split; [cbn; now rewrite Hlen|]. constructor; [reflexivity|exact Hall].
Qed.

Lemma filter_none_ok (rs : list batch_result) :
  Forall (fun r => batch_ok r = false) rs -> List.filter batch_ok rs = [].
Proof.
  induction 1 as [|r rs Hr _ IH]; [reflexivity|].
  cbn [List.filter]. now rewrite Hr.
Qed.

(** X17: the handler of [POST /batch-enrich] as the router registers it, the
    method without its object, enriches nothing: reading
    [this.enrichLeadsInternal] throws inside the [try] of each batch, so the
    answer is a success whose every batch failed, and no request is made to
    any site or to the oracle. *)
Theorem batch_enrich_route_enriches_nothing (w : env)
    (bs : list batch_params) (l : log) :
  exists results,
    batch_enrich_route w (Some bs) l
    = (Return (BatchSuccess results
                 {| total_batches := length bs;
                    successful := 0;
                    failed := length bs |}), l) /\
    length results = length bs /\
    Forall (fun r => batch_ok r = false) results.
Proof.
  destruct (enrich_batches_unbound w bs [] l) as (rs & Hrun & Hlen & Hall).
  exists rs. unfold batch_enrich_route, batchEnrich. unfold_M.
  rewrite Hrun. cbn [app]. rewrite (filter_none_ok rs Hall). cbn [length].
  rewrite Nat.sub_0_r. auto.
Qed.

(** *** The single-site endpoint *)


(** *** The cache: what renews a row and what does not *)

Section CacheExtras.
Import Cache.
Variables (domain topic : string) (table : gmap (string * string) row).

(** X19: a lookup after an upsert is answered by the age of the first write
    of the key, not by the time of the upsert: it returns the row just
    written exactly when less than seven days have passed since the key was
    first written, and null otherwise.  An upsert never renews a row. *)
Theorem upsert_does_not_renew (t1 t2 : Z) (v : value) (s : jsnum) :
  fst (findByDomain t2 domain topic (snd (upsert t1 domain topic v s table)))
  = (if t2 - days 7 <? first_written table domain topic t1
     then Some (fst (upsert t1 domain topic v s table))
     else None) /\
  analysis_data (fst (upsert t1 domain topic v s table)) = v /\
  relevance_score (fst (upsert t1 domain topic v s table)) = s /\
  created_at (fst (upsert t1 domain topic v s table))
  = first_written table domain topic t1.
Proof.
  unfold upsert, findByDomain, first_written. cbn [fst snd].
  rewrite lookup_insert_eq.
  destruct (table !! (domain, topic)) as [old|]; cbn [created_at];
    (split; [destruct (_ <? _); reflexivity|repeat split]).
Qed.

(** X20: a lookup never renews a row either: what a second lookup finds is
    what it would have found without the first, with the hit of the first
    counted, one more in [hit_count] and its time in [last_accessed_at], if
    the first was a hit.  The rows of other keys are left as they are. *)
Theorem lookup_does_not_renew (t1 t2 : Z) :
  fst (findByDomain t2 domain topic (snd (findByDomain t1 domain topic table)))
  = option_map (touched t1) (fst (findByDomain t2 domain topic table)) /\
  (forall k, k <> (domain, topic) ->
     snd (findByDomain t1 domain topic table) !! k = table !! k).
Proof.
  unfold findByDomain. split.
  - destruct (table !! (domain, topic)) as [r|] eqn:Hr.
    + destruct (t1 - days 7 <? created_at r) eqn:H1; cbn [snd].
      * rewrite lookup_insert_eq. cbn [created_at].
        destruct (t2 - days 7 <? created_at r); cbn [fst option_map];
          [|reflexivity].
        unfold touched. now rewrite H1.
      * rewrite Hr.
        destruct (t2 - days 7 <? created_at r); cbn [fst option_map];
          [|reflexivity].
        unfold touched. now rewrite H1.
    + cbn [snd]. now rewrite Hr.
  - intros k Hk. destruct (table !! (domain, topic)) as [r|]; [|reflexivity].
    destruct (_ <? _); cbn [snd]; [|reflexivity].
    now rewrite lookup_insert_ne.
Qed.

(** X21: pruning with [daysOld] of seven or more is invisible to lookups:
    at the time of the pruning and at any later time, a lookup on the pruned
    table returns what it returns on the table as it was.  The number
    returned is the number of rows deleted, and the rows kept are those
    created no earlier than [daysOld] days before. *)
Theorem prune_is_invisible_to_lookups (t t' daysOld : Z) :
  7 <= daysOld ->
  t <= t' ->
  fst (findByDomain t' domain topic (snd (pruneOldEntries t daysOld table)))
  = fst (findByDomain t' domain topic table) /\
  (fst (pruneOldEntries t daysOld table)
   + size (snd (pruneOldEntries t daysOld table)) = size table)%nat /\
  (forall k r,
     snd (pruneOldEntries t daysOld table) !! k = Some r <->
     table !! k = Some r /\ t - days daysOld <= created_at r).
Proof.
  intros Hdays Hlater. unfold pruneOldEntries. cbn [fst snd].
  set (keep := fun kr : string * string * row =>
                 ¬ created_at (snd kr) < t - days daysOld).
  assert (Hkept : forall k r,
             filter keep table !! k = Some r <->
             table !! k = Some r /\ t - days daysOld <= created_at r).
  { intros k r. rewrite map_lookup_filter_Some. unfold keep. cbn [snd].
    split; intros [Hrow Hage]; (split; [exact Hrow|lia]). }
  split; [|split; [|exact Hkept]].
  - unfold findByDomain.
    destruct (filter keep table !! (domain, topic)) as [r|] eqn:Hf.
    + apply Hkept in Hf as [-> _]. now destruct (_ <? _).
    + destruct (table !! (domain, topic)) as [r|] eqn:Hr; [|reflexivity].
      destruct (t' - days 7 <? created_at r) eqn:Hfresh; [|reflexivity].
      apply Z.ltb_lt in Hfresh.
      assert (Hin : filter keep table !! (domain, topic) = Some r).
      { apply Hkept. split; [exact Hr|]. unfold days in *. lia. }
      congruence.
  - pose proof (map_size_filter keep table). lia.
Qed.

End CacheExtras.

Lemma prune_is_invisible_to_lookups_witness :
  fst (Cache.findByDomain (Cache.days 9) "acme.com" "cloud infrastructure"
         (snd (Cache.pruneOldEntries (Cache.days 8) 7 stale_table)))
  = fst (Cache.findByDomain (Cache.days 9) "acme.com" "cloud infrastructure"
           stale_table) /\
  snd (Cache.pruneOldEntries (Cache.days 8) 7 stale_table)
    !! ("acme.com", "cloud infrastructure") = None.
Proof.
  destruct (prune_is_invisible_to_lookups "acme.com" "cloud infrastructure"
              stale_table (Cache.days 8) (Cache.days 9) 7)
    as (Hsame & _ & Hkept).
  - lia.
  - unfold Cache.days. lia.
  - split; [exact Hsame|].
    destruct (snd (Cache.pruneOldEntries (Cache.days 8) 7 stale_table)
                !! ("acme.com", "cloud infrastructure")) as [r|] eqn:Hr;
      [|reflexivity].
    apply Hkept in Hr as [Hrow Hage].
    unfold stale_table in Hrow. rewrite lookup_singleton_eq in Hrow.
    injection Hrow as <-. unfold Cache.days in Hage. cbn in Hage. lia.
Defined.

(** *** The request of the graded analysis *)

Lemma callAI_supported (w : env) (p : prompt) (l : log) :
  supported w = true ->
  exists rq,
    rq_prompt rq = p /\ rq_flexible rq = false /\ rq_provider rq = provider w /\
    callAI w p l
    = (settle (ai_post w (length (posts l)) rq),
       {| gets := gets l; posts := posts l ++ [rq] |}).
Proof.
  unfold supported, callAI. intros H.
  destruct (String.eqb (provider w) "openai") eqn:E1.
  - apply String.eqb_eq in E1.
    exists {| rq_provider := "openai"; rq_flexible := false; rq_prompt := p |}.
    rewrite E1. repeat split.
  - destruct (String.eqb (provider w) "anthropic") eqn:E2; [|discriminate].
    apply String.eqb_eq in E2.
    exists {| rq_provider := "anthropic"; rq_flexible := false; rq_prompt := p |}.
    rewrite E2. repeat split.
Qed.

Lemma analysis_prompt_content (company : lead) (content topic : string) :
  (0 < len (prompt_content (buildAnalysisPrompt company content topic)) <= 3000)%nat.
Proof.
  unfold buildAnalysisPrompt. cbn [prompt_content].
  destruct content as [|c content]; cbn [is_empty].
  - cbn. lia.
  - rewrite substring_from_0, len_take_str. lens. lia.
Qed.

(** X22: the graded analysis fetches nothing and asks the oracle at most
    once.  Without an API key it asks nothing and the verdict is "AI analysis
    not configured"; with a key and a provider that is neither "openai" nor
    "anthropic" it asks nothing either and the verdict is "Analysis failed:
    Unsupported AI provider"; with a key and a known provider it makes
    exactly one request, whose prompt carries between 1 and 3000 characters
    of content, a placeholder standing for an empty content. *)
Theorem analyzeCompanyRelevance_requests (w : env) (company : lead)
    (content topic : string) (l : log) :
  exists v l',
    analyzeCompanyRelevance w company content topic l = (Return v, l') /\
    gets l' = gets l /\
    (truthy_str (apiKey w) = false -> v = not_configured /\ l' = l) /\
    (truthy_str (apiKey w) = true -> supported w = false ->
     v = analysis_failed "Unsupported AI provider" /\ l' = l) /\
    (truthy_str (apiKey w) = true -> supported w = true ->
     exists rq,
       posts l' = posts l ++ [rq] /\
       rq_flexible rq = false /\
       rq_prompt rq = buildAnalysisPrompt company content topic /\
       (0 < len (prompt_content (rq_prompt rq)) <= 3000)%nat).
Proof.
  destruct (analyzeCompanyRelevance_effects w company content topic l)
    as (v & l' & Hrun & _ & Hg & _ & Hkey & Hun).
  exists v, l'. split; [exact Hrun|]. split; [exact Hg|].
  split; [exact Hkey|]. split; [exact Hun|].
  intros Hk Hsup. revert Hrun. unfold analyzeCompanyRelevance.
  rewrite Hk. cbn [negb]. unfold_M.
  destruct (callAI_supported w (buildAnalysisPrompt company content topic) l Hsup)
    as (rq & Hp & Hf & _ & ->).
  intros Hrun. exists rq.
  assert (Hl : l' = {| gets := gets l; posts := posts l ++ [rq] |}).
  { destruct (settle _) as [r|e|]; [|now injection Hrun|discriminate].
    destruct (parseAnalysisResponse r); now injection Hrun. }
  rewrite Hl, Hp. cbn [posts]. split; [reflexivity|]. split; [exact Hf|].
  split; [reflexivity|]. apply analysis_prompt_content.
Qed.

(** *** Windows and chunks of size zero *)

Lemma scrape_from_zero (w : env) (urls : list string) (fuel i : nat)
    (results : list scraped) (l : log) :
  (i < length urls)%nat ->
  scrape_from w fuel urls 0 i results l = (Diverge, l).
Proof.
  intros Hi. revert results. induction fuel as [|fuel IH]; intros results;
    cbn [scrape_from];
    replace (length urls <=? i)%nat with false
      by (symmetry; apply Nat.leb_gt; lia); [reflexivity|].
  rewrite slice_take_drop. cbn [take map allSettled]. unfold_M.
  rewrite Nat.add_0_r. apply IH.
Qed.

Lemma process_from_zero (w : env) (topic : string) (companies : list lead)
    (fuel i : nat) (results : list match_result) (l : log) :
  (i < length companies)%nat ->
  process_from w fuel topic companies 0 i results l = (Diverge, l).
Proof.
  intros Hi. revert results. induction fuel as [|fuel IH]; intros results;
    cbn [process_from];
    replace (length companies <=? i)%nat with false
      by (symmetry; apply Nat.leb_gt; lia); [reflexivity|].
  rewrite slice_take_drop. cbn [take imap]. unfold promise_all.
  cbn [allSettled first_rejection]. unfold_M.
  rewrite Nat.add_0_r. apply IH.
Qed.

(** X23: with a window of zero, [scrapeMultiple] and
    [filterCompaniesByTopicParallel] never return on a list that is not
    empty: the loop index does not advance; no request is made. *)
Theorem window_of_zero_never_returns (w : env) (u : string)
    (us : list string) (c : lead) (cs : list lead) (topic : string) (l : log) :
  scrapeMultiple w (u :: us) 0 l = (Diverge, l) /\
  filterCompaniesByTopicParallel w (c :: cs) topic 0 l = (Diverge, l).
Proof.
  split.
  - unfold scrapeMultiple. apply scrape_from_zero. cbn. lia.
  - unfold filterCompaniesByTopicParallel. unfold_M.
    rewrite process_from_zero by (cbn; lia). reflexivity.
Qed.

Lemma filter_from_zero (w : env) (topic : string) (items : list post)
    (fuel i : nat) :
  (i < length items)%nat ->
  forall ids l,
    fst (filter_from w fuel topic items 0 i ids l) = Diverge.
Proof.
  intros Hi. induction fuel as [|fuel IH]; intros ids l;
    cbn [filter_from];
    replace (length items <=? i)%nat with false
      by (symmetry; apply Nat.leb_gt; lia); [reflexivity|].
  unfold_M. rewrite Nat.add_0_r.
  match goal with
  | |- context [callAIFlexible w ?p l] =>
      destruct (callAIFlexible_settles w p l)
        as [(r & l1 & Hcall & _)|(e & l1 & Hcall & _)]; rewrite Hcall
  end.
  - pose proof (collect_ids_settles r ids) as Hs.
    destruct (collect_ids r ids) as [found|e|]; [| |contradiction]; apply IH.
  - apply IH.
Qed.

(** X24: with an API key and a chunk size of zero, [filterPostsByTopic]
    never returns on a list of posts that is not empty. *)
Theorem chunk_of_zero_never_returns (w : env) (p : post) (ps : list post)
    (topic : string) (l : log) :
  truthy_str (apiKey w) = true ->
  fst (filterPostsByTopic w (Some (p :: ps)) topic 0 l) = Diverge.
Proof.
  intros Hkey. unfold filterPostsByTopic. rewrite Hkey. cbn [negb orb].
  change (length (p :: ps) =? 0)%nat with false. cbv iota. unfold_M.
  pose proof (filter_from_zero w topic (p :: ps) (length (p :: ps)) 0
                ltac:(cbn; lia) [] l) as H.
  destruct (filter_from _ _ _ _ _ _ _ _) as [[ids|e|] l']; cbn [fst] in H;
    try discriminate. reflexivity.
Qed.

Lemma chunk_of_zero_never_returns_witness :
  fst (filterPostsByTopic (world_answering (Some "sk-test") (Answer "[1]"))
         (Some three_posts) "business trips" 0 no_requests) = Diverge.
Proof.
  apply (chunk_of_zero_never_returns
           (world_answering (Some "sk-test") (Answer "[1]"))
           (text_post 1 "Excited to be at GDC in San Francisco this week!")
           [ text_post 2 "Just posted our Q3 earnings, great results!";
             text_post 3 "Packing my bags for the London sales meeting!" ]
           "business trips" no_requests).
  reflexivity.
Defined.

(** *** The models at work *)

Example topic_check_yes :
  fst (checkCompanyTopicRelation
         (world_answering (Some "sk-test") (Answer " Yes, it is."))
         "https://acme.com" "Title: Acme Cloud" "cloud infrastructure"
         no_requests) = Return true.
Proof. reflexivity. Qed.

Example topic_check_sharp_s :
  fst (checkCompanyTopicRelation
         (world_answering (Some "sk-test") (Answer yes_with_sharp_s))
         "https://acme.com" "Title: Acme Cloud" "cloud infrastructure"
         no_requests) = Return true /\
  toUpperCase yes_with_sharp_s = units "YESS".
Proof. split; reflexivity. Qed.

Example topic_check_no :
  fst (checkCompanyTopicRelation
         (world_answering (Some "sk-test") (Answer "NO"))
         "https://acme.com" "Title: Acme Cloud" "cloud infrastructure"
         no_requests) = Return false.
Proof. reflexivity. Qed.

Example topic_check_blank_content :
  checkCompanyTopicRelation
    (world_answering (Some "sk-test") (Answer "YES"))
    "https://acme.com" "   " "cloud infrastructure" no_requests
  = (Return false, no_requests).
Proof. reflexivity. Qed.

Example unit_of_work_without_url :
  fst (processCompany (world_answering (Some "sk-test") (Answer "YES"))
         "cloud infrastructure" (bare_lead "Nameless" None) 4 no_requests)
  = Return {| mr_company := bare_lead "Nameless" None;
              mr_index := 4;
              isRelated := None |}.
Proof. reflexivity. Qed.

Example window_of_zero_never_ends :
  fst (filterCompaniesByTopicParallel
         (world_answering (Some "sk-test") (Answer "YES"))
         [bare_lead "Acme" (Some "acme.com")] "cloud infrastructure" 0
         no_requests) = Diverge.
Proof. reflexivity. Qed.

Example lookup_right_after_first_upsert :
  exists r,
    fst (Cache.findByDomain (Cache.days 1) "acme.com" "cloud infrastructure"
           (snd (Cache.upsert 0 "acme.com" "cloud infrastructure"
                   (VStr "first analysis") (Fin (inject_Z 3)) ∅)))
    = Some r /\
    Cache.analysis_data r = VStr "first analysis".
Proof.
  destruct (upsert_then_lookup_new_key "acme.com" "cloud infrastructure" ∅
              0 (Cache.days 1) (VStr "first analysis") (Fin (inject_Z 3)))
    as (r & Hr & Hv & _).
  - apply lookup_empty.
  - unfold Cache.days. lia.
  - exists r. now split.
Qed.
